(** * Arkanoid simulation core: a shallow embedding of [ArkanoidImpl]

    The development follows the C++ class [ArkanoidImpl] member by member.

    - C++ [int] is a [Z] kept in the 32-bit two's-complement range; every
      arithmetic operation is followed by [wrap].
    - C++ [float] is idealised as a real number ([R]): rounding, infinities
      and NaN are outside the model.  [std::max], [std::min], [std::abs],
      [std::sqrt], [std::sin] and [std::cos] are their exact counterparts.
    - [std::string] is [string]; [std::vector] is [list].
    - What the class takes from outside the repository's two files (the
      constants of [ArkanoidSettings], the C library's [rand], the
      [std::mt19937] engine with its distributions) is a field of one
      record, [Extern], over which the embedding is parameterised. *)

From Stdlib Require Import ZArith List String Bool Reals Lra Lia Psatz.
From Stdlib Require Import DecimalString.
Import ListNotations.

Open Scope Z_scope.

(** ** Machine integers *)

Definition INT_MIN : Z := -2147483648.
Definition INT_MAX : Z := 2147483647.

Definition int_range (z : Z) : Prop := INT_MIN <= z <= INT_MAX.

Definition wrap (z : Z) : Z := (z + 2147483648) mod 4294967296 - 2147483648.

Definition int_add (a b : Z) : Z := wrap (a + b).
Definition int_sub (a b : Z) : Z := wrap (a - b).
Definition int_mul (a b : Z) : Z := wrap (a * b).
(** [/] and [%] of C++ truncate toward zero. *)
Definition int_div (a b : Z) : Z := wrap (Z.quot a b).
Definition int_rem (a b : Z) : Z := Z.rem a b.

(** [std::min] and [std::max] on [int]. *)
Definition imin (a b : Z) : Z := if b <? a then b else a.
Definition imax (a b : Z) : Z := if a <? b then b else a.

(** [std::to_string(int)]. *)
Definition to_string (z : Z) : string := NilZero.string_of_int (Z.to_int z).

(** ** Floats as reals *)

Definition fltb (a b : R) : bool := if Rlt_dec a b then true else false.
Definition fleb (a b : R) : bool := if Rle_dec a b then true else false.
Definition feqb (a b : R) : bool := if Req_dec_T a b then true else false.

(** [std::max(a, b)] is [(a < b) ? b : a]; [std::min(a, b)] is [(b < a) ? b : a]. *)
Definition fmax (a b : R) : R := if fltb a b then b else a.
Definition fmin (a b : R) : R := if fltb b a then b else a.

(** [clampf(v, a, b)]. *)
Definition clampf (v a b : R) : R := fmax a (fmin b v).

(** [sgn(v)]. *)
Definition sgn (v : R) : R := if fltb v 0 then (-1)%R else 1%R.

(** Conversion of a float to an integer type truncates toward zero. *)
Definition ftrunc (r : R) : Z :=
  if fltb r 0 then (- Int_part (- r))%Z else Int_part r.

(** [(int)r] and [(uint32_t)r]. *)
Definition to_int (r : R) : Z := wrap (ftrunc r).
Definition to_uint32 (r : R) : Z := ftrunc r mod 4294967296.

(** ** Vectors and rectangles

    [Vect] and [Rect] come from the framework header; the class uses
    them through the members and operators below. *)

Record Vect : Type := mkVect { vx : R; vy : R }.

Definition vadd (a b : Vect) : Vect := mkVect (vx a + vx b) (vy a + vy b).
Definition vsub (a b : Vect) : Vect := mkVect (vx a - vx b) (vy a - vy b).
Definition vscale (a : Vect) (k : R) : Vect := mkVect (vx a * k) (vy a * k).
Definition LengthSquared (a : Vect) : R := (vx a * vx a + vy a * vy a)%R.
Definition Length (a : Vect) : R := sqrt (LengthSquared a).
Definition Normalized (a : Vect) : Vect := vscale a (/ Length a).

Record Rect : Type := mkRect { pos : Vect; size : Vect }.

Definition rect_center (r : Rect) : Vect :=
  mkVect (vx (pos r) + vx (size r) * 0.5) (vy (pos r) + vy (size r) * 0.5).

Definition make_rect_xywh (x y w h : R) : Rect :=
  mkRect (mkVect x y) (mkVect w h).

(** ** Colours: the [IM_COL32] macro of imgui.h with its default packing

    [(ImU32)A << 24 | (ImU32)B << 16 | (ImU32)G << 8 | (ImU32)R << 0], on
    32-bit unsigned integers. *)

Definition IM_COL32_R_SHIFT : Z := 0.
Definition IM_COL32_G_SHIFT : Z := 8.
Definition IM_COL32_B_SHIFT : Z := 16.
Definition IM_COL32_A_SHIFT : Z := 24.

Definition u32 (z : Z) : Z := z mod 4294967296.

Definition IM_COL32 (r g b a : Z) : Z :=
  Z.lor (Z.lor (Z.lor (u32 (Z.shiftl (u32 a) IM_COL32_A_SHIFT))
                      (u32 (Z.shiftl (u32 b) IM_COL32_B_SHIFT)))
               (u32 (Z.shiftl (u32 g) IM_COL32_G_SHIFT)))
        (u32 (Z.shiftl (u32 r) IM_COL32_R_SHIFT)).

(** [(c >> shift) & 255] read back as an [int]. *)
Definition col_channel (c shift : Z) : Z := Z.land (Z.shiftr c shift) 255.

(** ** The entities of the class *)

Inductive GameState : Type := Playing | Win | Lose.

Definition GameState_eqb (a b : GameState) : bool :=
  match a, b with
  | Playing, Playing | Win, Win | Lose, Lose => true
  | _, _ => false
  end.

Inductive BonusType : Type :=
  | SpeedUp | EnlargePaddle | ExtraLife | Pierce | SlowMo
  | Points | Magnet | ScoreMult | NukeRow.

Module Brick.
Record t : Type := mk {
    rect_world : Rect;
    alive : bool;
    score : Z;
    bonus : bool;
    color : Z;
    hit_points : Z;
    base_color : Z
  }.

Definition set_alive (v : bool) (b : t) : t :=
    mk (rect_world b) v (score b) (bonus b) (color b) (hit_points b) (base_color b).
Definition set_color (v : Z) (b : t) : t :=
    mk (rect_world b) (alive b) (score b) (bonus b) v (hit_points b) (base_color b).
Definition set_hit_points (v : Z) (b : t) : t :=
    mk (rect_world b) (alive b) (score b) (bonus b) (color b) v (base_color b).
End Brick.

Module Bonus.
Record t : Type := mk {
    rect_world : Rect;
    type : BonusType;
    vel : Vect;
    alive : bool;
    color : Z;
    points : Z;
    glow : R
  }.

Definition set_rect_world (v : Rect) (b : t) : t :=
    mk v (type b) (vel b) (alive b) (color b) (points b) (glow b).
Definition set_vel (v : Vect) (b : t) : t :=
    mk (rect_world b) (type b) v (alive b) (color b) (points b) (glow b).
Definition set_alive (v : bool) (b : t) : t :=
    mk (rect_world b) (type b) (vel b) v (color b) (points b) (glow b).
Definition set_glow (v : R) (b : t) : t :=
    mk (rect_world b) (type b) (vel b) (alive b) (color b) (points b) v.
End Bonus.

Module Particle.
Record t : Type := mk {
    pos : Vect;
    vel : Vect;
    life : R;
    size : R;
    color : Z
  }.
End Particle.

(** The fields of [ArkanoidSettings] the class reads. *)
Module ArkanoidSettings.
Record t : Type := mk {
    world_size : Vect;
    ball_radius : R;
    ball_speed : R;
    carriage_width : R;
    bricks_columns_count : Z;
    bricks_rows_count : Z;
    bricks_columns_padding : R;
    bricks_rows_padding : R
  }.
End ArkanoidSettings.

(** One collision record of [ArkanoidDebugData]. *)
Record Hit : Type := mkHit { screen_pos : Vect; normal : Vect }.

(** ** The class state

    The members of [ArkanoidImpl] in declaration order, then the two pieces
    of state the class keeps outside its members: the function-local
    [static float freeze_timer] of [integrate_ball], and the number of
    calls made to the C library's [rand] so far. *)

Record ArkanoidImpl : Type := mkArkanoidImpl {
  settings : ArkanoidSettings.t;
  world_size : Vect;
  screen_scale : Vect;
  bricks : list Brick.t;
  bricks_cols : Z;
  bricks_rows : Z;
  brick_size : Vect;
  bricks_origin : Vect;
  destroyed_bricks_count : Z;
  bonuses : list Bonus.t;
  particles : list Particle.t;
  carriage_world : Rect;
  carriage_height : R;
  carriage_speed : R;
  ball_pos : Vect;
  ball_vel : Vect;
  ball_radius : R;
  ball_speed_target : R;
  ball_speed_cur : R;
  ball_min_speed : R;
  ball_max_speed : R;
  state : GameState;
  score : Z;
  lives : Z;
  combo_timer : R;
  combo_window : R;
  combo_mult : Z;
  pierce_mode : bool;
  pierce_timer : R;
  pierce_duration : R;
  slowmo_mode : bool;
  slowmo_timer : R;
  slowmo_duration : R;
  slowmo_factor : R;
  trail_mode : bool;
  ball_trail : list Vect;
  cheat_enlarge_paddle : bool;
  cheat_extra_life : bool;
  cheat_speed_lock : bool;
  magnet_active : bool;
  magnet_timer : R;
  magnet_duration : R;
  magnet_strength : R;
  score_mult_active : bool;
  score_mult_timer : R;
  score_mult_duration : R;
  score_mult_value : Z;
  cheat_invincible : bool;
  cheat_freeze_ball : bool;
  ball_launched : bool;
  paused : bool;
  bricks_to_speedup : Z;
  speedup_factor : R;
  balance : Z;
  total_money : Z;
  money_from_score_accumulator : Z;
  score_per_dollar : Z;
  shop_message : string;
  shop_message_timer : R;
  shop_message_duration : R;
  freeze_timer : R;
  rand_calls : nat
}.

(** [eta g] rebuilds [g] from its fields; a setter is [eta g] with one
    field replaced. *)
Definition eta (g : ArkanoidImpl) : ArkanoidImpl :=
  mkArkanoidImpl
    (settings g) (world_size g) (screen_scale g) (bricks g) (bricks_cols g)
    (bricks_rows g) (brick_size g) (bricks_origin g) (destroyed_bricks_count g)
    (bonuses g) (particles g) (carriage_world g) (carriage_height g)
    (carriage_speed g) (ball_pos g) (ball_vel g) (ball_radius g)
    (ball_speed_target g) (ball_speed_cur g) (ball_min_speed g)
    (ball_max_speed g) (state g) (score g) (lives g) (combo_timer g)
    (combo_window g) (combo_mult g) (pierce_mode g) (pierce_timer g)
    (pierce_duration g) (slowmo_mode g) (slowmo_timer g) (slowmo_duration g)
    (slowmo_factor g) (trail_mode g) (ball_trail g) (cheat_enlarge_paddle g)
    (cheat_extra_life g) (cheat_speed_lock g) (magnet_active g)
    (magnet_timer g) (magnet_duration g) (magnet_strength g)
    (score_mult_active g) (score_mult_timer g) (score_mult_duration g)
    (score_mult_value g) (cheat_invincible g) (cheat_freeze_ball g)
    (ball_launched g) (paused g) (bricks_to_speedup g) (speedup_factor g)
    (balance g) (total_money g) (money_from_score_accumulator g)
    (score_per_dollar g) (shop_message g) (shop_message_timer g)
    (shop_message_duration g) (freeze_timer g) (rand_calls g).

Ltac setter proj v g :=
  let e := eval cbv beta delta [eta] in (eta g) in
  match eval pattern (proj g) in e with
  | ?f _ => let r := eval cbv beta in (f v) in exact r
  end.

Definition set_settings (v : ArkanoidSettings.t) (g : ArkanoidImpl) : ArkanoidImpl := ltac:(setter settings v g).
Definition set_world_size (v : Vect) (g : ArkanoidImpl) : ArkanoidImpl := ltac:(setter world_size v g).
Definition set_screen_scale (v : Vect) (g : ArkanoidImpl) : ArkanoidImpl := ltac:(setter screen_scale v g).
Definition set_bricks (v : list Brick.t) (g : ArkanoidImpl) : ArkanoidImpl := ltac:(setter bricks v g).
Definition set_bricks_cols (v : Z) (g : ArkanoidImpl) : ArkanoidImpl := ltac:(setter bricks_cols v g).
Definition set_bricks_rows (v : Z) (g : ArkanoidImpl) : ArkanoidImpl := ltac:(setter bricks_rows v g).
Definition set_brick_size (v : Vect) (g : ArkanoidImpl) : ArkanoidImpl := ltac:(setter brick_size v g).
Definition set_bricks_origin (v : Vect) (g : ArkanoidImpl) : ArkanoidImpl := ltac:(setter bricks_origin v g).
Definition set_destroyed_bricks_count (v : Z) (g : ArkanoidImpl) : ArkanoidImpl := ltac:(setter destroyed_bricks_count v g).
Definition set_bonuses (v : list Bonus.t) (g : ArkanoidImpl) : ArkanoidImpl := ltac:(setter bonuses v g).
Definition set_particles (v : list Particle.t) (g : ArkanoidImpl) : ArkanoidImpl := ltac:(setter particles v g).
Definition set_carriage_world (v : Rect) (g : ArkanoidImpl) : ArkanoidImpl := ltac:(setter carriage_world v g).
Definition set_ball_pos (v : Vect) (g : ArkanoidImpl) : ArkanoidImpl := ltac:(setter ball_pos v g).
Definition set_ball_vel (v : Vect) (g : ArkanoidImpl) : ArkanoidImpl := ltac:(setter ball_vel v g).
Definition set_ball_radius (v : R) (g : ArkanoidImpl) : ArkanoidImpl := ltac:(setter ball_radius v g).
Definition set_ball_speed_target (v : R) (g : ArkanoidImpl) : ArkanoidImpl := ltac:(setter ball_speed_target v g).
Definition set_ball_speed_cur (v : R) (g : ArkanoidImpl) : ArkanoidImpl := ltac:(setter ball_speed_cur v g).
Definition set_state (v : GameState) (g : ArkanoidImpl) : ArkanoidImpl := ltac:(setter state v g).
Definition set_score (v : Z) (g : ArkanoidImpl) : ArkanoidImpl := ltac:(setter score v g).
Definition set_lives (v : Z) (g : ArkanoidImpl) : ArkanoidImpl := ltac:(setter lives v g).
Definition set_combo_timer (v : R) (g : ArkanoidImpl) : ArkanoidImpl := ltac:(setter combo_timer v g).
Definition set_combo_mult (v : Z) (g : ArkanoidImpl) : ArkanoidImpl := ltac:(setter combo_mult v g).
Definition set_pierce_mode (v : bool) (g : ArkanoidImpl) : ArkanoidImpl := ltac:(setter pierce_mode v g).
Definition set_pierce_timer (v : R) (g : ArkanoidImpl) : ArkanoidImpl := ltac:(setter pierce_timer v g).
Definition set_slowmo_mode (v : bool) (g : ArkanoidImpl) : ArkanoidImpl := ltac:(setter slowmo_mode v g).
Definition set_slowmo_timer (v : R) (g : ArkanoidImpl) : ArkanoidImpl := ltac:(setter slowmo_timer v g).
Definition set_trail_mode (v : bool) (g : ArkanoidImpl) : ArkanoidImpl := ltac:(setter trail_mode v g).
Definition set_ball_trail (v : list Vect) (g : ArkanoidImpl) : ArkanoidImpl := ltac:(setter ball_trail v g).
Definition set_cheat_enlarge_paddle (v : bool) (g : ArkanoidImpl) : ArkanoidImpl := ltac:(setter cheat_enlarge_paddle v g).
Definition set_cheat_extra_life (v : bool) (g : ArkanoidImpl) : ArkanoidImpl := ltac:(setter cheat_extra_life v g).
Definition set_cheat_speed_lock (v : bool) (g : ArkanoidImpl) : ArkanoidImpl := ltac:(setter cheat_speed_lock v g).
Definition set_magnet_active (v : bool) (g : ArkanoidImpl) : ArkanoidImpl := ltac:(setter magnet_active v g).
Definition set_magnet_timer (v : R) (g : ArkanoidImpl) : ArkanoidImpl := ltac:(setter magnet_timer v g).
Definition set_score_mult_active (v : bool) (g : ArkanoidImpl) : ArkanoidImpl := ltac:(setter score_mult_active v g).
Definition set_score_mult_timer (v : R) (g : ArkanoidImpl) : ArkanoidImpl := ltac:(setter score_mult_timer v g).
Definition set_score_mult_value (v : Z) (g : ArkanoidImpl) : ArkanoidImpl := ltac:(setter score_mult_value v g).
Definition set_cheat_invincible (v : bool) (g : ArkanoidImpl) : ArkanoidImpl := ltac:(setter cheat_invincible v g).
Definition set_cheat_freeze_ball (v : bool) (g : ArkanoidImpl) : ArkanoidImpl := ltac:(setter cheat_freeze_ball v g).
Definition set_ball_launched (v : bool) (g : ArkanoidImpl) : ArkanoidImpl := ltac:(setter ball_launched v g).
Definition set_paused (v : bool) (g : ArkanoidImpl) : ArkanoidImpl := ltac:(setter paused v g).
Definition set_balance (v : Z) (g : ArkanoidImpl) : ArkanoidImpl := ltac:(setter balance v g).
Definition set_total_money (v : Z) (g : ArkanoidImpl) : ArkanoidImpl := ltac:(setter total_money v g).
Definition set_money_from_score_accumulator (v : Z) (g : ArkanoidImpl) : ArkanoidImpl := ltac:(setter money_from_score_accumulator v g).
Definition set_shop_message (v : string) (g : ArkanoidImpl) : ArkanoidImpl := ltac:(setter shop_message v g).
Definition set_shop_message_timer (v : R) (g : ArkanoidImpl) : ArkanoidImpl := ltac:(setter shop_message_timer v g).
Definition set_freeze_timer (v : R) (g : ArkanoidImpl) : ArkanoidImpl := ltac:(setter freeze_timer v g).
Definition set_rand_calls (v : nat) (g : ArkanoidImpl) : ArkanoidImpl := ltac:(setter rand_calls v g).

(** The state of a freshly constructed object: the default member
    initialisers of the class declaration. *)
Definition fresh_instance (s : ArkanoidSettings.t) : ArkanoidImpl :=
  {| settings := s;
     world_size := mkVect 800 600;
     screen_scale := mkVect 1 1;
     bricks := [];
     bricks_cols := 0;
     bricks_rows := 0;
     brick_size := mkVect 0 0;
     bricks_origin := mkVect 0 0;
     destroyed_bricks_count := 0;
     bonuses := [];
     particles := [];
     carriage_world := mkRect (mkVect 0 0) (mkVect 100 20);
     carriage_height := 18;
     carriage_speed := 500;
     ball_pos := mkVect 0 0;
     ball_vel := mkVect 0 0;
     ball_radius := 10;
     ball_speed_target := 150;
     ball_speed_cur := 150;
     ball_min_speed := 60;
     ball_max_speed := 5000;
     state := Playing;
     score := 0;
     lives := 3;
     combo_timer := 0;
     combo_window := 1.2;
     combo_mult := 1;
     pierce_mode := false;
     pierce_timer := 0;
     pierce_duration := 2;
     slowmo_mode := false;
     slowmo_timer := 0;
     slowmo_duration := 3;
     slowmo_factor := 0.45;
     trail_mode := false;
     ball_trail := [];
     cheat_enlarge_paddle := false;
     cheat_extra_life := false;
     cheat_speed_lock := false;
     magnet_active := false;
     magnet_timer := 0;
     magnet_duration := 6;
     magnet_strength := 600;
     score_mult_active := false;
     score_mult_timer := 0;
     score_mult_duration := 8;
     score_mult_value := 1;
     cheat_invincible := false;
     cheat_freeze_ball := false;
     ball_launched := true;
     paused := false;
     bricks_to_speedup := 10;
     speedup_factor := 1.10;
     balance := 0;
     total_money := 0;
     money_from_score_accumulator := 0;
     score_per_dollar := 100;
     shop_message := "";
     shop_message_timer := 0;
     shop_message_duration := 2.5;
     freeze_timer := 0;
     rand_calls := 0%nat |}.

(** ** Money and shop *)

Definition try_purchase (cost : Z) (g : ArkanoidImpl) : bool * ArkanoidImpl :=
  if cost <=? 0 then (false, g)
  else if balance g >=? cost then
    let g := set_balance (int_sub (balance g) cost) g in
    let g := set_shop_message ("Purchased for $" ++ to_string cost ++ "!") g in
    let g := set_shop_message_timer (shop_message_duration g) g in
    (true, g)
  else
    let g := set_shop_message "Not enough $" g in
    let g := set_shop_message_timer (shop_message_duration g) g in
    (false, g).

Definition add_money (amount : Z) (g : ArkanoidImpl) : ArkanoidImpl :=
  if amount <=? 0 then g
  else
    let g := set_balance (int_add (balance g) amount) g in
    let g := set_total_money (int_add (total_money g) amount) g in
    let g := set_shop_message ("Gained $" ++ to_string amount) g in
    set_shop_message_timer (shop_message_duration g) g.

Definition grant_money_from_score (g : ArkanoidImpl) : ArkanoidImpl :=
  let g := if money_from_score_accumulator g <? 0
           then set_money_from_score_accumulator 0 g else g in
  if score g <=? money_from_score_accumulator g then g
  else
    let delta_points := int_sub (score g) (money_from_score_accumulator g) in
    let dollars := int_div delta_points (score_per_dollar g) in
    if dollars >? 0 then
      let g := add_money dollars g in
      set_money_from_score_accumulator
        (int_add (money_from_score_accumulator g)
                 (int_mul dollars (score_per_dollar g))) g
    else g.

(** ** What the class takes from outside

    The static limits of [ArkanoidSettings] (declared in the framework
    header), the values the C library's [rand] returns call after call, and
    the draws of the [std::mt19937] engines the class seeds. *)

Record Extern : Type := mkExtern {
  ball_speed_min : R;
  ball_speed_max : R;
  carriage_width_min : R;
  bricks_columns_min : Z;
  bricks_columns_max : Z;
  bricks_rows_min : Z;
  bricks_rows_max : Z;
  bricks_columns_padding_min : R;
  bricks_columns_padding_max : R;
  bricks_rows_padding_min : R;
  bricks_rows_padding_max : R;
  (** [c_rand n]: what the [n]-th call of [rand()] returns. *)
  c_rand : nat -> Z;
  (** [mt_uniform_int seed lo hi]: the first draw of
      [std::uniform_int_distribution<int>(lo, hi)] from [std::mt19937(seed)]. *)
  mt_uniform_int : Z -> Z -> Z -> Z;
  (** [level_unif k] and [level_hp k]: the draws [unif(rng)] and
      [hpDist(rng)] that [build_level] makes for its [k]-th brick from
      [std::mt19937 rng(1337)]. *)
  level_unif : nat -> R;
  level_hp : nat -> Z;
  (** [particle_draws seed i]: the draws [ang(rng)], [spd(rng)], [rng()] and
      [sz(rng)] that [spawn_particles] makes for its [i]-th particle from
      [std::mt19937 rng(seed)]. *)
  particle_draws : Z -> nat -> R * R * Z * R
}.

(** The input snapshot: the part of [ImGuiIO] that [update] reads. *)
Record ImGuiIO : Type := mkImGuiIO {
  DisplaySize : Vect;
  KeysDown : Z -> bool
}.

(** Key codes of GLFW. *)
Definition GLFW_KEY_1 : Z := 49.
Definition GLFW_KEY_2 : Z := 50.
Definition GLFW_KEY_3 : Z := 51.
Definition GLFW_KEY_A : Z := 65.
Definition GLFW_KEY_C : Z := 67.
Definition GLFW_KEY_D : Z := 68.
Definition GLFW_KEY_E : Z := 69.
Definition GLFW_KEY_N : Z := 78.
Definition GLFW_KEY_Q : Z := 81.
Definition GLFW_KEY_R : Z := 82.
Definition GLFW_KEY_T : Z := 84.
Definition GLFW_KEY_X : Z := 88.
Definition GLFW_KEY_Y : Z := 89.

Section Simulation.

Context (ext : Extern).

(** ** Reset and level build *)

(** The brick of row [r], column [c], the [k]-th one built. *)
Definition build_brick (rows : Z) (origin : Vect) (bw bh pad_x pad_y : R)
    (r c : Z) (k : nat) : Brick.t :=
  let x := (vx origin + IZR c * (bw + pad_x))%R in
  let y := (vy origin + IZR r * (bh + pad_y))%R in
  let p := level_unif ext k in
  let bonus := fltb p 0.15 in
  let base_color :=
    if bonus then IM_COL32 255 200 80 255
    else IM_COL32
           (int_add 140 (to_int (90 * IZR r / IZR (imax 1 (int_sub rows 1)))))
           180 230 255 in
  let rnd := level_hp ext k in
  let hit_points := if rnd <? 5 then 3 else if rnd <? 25 then 2 else 1 in
  {| Brick.rect_world := make_rect_xywh x y bw bh;
     Brick.alive := true;
     Brick.score := int_add 10 (int_mul (int_sub (int_sub rows 1) r) 2);
     Brick.bonus := bonus;
     Brick.color := base_color;
     Brick.hit_points := hit_points;
     Brick.base_color := base_color |}.

Definition build_level (s : ArkanoidSettings.t) (g : ArkanoidImpl) : ArkanoidImpl :=
  let g := set_bricks [] g in
  let g := set_bricks_cols
             (to_int (clampf (IZR (ArkanoidSettings.bricks_columns_count s))
                             (IZR (bricks_columns_min ext))
                             (IZR (bricks_columns_max ext)))) g in
  let g := set_bricks_rows
             (to_int (clampf (IZR (ArkanoidSettings.bricks_rows_count s))
                             (IZR (bricks_rows_min ext))
                             (IZR (bricks_rows_max ext)))) g in
  let pad_x := clampf (ArkanoidSettings.bricks_columns_padding s)
                      (bricks_columns_padding_min ext)
                      (bricks_columns_padding_max ext) in
  let pad_y := clampf (ArkanoidSettings.bricks_rows_padding s)
                      (bricks_rows_padding_min ext)
                      (bricks_rows_padding_max ext) in
  let top_margin := 40%R in
  let side_margin := 20%R in
  let area_w := (vx (world_size g) - side_margin * 2)%R in
  let area_h := (vy (world_size g) * 0.45 - top_margin)%R in
  let total_pad_x := (pad_x * IZR (int_sub (bricks_cols g) 1))%R in
  let total_pad_y := (pad_y * IZR (int_sub (bricks_rows g) 1))%R in
  let bw := fmax 5 ((area_w - total_pad_x) / IZR (bricks_cols g)) in
  let bh := fmax 8 ((area_h - total_pad_y) / IZR (bricks_rows g)) in
  let g := set_brick_size (mkVect bw bh) g in
  let g := set_bricks_origin (mkVect side_margin top_margin) g in
  let rows := Z.to_nat (bricks_rows g) in
  let cols := Z.to_nat (bricks_cols g) in
  set_bricks
    (flat_map
       (fun r =>
          map (fun c =>
                 build_brick (bricks_rows g) (bricks_origin g) bw bh pad_x pad_y
                             (Z.of_nat r) (Z.of_nat c) (r * cols + c)%nat)
              (seq 0 cols))
       (seq 0 rows)) g.

Definition reset (s : ArkanoidSettings.t) (g : ArkanoidImpl) : ArkanoidImpl :=
  let g := set_settings s g in
  let g := set_world_size (mkVect (vx (ArkanoidSettings.world_size s))
                                  (vy (ArkanoidSettings.world_size s))) g in
  let g := set_ball_radius (ArkanoidSettings.ball_radius s) g in
  let g := set_ball_speed_target
             (clampf (ArkanoidSettings.ball_speed s)
                     (ball_speed_min ext) (ball_speed_max ext)) g in
  let g := set_ball_speed_cur (ball_speed_target g) g in
  let cw := clampf (ArkanoidSettings.carriage_width s)
                   (carriage_width_min ext) (vx (world_size g) * 0.95) in
  let cy := (vy (world_size g) - 40)%R in
  let cx := ((vx (world_size g) - cw) * 0.5)%R in
  let g := set_carriage_world (make_rect_xywh cx cy cw (carriage_height g)) g in
  let carr_center := rect_center (carriage_world g) in
  let g := set_ball_pos
             (mkVect (vx carr_center)
                     (vy (pos (carriage_world g)) - ball_radius g - 1)) g in
  let g := set_ball_vel
             (vscale (mkVect 0.7071067 (-0.7071067)) (ball_speed_cur g)) g in
  let g := set_ball_launched true g in
  let g := set_state Playing g in
  let g := set_money_from_score_accumulator 0 g in
  let g := set_score 0 g in
  let g := set_balance 0 g in
  let g := set_lives 3 g in
  let g := set_combo_timer 0 g in
  let g := set_combo_mult 1 g in
  let g := set_pierce_mode false g in
  let g := set_pierce_timer 0 g in
  let g := set_slowmo_mode false g in
  let g := set_slowmo_timer 0 g in
  let g := set_trail_mode false g in
  let g := set_ball_trail [] g in
  let g := set_bonuses [] g in
  let g := set_particles [] g in
  let g := set_cheat_enlarge_paddle false g in
  let g := set_cheat_extra_life false g in
  let g := set_cheat_speed_lock false g in
  let g := set_cheat_invincible false g in
  let g := set_cheat_freeze_ball false g in
  let g := set_magnet_active false g in
  let g := set_magnet_timer 0 g in
  let g := set_score_mult_active false g in
  let g := set_score_mult_timer 0 g in
  let g := set_score_mult_value 1 g in
  let g := set_destroyed_bricks_count 0 g in
  let g := set_paused false g in
  build_level s g.

(** ** Paddle and ball *)

Definition clamp_carriage (g : ArkanoidImpl) : ArkanoidImpl :=
  let c := carriage_world g in
  set_carriage_world
    (mkRect (mkVect (clampf (vx (pos c)) 0 (vx (world_size g) - vx (size c)))
                    (vy (pos c)))
            (size c)) g.

Definition launch_ball_if_needed (g : ArkanoidImpl) : ArkanoidImpl := g.

Definition reflect_ball (n : Vect) (g : ArkanoidImpl) : ArkanoidImpl :=
  let v := ball_vel g in
  let dot := (vx v * vx n + vy v * vy n)%R in
  let reflected := vsub v (vscale n (2 * dot)) in
  let min_comp := (0.15 * ball_speed_cur g)%R in
  let '(rx, g) :=
    if fltb (Rabs (vx reflected)) min_comp then
      if feqb (vx reflected) 0 then
        let r := c_rand ext (rand_calls g) in
        ((sgn (IZR (int_sub (int_mul (int_rem r 2) 2) 1)) * min_comp)%R,
         set_rand_calls (S (rand_calls g)) g)
      else ((sgn (vx reflected) * min_comp)%R, g)
    else (vx reflected, g) in
  let ry :=
    if fltb (Rabs (vy reflected)) min_comp then
      (sgn (if feqb (vy reflected) 0 then (-1) else vy reflected) * min_comp)%R
    else vy reflected in
  set_ball_vel (mkVect rx ry) g.

(** [integrate_ball], in the order of its statements: the freeze cheat and
    the current speed; the re-normalisation of the velocity; the advance of
    the position; the side and top walls; the bottom. *)

Definition ball_speed_step (dt : R) (g : ArkanoidImpl) : ArkanoidImpl :=
  let g :=
    if cheat_freeze_ball g then
      let g := if fleb (freeze_timer g) 0 then set_freeze_timer 5 g else g in
      set_cheat_freeze_ball false g
    else g in
  if fltb 0 (freeze_timer g) then
    let g := set_freeze_timer (freeze_timer g - dt) g in
    set_ball_speed_cur (fmax (ball_min_speed g) (ball_speed_target g * 0.2)) g
  else set_ball_speed_cur (ball_speed_target g) g.

Definition ball_renormalize (g : ArkanoidImpl) : ArkanoidImpl :=
  let cur_len := Length (ball_vel g) in
  if fltb 1e-6 cur_len
  then set_ball_vel (vscale (ball_vel g) (ball_speed_cur g / cur_len)) g
  else g.

Definition ball_advance (dt : R) (g : ArkanoidImpl) : ArkanoidImpl :=
  set_ball_pos (vadd (ball_pos g) (vscale (ball_vel g) dt)) g.

Definition ball_walls (g : ArkanoidImpl) : ArkanoidImpl :=
  let g :=
    if fltb (vx (ball_pos g)) (ball_radius g) then
      let overshoot := (ball_radius g - vx (ball_pos g))%R in
      let g := set_ball_pos (mkVect (vx (ball_pos g) + overshoot * 2)
                                    (vy (ball_pos g))) g in
      reflect_ball (mkVect 1 0) g
    else if fltb (vx (world_size g) - ball_radius g) (vx (ball_pos g)) then
      let overshoot := (vx (ball_pos g) - (vx (world_size g) - ball_radius g))%R in
      let g := set_ball_pos (mkVect (vx (ball_pos g) - overshoot * 2)
                                    (vy (ball_pos g))) g in
      reflect_ball (mkVect (-1) 0) g
    else g in
  if fltb (vy (ball_pos g)) (ball_radius g) then
    let overshoot := (ball_radius g - vy (ball_pos g))%R in
    let g := set_ball_pos (mkVect (vx (ball_pos g))
                                  (vy (ball_pos g) + overshoot * 2)) g in
    reflect_ball (mkVect 0 1) g
  else g.

Definition ball_bottom (g : ArkanoidImpl) : ArkanoidImpl :=
  if fltb (vy (world_size g) + ball_radius g) (vy (ball_pos g)) then
    let g := if negb (cheat_invincible g)
             then set_lives (int_sub (lives g) 1) g else g in
    let g := set_combo_mult 1 g in
    let g := set_combo_timer 0 g in
    let g := set_pierce_mode false g in
    let g := set_pierce_timer 0 g in
    if lives g <=? 0 then set_state Lose g
    else
      let carr_center := rect_center (carriage_world g) in
      let g := set_ball_pos
                 (mkVect (vx carr_center)
                         (vy (pos (carriage_world g)) - ball_radius g - 1)) g in
      set_ball_vel
        (vscale (mkVect 0.7071067 (-0.7071067)) (ball_speed_target g)) g
  else g.

(** The ball as it stands when the bottom is tested. *)
Definition ball_moved (dt : R) (g : ArkanoidImpl) : ArkanoidImpl :=
  ball_walls (ball_advance dt (ball_renormalize (ball_speed_step dt g))).

Definition integrate_ball (dt : R) (g : ArkanoidImpl) : ArkanoidImpl :=
  ball_bottom (ball_moved dt g).

(** [collide_ball_with_rect]: [Some (normal, hit_pos)] when it returns
    [true] ([out_t] is always 0 and never read). *)
Definition collide_ball_with_rect (r : Rect) (g : ArkanoidImpl)
    : option (Vect * Vect) :=
  let cx := clampf (vx (ball_pos g)) (vx (pos r)) (vx (pos r) + vx (size r)) in
  let cy := clampf (vy (ball_pos g)) (vy (pos r)) (vy (pos r) + vy (size r)) in
  let closest := mkVect cx cy in
  let d := vsub (ball_pos g) closest in
  if fltb (ball_radius g * ball_radius g) (LengthSquared d) then None
  else
    let dxLeft := Rabs (vx (ball_pos g) + ball_radius g - vx (pos r)) in
    let dxRight :=
      Rabs (vx (pos r) + vx (size r) - (vx (ball_pos g) - ball_radius g)) in
    let dyTop := Rabs (vy (ball_pos g) + ball_radius g - vy (pos r)) in
    let dyBottom :=
      Rabs (vy (pos r) + vy (size r) - (vy (ball_pos g) - ball_radius g)) in
    let minPen := fmin (fmin (fmin dxLeft dxRight) dyTop) dyBottom in
    let out_normal :=
      if feqb minPen dxLeft then mkVect (-1) 0
      else if feqb minPen dxRight then mkVect 1 0
      else if feqb minPen dyTop then mkVect 0 (-1)
      else mkVect 0 1 in
    Some (out_normal, closest).

Definition bounce_from_carriage (r : Rect) (hit_pos_world : Vect)
    (g : ArkanoidImpl) : ArkanoidImpl :=
  let t := ((vx hit_pos_world - vx (pos r)) / fmax 1 (vx (size r)))%R in
  let angle := ((t - 0.5) * 1.2)%R in
  let dir := mkVect (sin angle) (- cos angle) in
  set_ball_vel (vscale dir (ball_speed_cur g)) g.

Definition add_debug_hit (hits : list Hit) (world_pos n : Vect)
    (g : ArkanoidImpl) : list Hit :=
  hits ++ [mkHit (mkVect (vx world_pos * vx (screen_scale g))
                         (vy world_pos * vy (screen_scale g))) n].

(** ** Particles *)

Definition spawn_particles (world_pos : Vect) (color count : Z)
    (g : ArkanoidImpl) : ArkanoidImpl :=
  let seed := to_uint32 (vx world_pos * 1000 + vy world_pos) in
  let particle (i : nat) : Particle.t :=
    let '(a, speed, raw, sz) := particle_draws ext seed i in
    {| Particle.pos := world_pos;
       Particle.vel := vscale (mkVect (cos a) (sin a)) speed;
       Particle.life := (0.6 + IZR (raw mod 100) * 0.002)%R;
       Particle.size := sz;
       Particle.color := color |} in
  set_particles (particles g ++ map particle (seq 0 (Z.to_nat count))) g.

(** One particle through the loop of [integrate_particles].  The lifetime
    is counted down in exact arithmetic where the source subtracts
    binary32 floats, so the call at which a lifetime reaches zero can
    differ from the program's by rounding; no property below depends on
    that call. *)
Definition particle_step (dt : R) (p : Particle.t) : Particle.t :=
  let pos := vadd (Particle.pos p) (vscale (Particle.vel p) dt) in
  let vel := mkVect (vx (Particle.vel p)) (vy (Particle.vel p) + 200 * dt) in
  let vel := vscale vel (1 - 2 * dt) in
  {| Particle.pos := pos;
     Particle.vel := vel;
     Particle.life := (Particle.life p - dt)%R;
     Particle.size := Particle.size p;
     Particle.color := Particle.color p |}.

Definition integrate_particles (dt : R) (g : ArkanoidImpl) : ArkanoidImpl :=
  set_particles
    (filter (fun p => negb (fleb (Particle.life p) 0))
            (map (particle_step dt) (particles g))) g.

(** ** Bonuses *)

Definition bonus_color (type : BonusType) : Z :=
  match type with
  | SpeedUp => IM_COL32 255 180 80 255
  | EnlargePaddle => IM_COL32 120 200 255 255
  | ExtraLife => IM_COL32 200 240 140 255
  | Pierce => IM_COL32 255 120 120 255
  | SlowMo => IM_COL32 180 140 255 255
  | Points => IM_COL32 255 220 120 255
  | Magnet => IM_COL32 160 255 200 255
  | ScoreMult => IM_COL32 255 160 220 255
  | NukeRow => IM_COL32 255 255 255 255
  end.

(** The [Bonus] that [spawn_bonus_at] builds. *)
Definition new_bonus (world_pos : Vect) (type : BonusType)
    (g : ArkanoidImpl) : Bonus.t :=
  let w := (vx (brick_size g) * 0.7)%R in
  let h := (vy (brick_size g) * 0.7)%R in
  {| Bonus.rect_world :=
       make_rect_xywh (vx world_pos - w * 0.5) (vy world_pos - h * 0.5) w h;
     Bonus.type := type;
     Bonus.vel := mkVect 0 80;
     Bonus.alive := true;
     Bonus.color := bonus_color type;
     Bonus.points := match type with Points => 50 | _ => 0 end;
     Bonus.glow := 0 |}.

Definition spawn_bonus_at (world_pos : Vect) (type : BonusType)
    (g : ArkanoidImpl) : ArkanoidImpl :=
  set_bonuses (bonuses g ++ [new_bonus world_pos type g]) g.

Definition apply_bonus (b : Bonus.t) (g : ArkanoidImpl) : ArkanoidImpl :=
  match Bonus.type b with
  | SpeedUp =>
      set_ball_speed_target
        (fmin (ball_speed_target g * 1.15 + 10) (ball_max_speed g)) g
  | EnlargePaddle =>
      let c := carriage_world g in
      let new_width := fmax (vx (size c) * 1.3) (vx (size c)) in
      let g := set_carriage_world
                 (mkRect (pos c)
                         (mkVect (clampf new_width (carriage_width_min ext)
                                         (vx (world_size g) * 0.95))
                                 (vy (size c)))) g in
      let g := set_cheat_enlarge_paddle false g in
      clamp_carriage g
  | ExtraLife => set_lives (int_add (lives g) 1) g
  | Pierce =>
      let g := set_pierce_mode true g in
      set_pierce_timer (pierce_duration g) g
  | SlowMo =>
      let g := set_slowmo_mode true g in
      let g := set_slowmo_timer 5 g in
      set_ball_speed_target (ball_speed_target g * 0.4) g
  | Points =>
      set_score (int_add (score g)
                         (int_mul (Bonus.points b) (score_mult_value g))) g
  | Magnet =>
      let g := set_magnet_active true g in
      set_magnet_timer (magnet_duration g) g
  | ScoreMult =>
      let g := set_score_mult_active true g in
      let g := set_score_mult_timer (score_mult_duration g) g in
      let r := c_rand ext (rand_calls g) in
      let g := set_rand_calls (S (rand_calls g)) g in
      set_score_mult_value (if int_rem r 2 =? 0 then 3 else 2) g
  | NukeRow => g
  end.

(** The body of the loop of [integrate_bonuses] for one bonus. *)
Definition bonus_step (dt : R) (b : Bonus.t) (g : ArkanoidImpl)
    : Bonus.t * ArkanoidImpl :=
  if negb (Bonus.alive b) then (b, g)
  else
    let b := Bonus.set_glow (Bonus.glow b + dt * 6) b in
    let b := if fltb 6.28 (Bonus.glow b)
             then Bonus.set_glow (Bonus.glow b - 6.28) b else b in
    let b :=
      if magnet_active g then
        let center := rect_center (carriage_world g) in
        let dir := vsub center (rect_center (Bonus.rect_world b)) in
        let dist := Length dir in
        if fltb 1e-4 dist then
          Bonus.set_vel
            (vadd (Bonus.vel b)
                  (vscale (vscale (Normalized dir)
                                  (magnet_strength g / (0.5 + dist * 0.02)))
                          dt)) b
        else b
      else Bonus.set_vel (mkVect (vx (Bonus.vel b)) 80) b in
    let b := Bonus.set_rect_world
               (mkRect (vadd (pos (Bonus.rect_world b)) (vscale (Bonus.vel b) dt))
                       (size (Bonus.rect_world b))) b in
    let br := Bonus.rect_world b in
    let c := carriage_world g in
    let '(b, g) :=
      if fleb (vx (pos c)) (vx (pos br) + vx (size br))
         && fleb (vx (pos br)) (vx (pos c) + vx (size c))
         && fleb (vy (pos c)) (vy (pos br) + vy (size br))
         && fleb (vy (pos br)) (vy (pos c) + vy (size c))
      then (Bonus.set_alive false b, apply_bonus b g)
      else (b, g) in
    let b := if fltb (vy (world_size g) + 20) (vy (pos (Bonus.rect_world b)))
             then Bonus.set_alive false b else b in
    (b, g).

Fixpoint bonuses_loop (dt : R) (bs : list Bonus.t) (g : ArkanoidImpl)
    : list Bonus.t * ArkanoidImpl :=
  match bs with
  | [] => ([], g)
  | b :: rest =>
      let '(b', g) := bonus_step dt b g in
      let '(rest', g) := bonuses_loop dt rest g in
      (b' :: rest', g)
  end.

Definition integrate_bonuses (dt : R) (g : ArkanoidImpl) : ArkanoidImpl :=
  let '(bs, g) := bonuses_loop dt (bonuses g) g in
  set_bonuses (filter Bonus.alive bs) g.

(** ** Collision handling *)

(** The colour of a damaged brick, from its base colour and the
    hit-points it has left. *)
Definition damage_color (b : Brick.t) : Z :=
  let r := col_channel (Brick.base_color b) IM_COL32_R_SHIFT in
  let g := col_channel (Brick.base_color b) IM_COL32_G_SHIFT in
  let bl := col_channel (Brick.base_color b) IM_COL32_B_SHIFT in
  if Brick.hit_points b =? 2 then
    IM_COL32 (imin 255 (int_add r 30)) (imax 60 (int_sub g 20))
             (imax 30 (int_sub bl 60)) 255
  else if Brick.hit_points b =? 1 then
    IM_COL32 (imin 255 (int_add r 60)) (imax 40 (int_sub g 40))
             (imax 20 (int_sub bl 100)) 255
  else IM_COL32 r g bl 255.

(** The type the [switch] of the brick loop spawns for a draw; a draw
    outside 0..6 spawns nothing. *)
Definition bonus_of_choice (choice : Z) : option BonusType :=
  match choice with
  | 0 => Some SpeedUp
  | 1 => Some EnlargePaddle
  | 2 => Some ExtraLife
  | 3 => Some Pierce
  | 4 => Some Points
  | 5 => Some Magnet
  | 6 => Some ScoreMult
  | _ => None
  end.

(** The seed [(uint32_t)(center.x * 1000 + center.y)]. *)
Definition position_seed (center : Vect) : Z :=
  to_uint32 (vx center * 1000 + vy center).

(** The speed-up that follows every [bricks_to_speedup]-th destruction. *)
Definition speedup_if_due (g : ArkanoidImpl) : ArkanoidImpl :=
  if int_rem (destroyed_bricks_count g) (bricks_to_speedup g) =? 0 then
    set_ball_speed_target
      (clampf (ball_speed_target g * speedup_factor g)
              (ball_min_speed g) (ball_max_speed g)) g
  else g.

(** The body of the brick loop of [handle_collisions] once
    [collide_ball_with_rect] has returned [true] with normal [n] and hit
    position [hit_pos] for the brick [b]. *)
Definition brick_hit (n hit_pos : Vect) (b : Brick.t) (g : ArkanoidImpl)
    (hits : list Hit) : Brick.t * ArkanoidImpl * list Hit :=
  let g := if negb (pierce_mode g) then reflect_ball n g else g in
  if Brick.hit_points b >? 1 then
    let b := Brick.set_hit_points (int_sub (Brick.hit_points b) 1) b in
    let g := set_score
               (int_add (score g)
                        (int_mul (int_div (Brick.score b) 3)
                                 (score_mult_value g))) g in
    let b := Brick.set_color (damage_color b) b in
    let g := spawn_particles (rect_center (Brick.rect_world b))
                             (Brick.color b) 6 g in
    let g := set_combo_mult (imin 9 (int_add (combo_mult g) 1)) g in
    let g := set_combo_timer (combo_window g) g in
    let hits := add_debug_hit hits hit_pos n g in
    (b, g, hits)
  else
    let b := Brick.set_alive false b in
    let g := set_score
               (int_add (score g)
                        (int_mul (int_mul (Brick.score b) (combo_mult g))
                                 (score_mult_value g))) g in
    let g := set_combo_mult (imin 9 (int_add (combo_mult g) 1)) g in
    let g := set_combo_timer (combo_window g) g in
    let g := spawn_particles (rect_center (Brick.rect_world b))
                             (Brick.color b) 14 g in
    let g :=
      if Brick.bonus b then
        let center := rect_center (Brick.rect_world b) in
        let choice := mt_uniform_int ext (position_seed center) 0 6 in
        match bonus_of_choice choice with
        | Some type => spawn_bonus_at center type g
        | None => g
        end
      else g in
    let hits := add_debug_hit hits hit_pos n g in
    let g := set_destroyed_bricks_count
               (int_add (destroyed_bricks_count g) 1) g in
    let g := speedup_if_due g in
    (b, g, hits).

(** The brick loop: dead bricks are skipped, and the scan stops after the
    first hit unless pierce mode is on. *)
Fixpoint bricks_loop (bs : list Brick.t) (g : ArkanoidImpl) (hits : list Hit)
    : list Brick.t * ArkanoidImpl * list Hit :=
  match bs with
  | [] => ([], g, hits)
  | b :: rest =>
      if negb (Brick.alive b) then
        let '(rest', g', hits') := bricks_loop rest g hits in
        (b :: rest', g', hits')
      else
        match collide_ball_with_rect (Brick.rect_world b) g with
        | Some (n, hit_pos) =>
            let '(b', g', hits') := brick_hit n hit_pos b g hits in
            if negb (pierce_mode g') then (b' :: rest, g', hits')
            else
              let '(rest', g'', hits'') := bricks_loop rest g' hits' in
              (b' :: rest', g'', hits'')
        | None =>
            let '(rest', g', hits') := bricks_loop rest g hits in
            (b :: rest', g', hits')
        end
  end.

Definition handle_collisions (hits : list Hit) (g : ArkanoidImpl)
    : ArkanoidImpl * list Hit :=
  let '(g, hits) :=
    match collide_ball_with_rect (carriage_world g) g with
    | Some (_, hit_pos) =>
        let g := set_ball_pos
                   (mkVect (vx (ball_pos g))
                           (vy (pos (carriage_world g)) - ball_radius g - 0.5)) g in
        let g := bounce_from_carriage (carriage_world g) hit_pos g in
        (g, add_debug_hit hits hit_pos (mkVect 0 (-1)) g)
    | None => (g, hits)
    end in
  let '(bs, g, hits) := bricks_loop (bricks g) g hits in
  (set_bricks bs g, hits).

(** ** Controls and cheats *)

(** The body of the nuke-row loop for one brick. *)
Definition nuke_brick (b : Brick.t) (g : ArkanoidImpl) : Brick.t * ArkanoidImpl :=
  if negb (Brick.alive b) then (b, g)
  else
    let r := Brick.rect_world b in
    if fleb (vy (pos r)) (vy (ball_pos g))
       && fleb (vy (ball_pos g)) (vy (pos r) + vy (size r))
    then
      let b := Brick.set_alive false b in
      let g := set_score
                 (int_add (score g)
                          (int_mul (Brick.score b) (score_mult_value g))) g in
      let g := set_destroyed_bricks_count
                 (int_add (destroyed_bricks_count g) 1) g in
      (b, speedup_if_due g)
    else (b, g).

Fixpoint nuke_loop (bs : list Brick.t) (g : ArkanoidImpl)
    : list Brick.t * ArkanoidImpl :=
  match bs with
  | [] => ([], g)
  | b :: rest =>
      let '(b', g) := nuke_brick b g in
      let '(rest', g) := nuke_loop rest g in
      (b' :: rest', g)
  end.

Definition string_empty (s : string) : bool :=
  match s with EmptyString => true | String _ _ => false end.

(** [if (io.KeysDown[key] && try_purchase(cost)) effect]. *)
Definition buy_on_key (io : ImGuiIO) (key cost : Z)
    (effect : ArkanoidImpl -> ArkanoidImpl) (g : ArkanoidImpl) : ArkanoidImpl :=
  if KeysDown io key then
    let '(ok, g) := try_purchase cost g in
    if ok then effect g else g
  else g.

(** Paddle movement and width: the first block of
    [handle_cheats_and_controls]. *)
Definition move_carriage (io : ImGuiIO) (dt : R) (g : ArkanoidImpl) : ArkanoidImpl :=
  let dx := ((if KeysDown io GLFW_KEY_D then 1 else 0)
             - (if KeysDown io GLFW_KEY_A then 1 else 0))%R in
  let c := carriage_world g in
  let x := (vx (pos c) + dx * carriage_speed g * dt)%R in
  let w :=
    if cheat_enlarge_paddle g then
      clampf (ArkanoidSettings.carriage_width (settings g) * 1.6)
             (carriage_width_min ext) (vx (world_size g) * 0.95)
    else fmax 20 (vx (size c)) in
  let g := set_carriage_world
             (mkRect (mkVect x (vy (pos c))) (mkVect w (carriage_height g))) g in
  clamp_carriage g.

(** The blocks of [handle_cheats_and_controls] that follow the paddle
    movement, one definition per commented block of the source. *)

Definition speed_pierce_hotkeys (io : ImGuiIO) (g : ArkanoidImpl) : ArkanoidImpl :=
  let g := if KeysDown io GLFW_KEY_1
           then set_ball_speed_target
                  (fmax (0.5 * ball_speed_target g) (ball_min_speed g)) g
           else g in
  let g := if KeysDown io GLFW_KEY_2
           then set_ball_speed_target (ArkanoidSettings.ball_speed (settings g)) g
           else g in
  let g := if KeysDown io GLFW_KEY_3
           then set_ball_speed_target
                  (fmin (1.5 * ball_speed_target g) (ball_max_speed g)) g
           else g in
  if KeysDown io GLFW_KEY_C
  then set_pierce_timer (pierce_duration g) (set_pierce_mode true g)
  else g.

Definition shop_hotkeys (io : ImGuiIO) (g : ArkanoidImpl) : ArkanoidImpl :=
  let g := buy_on_key io GLFW_KEY_X 10
             (fun g => set_magnet_timer (magnet_duration g)
                         (set_magnet_active true g)) g in
  let g := buy_on_key io GLFW_KEY_T 15
             (fun g => set_score_mult_value 3
                         (set_score_mult_timer (score_mult_duration g)
                            (set_score_mult_active true g))) g in
  let g := buy_on_key io GLFW_KEY_Q 10 (set_cheat_freeze_ball true) g in
  let g := buy_on_key io GLFW_KEY_Y 60
             (fun g => set_shop_message_timer (shop_message_duration g)
                         (set_cheat_invincible true g)) g in
  buy_on_key io GLFW_KEY_E 20 (fun g => set_lives (int_add (lives g) 1) g) g.

Definition nuke_row (io : ImGuiIO) (g : ArkanoidImpl) : ArkanoidImpl :=
  if KeysDown io GLFW_KEY_N then
    let '(bs, g) := nuke_loop (bricks g) g in set_bricks bs g
  else g.

Definition one_shot_cheats (g : ArkanoidImpl) : ArkanoidImpl :=
  let g := if cheat_extra_life g
           then set_cheat_extra_life false (set_lives (int_add (lives g) 1) g)
           else g in
  if cheat_speed_lock g then set_ball_speed_target (ball_speed_cur g) g else g.

Definition buff_timers (dt : R) (g : ArkanoidImpl) : ArkanoidImpl :=
  let g := if magnet_active g then
             let g := set_magnet_timer (magnet_timer g - dt) g in
             if fleb (magnet_timer g) 0
             then set_magnet_timer 0 (set_magnet_active false g) else g
           else g in
  if score_mult_active g then
    let g := set_score_mult_timer (score_mult_timer g - dt) g in
    if fleb (score_mult_timer g) 0
    then set_score_mult_timer 0
           (set_score_mult_value 1 (set_score_mult_active false g))
    else g
  else g.

Definition speed_interpolation (dt : R) (g : ArkanoidImpl) : ArkanoidImpl :=
  let accel := 800%R in
  if fltb (ball_speed_cur g) (ball_speed_target g)
  then set_ball_speed_cur
         (fmin (ball_speed_target g) (ball_speed_cur g + accel * dt)) g
  else if fltb (ball_speed_target g) (ball_speed_cur g)
  then set_ball_speed_cur
         (fmax (ball_speed_target g) (ball_speed_cur g - accel * dt)) g
  else g.

Definition pierce_combo_timers (dt : R) (g : ArkanoidImpl) : ArkanoidImpl :=
  let g := if pierce_mode g then
             let g := set_pierce_timer (pierce_timer g - dt) g in
             if fleb (pierce_timer g) 0
             then set_pierce_timer 0 (set_pierce_mode false g) else g
           else g in
  if fltb 0 (combo_timer g) then
    let g := set_combo_timer (combo_timer g - dt) g in
    if fleb (combo_timer g) 0
    then set_combo_timer 0 (set_combo_mult 1 g) else g
  else g.

Definition trail_step (g : ArkanoidImpl) : ArkanoidImpl :=
  if trail_mode g then
    let g := set_ball_trail (ball_trail g ++ [ball_pos g]) g in
    if (16 <? List.length (ball_trail g))%nat
    then set_ball_trail (tl (ball_trail g)) g else g
  else if negb (match ball_trail g with [] => true | _ => false end)
  then set_ball_trail [] g
  else g.

Definition shop_message_step (dt : R) (g : ArkanoidImpl) : ArkanoidImpl :=
  if negb (string_empty (shop_message g)) then
    let g := set_shop_message_timer (shop_message_timer g - dt) g in
    if fleb (shop_message_timer g) 0 then set_shop_message "" g else g
  else g.

Definition handle_cheats_and_controls (io : ImGuiIO) (dt : R)
    (g : ArkanoidImpl) : ArkanoidImpl :=
  let g := move_carriage io dt g in
  let g := speed_pierce_hotkeys io g in
  let g := shop_hotkeys io g in
  let g := nuke_row io g in
  let g := one_shot_cheats g in
  let g := buff_timers dt g in
  let g := speed_interpolation dt g in
  let g := pierce_combo_timers dt g in
  let g := trail_step g in
  shop_message_step dt g.

(** ** The frame update *)

Definition world_to_screen_scale (io : ImGuiIO) (g : ArkanoidImpl) : Vect :=
  mkVect (vx (DisplaySize io) / vx (world_size g))
         (vy (DisplaySize io) / vy (world_size g)).

(** The slow-motion block at the head of [update]: the frame's [dt] and
    the state after the slow-motion timer has run. *)
Definition slowmo_step (elapsed : R) (g : ArkanoidImpl) : R * ArkanoidImpl :=
  if slowmo_mode g then
    let dt := (elapsed * slowmo_factor g)%R in
    let g := set_slowmo_timer (slowmo_timer g - elapsed) g in
    let g := if fleb (slowmo_timer g) 0
             then set_slowmo_mode false (set_slowmo_timer 0 g) else g in
    (dt, g)
  else (elapsed, g).

(** [update]: the state after the call and the hits left in [debug_data]. *)
Definition update (io : ImGuiIO) (elapsed : R) (g : ArkanoidImpl)
    : ArkanoidImpl * list Hit :=
  let g := set_screen_scale (world_to_screen_scale io g) g in
  let hits : list Hit := [] in
  let '(dt, g) := slowmo_step elapsed g in
  if negb (GameState_eqb (state g) Playing) then
    (if KeysDown io GLFW_KEY_R then reset (settings g) g else g, hits)
  else
    let g := grant_money_from_score g in
    let g := handle_cheats_and_controls io dt g in
    if paused g then (g, hits)
    else
      let g := launch_ball_if_needed g in
      let g := integrate_ball dt g in
      let g := integrate_bonuses dt g in
      let g := integrate_particles dt g in
      let '(g, hits) := handle_collisions hits g in
      let any_alive := existsb Brick.alive (bricks g) in
      (if negb any_alive then set_state Win g else g, hits).

End Simulation.

(** * Properties *)

(** ** Vocabulary of the properties *)

(** A confirmation, respectively a rejection, is queued: the message is
    set and its display timer is armed with the full duration. *)
Definition confirmation_queued (cost : Z) (g : ArkanoidImpl) : Prop :=
  shop_message g = ("Purchased for $" ++ to_string cost ++ "!")%string
  /\ shop_message_timer g = shop_message_duration g.

Definition rejection_queued (g : ArkanoidImpl) : Prop :=
  shop_message g = "Not enough $"%string
  /\ shop_message_timer g = shop_message_duration g.

(** The purchase contract with a rejection message on every failure. *)
Definition purchase_rejects_every_failure (cost : Z) (g : ArkanoidImpl) : Prop :=
  let ok := fst (try_purchase cost g) in
  let g' := snd (try_purchase cost g) in
  (ok = true <-> 0 < cost /\ cost <= balance g)
  /\ (ok = true -> balance g' = balance g - cost /\ confirmation_queued cost g')
  /\ (ok = false -> balance g' = balance g /\ rejection_queued g').

(** The spendable balance never exceeds the lifetime total. *)
Definition economy_inv (g : ArkanoidImpl) : Prop :=
  0 <= balance g <= total_money g.

(** Settings and externals used for the concrete instances below. *)
Definition demo_settings : ArkanoidSettings.t :=
  {| ArkanoidSettings.world_size := mkVect 800 600;
     ArkanoidSettings.ball_radius := 10;
     ArkanoidSettings.ball_speed := 150;
     ArkanoidSettings.carriage_width := 100;
     ArkanoidSettings.bricks_columns_count := 10;
     ArkanoidSettings.bricks_rows_count := 5;
     ArkanoidSettings.bricks_columns_padding := 5;
     ArkanoidSettings.bricks_rows_padding := 5 |}.

Definition demo_extern : Extern :=
  {| ball_speed_min := 60;
     ball_speed_max := 1000;
     carriage_width_min := 40;
     bricks_columns_min := 1;
     bricks_columns_max := 30;
     bricks_rows_min := 1;
     bricks_rows_max := 20;
     bricks_columns_padding_min := 0;
     bricks_columns_padding_max := 20;
     bricks_rows_padding_min := 0;
     bricks_rows_padding_max := 20;
     c_rand := fun n => Z.of_nat n;
     mt_uniform_int := fun seed lo hi => lo + seed mod (hi - lo + 1);
     level_unif := fun _ => 0.5%R;
     level_hp := fun k => Z.of_nat k mod 100;
     particle_draws := fun _ _ => (0%R, 100%R, 0, 2%R) |}.

Definition demo_game : ArkanoidImpl := fresh_instance demo_settings.

(** The types a destroyed bonus brick can drop, and the one it drops at a
    given centre. *)
Definition droppable_types : list BonusType :=
  [SpeedUp; EnlargePaddle; ExtraLife; Pierce; Points; Magnet; ScoreMult].

Definition drop_type (ext : Extern) (center : Vect) : option BonusType :=
  bonus_of_choice (mt_uniform_int ext (position_seed center) 0 6).

(** The four outward normals of an axis-aligned rectangle. *)
Definition axis_normal (n : Vect) : Prop :=
  n = mkVect 1 0 \/ n = mkVect (-1) 0 \/ n = mkVect 0 1 \/ n = mkVect 0 (-1).

(** A two-hit brick worth 18 points, and a one-hit bonus brick. *)
Definition demo_brick : Brick.t :=
  {| Brick.rect_world := make_rect_xywh 20 40 70 40;
     Brick.alive := true;
     Brick.score := 18;
     Brick.bonus := false;
     Brick.color := IM_COL32 140 180 230 255;
     Brick.hit_points := 2;
     Brick.base_color := IM_COL32 140 180 230 255 |}.

Definition demo_bonus_brick : Brick.t :=
  {| Brick.rect_world := make_rect_xywh 20 40 70 40;
     Brick.alive := true;
     Brick.score := 18;
     Brick.bonus := true;
     Brick.color := IM_COL32 255 200 80 255;
     Brick.hit_points := 1;
     Brick.base_color := IM_COL32 255 200 80 255 |}.

(** The ball one unit below the line where it is lost, at rest, with one
    life left. *)
Definition demo_lost_ball : ArkanoidImpl :=
  set_lives 1 (set_ball_pos (mkVect 400 611) demo_game).

(** Both components of the velocity are at least the floor of
    [reflect_ball], 0.15 times the current speed, in magnitude. *)
Definition floored (g : ArkanoidImpl) : Prop :=
  (0.15 * ball_speed_cur g <= Rabs (vx (ball_vel g)))%R
  /\ (0.15 * ball_speed_cur g <= Rabs (vy (ball_vel g)))%R.

(** The squared magnitude of the velocity lies between the squared
    current speed and that plus the squared floor. *)
Definition speed_band (g : ArkanoidImpl) : Prop :=
  (ball_speed_cur g * ball_speed_cur g <= LengthSquared (ball_vel g)
   <= (1 + 0.15 * 0.15) * (ball_speed_cur g * ball_speed_cur g))%R.

(** The ball as it stands when the walls are tested, and whether one of
    the three walls is hit then. *)
Definition ball_advanced (dt : R) (g : ArkanoidImpl) : ArkanoidImpl :=
  ball_advance dt (ball_renormalize (ball_speed_step dt g)).

Definition wall_hit (g : ArkanoidImpl) : bool :=
  fltb (vx (ball_pos g)) (ball_radius g)
  || fltb (vx (world_size g) - ball_radius g) (vx (ball_pos g))
  || fltb (vy (ball_pos g)) (ball_radius g).

(** The velocity has exactly the current speed, or it has been through the
    floor of [reflect_ball] and is within the band. *)
Definition speed_ok (g : ArkanoidImpl) : Prop :=
  LengthSquared (ball_vel g) = (ball_speed_cur g * ball_speed_cur g)%R
  \/ (floored g /\ speed_band g).

(** The ball in mid-air, flying straight up at speed 100. *)
Definition demo_flying_ball : ArkanoidImpl :=
  set_ball_vel (mkVect 0 (-100)) (set_ball_pos (mkVect 400 300) demo_game).

(** The part of the state that the rules of a frame are played on: the
    settings, the world, the game state and the pause flag; with the
    paddle, the stage. *)
Definition rules (g : ArkanoidImpl) : ArkanoidSettings.t * Vect * GameState * bool :=
  (settings g, world_size g, state g, paused g).

Definition stage (g : ArkanoidImpl)
    : ArkanoidSettings.t * Vect * GameState * bool * Rect :=
  (rules g, carriage_world g).

(** The paddle lies within the world horizontally. *)
Definition paddle_in_world (g : ArkanoidImpl) : Prop :=
  (0 <= vx (pos (carriage_world g))
   <= vx (world_size g) - vx (size (carriage_world g)))%R.

(** A world wide enough for the narrowest paddles the code allows: the
    fixed minimum 20 and the configured minimum. *)
Definition world_fits (ext : Extern) (w : R) : Prop :=
  (20 <= w)%R /\ (carriage_width_min ext <= w)%R.

Definition paddle_inv (ext : Extern) (g : ArkanoidImpl) : Prop :=
  paddle_in_world g
  /\ world_fits ext (vx (world_size g))
  /\ world_fits ext (vx (ArkanoidSettings.world_size (settings g))).

(** A run of frames, each an input snapshot and an elapsed time. *)
Definition run_frames (ext : Extern) (frames : list (ImGuiIO * R))
    (g : ArkanoidImpl) : ArkanoidImpl :=
  fold_left (fun g f => fst (update ext (fst f) (snd f) g)) frames g.

(** No key is down. *)
Definition no_keys : ImGuiIO :=
  {| DisplaySize := mkVect 800 600; KeysDown := fun _ => false |}.

(** The frame's [dt] and the state of a frame once the controls have been
    handled, that is, as [update] hands it to the integration of the ball. *)
Definition after_controls (ext : Extern) (io : ImGuiIO) (elapsed : R)
    (g : ArkanoidImpl) : R * ArkanoidImpl :=
  let g := set_screen_scale (world_to_screen_scale io g) g in
  let '(dt, g) := slowmo_step elapsed g in
  (dt, handle_cheats_and_controls ext io dt (grant_money_from_score g)).


(** A point lies in a rectangle (borders included). *)
Definition in_rect (p : Vect) (r : Rect) : Prop :=
  (vx (pos r) <= vx p <= vx (pos r) + vx (size r))%R
  /\ (vy (pos r) <= vy p <= vy (pos r) + vy (size r))%R.

(** What moves on the playfield: the ball, the falling bonuses and the
    particles. *)
Definition playfield (g : ArkanoidImpl)
    : Vect * Vect * list Bonus.t * list Particle.t :=
  (ball_pos g, ball_vel g, bonuses g, particles g).

(** A brick and what a frame can have made of it: the same brick, not
    revived, with no more hit-points than before. *)
Definition brick_worn (b b' : Brick.t) : Prop :=
  Brick.rect_world b' = Brick.rect_world b
  /\ Brick.score b' = Brick.score b
  /\ Brick.bonus b' = Brick.bonus b
  /\ Brick.base_color b' = Brick.base_color b
  /\ (Brick.alive b' = true -> Brick.alive b = true)
  /\ Brick.hit_points b' <= Brick.hit_points b
  /\ int_range (Brick.hit_points b').
(** The score multipliers: the combo, and the value and the flag of the
    score-multiplier buff. *)
Definition multipliers (g : ArkanoidImpl) : Z * Z * bool :=
  (combo_mult g, score_mult_value g, score_mult_active g).

(** The combo is between 1 and 9, the buff's value between 1 and 3, and
    the value is 1 when the buff is not active. *)
Definition multipliers_ok (g : ArkanoidImpl) : Prop :=
  1 <= combo_mult g <= 9
  /\ 1 <= score_mult_value g <= 3
  /\ (score_mult_active g = false -> score_mult_value g = 1).

(** What a step has spent: the lifetime total is as it was, and the
    balance has gone down by at most [k], never below zero from a
    non-negative balance, and stays an [int]. *)
Definition spent_at_most (k : Z) (g g' : ArkanoidImpl) : Prop :=
  total_money g' = total_money g
  /\ balance g - k <= balance g' <= balance g
  /\ (0 <= balance g -> 0 <= balance g')
  /\ int_range (balance g').

(** The purse: the balance and the lifetime total. *)
Definition purse (g : ArkanoidImpl) : Z * Z := (balance g, total_money g).

(** A game with 250 points not yet converted. *)
Definition demo_scored_game : ArkanoidImpl := set_score 250 demo_game.

(** A colour channel is a byte. *)
Definition is_byte (z : Z) : Prop := 0 <= z <= 255.

(** The ball's centre is level with a brick: its height is within the
    brick's vertical extent (borders included). *)
Definition level_with (y : R) (b : Brick.t) : Prop :=
  (vy (pos (Brick.rect_world b)) <= y
   <= vy (pos (Brick.rect_world b)) + vy (size (Brick.rect_world b)))%R.

(** Only the nuke-row key is down. *)
Definition nuke_key : ImGuiIO :=
  {| DisplaySize := mkVect 800 600;
     KeysDown := fun k => k =? GLFW_KEY_N |}.

(** The trail behind the ball holds at most 16 points. *)
Definition trail_bounded (g : ArkanoidImpl) : Prop :=
  (List.length (ball_trail g) <= 16)%nat.

(** The lives a frame can add at most: one for the E key (a purchase),
    one for the extra-life cheat flag, one for each bonus in flight. *)
Definition lives_on_offer (io : ImGuiIO) (g : ArkanoidImpl) : Z :=
  (if KeysDown io GLFW_KEY_E then 1 else 0)
  + (if cheat_extra_life g then 1 else 0)
  + Z.of_nat (List.length (bonuses g)).

(** The ball resting on the paddle: its centre is over the paddle's
    centre, one pixel into its top edge. *)
Definition demo_ball_on_paddle : ArkanoidImpl :=
  set_ball_vel (mkVect 0 100) (set_ball_pos (mkVect 50 (-9)) demo_game).

(** ** The cheat-shop panel

    [draw_cheats_panel] as far as the game state goes.  What the ImGui
    calls report is an input: whether [BeginPopup] shows the popup, and
    for each button label whether [Button] reports a click. *)
Record CheatsPanelUI : Type := mkCheatsPanelUI {
  popup_shown : bool;
  button_clicked : string -> bool
}.

(** The lambda [try_buy] of the panel. *)
Definition try_buy (ui : CheatsPanelUI) (cost : Z)
    (effect : ArkanoidImpl -> ArkanoidImpl) (msg : string)
    (g : ArkanoidImpl) : ArkanoidImpl :=
  if button_clicked ui msg then
    let '(ok, g) := try_purchase cost g in
    if ok then effect g else g
  else g.

Definition draw_cheats_panel (ext : Extern) (ui : CheatsPanelUI)
    (g : ArkanoidImpl) : ArkanoidImpl :=
  if popup_shown ui then
    let g := try_buy ui 10
               (fun g =>
                  let g := set_cheat_freeze_ball true g in
                  let g := set_shop_message "Purchased Freeze Ball!" g in
                  set_shop_message_timer (shop_message_duration g) g)
               "Buy Freeze (Q) - $10" g in
    let g := try_buy ui 20
               (fun g =>
                  let g := set_lives (int_add (lives g) 1) g in
                  let g := set_shop_message "Purchased +1 Life!" g in
                  set_shop_message_timer (shop_message_duration g) g)
               "Buy +1 Life (E) - $20" g in
    let g := try_buy ui 10
               (fun g =>
                  let g := set_magnet_active true g in
                  let g := set_magnet_timer (magnet_duration g) g in
                  let g := set_shop_message "Purchased Magnet!" g in
                  set_shop_message_timer (shop_message_duration g) g)
               "Buy Magnet (X) - $10" g in
    let g := try_buy ui 15
               (fun g =>
                  let g := set_score_mult_active true g in
                  let g := set_score_mult_timer (score_mult_duration g) g in
                  let r := c_rand ext (rand_calls g) in
                  let g := set_rand_calls (S (rand_calls g)) g in
                  let g := set_score_mult_value
                             (if int_rem r 2 =? 0 then 3 else 2) g in
                  let g := set_shop_message "Purchased Score Multiplier!" g in
                  set_shop_message_timer (shop_message_duration g) g)
               "Buy Multiplier (T) - $15" g in
    try_buy ui 60
      (fun g =>
         let g := set_cheat_invincible true g in
         let g := set_shop_message "Purchased Invincibility!" g in
         set_shop_message_timer (shop_message_duration g) g)
      "Buy Invincibility (Y) - $60" g
  else g.

(** The popup is shown and every button in it is clicked. *)
Definition click_everything : CheatsPanelUI :=
  {| popup_shown := true; button_clicked := fun _ => true |}.

(** The ball just under [demo_brick], five units below its bottom edge
    and so touching it. *)
Definition demo_ball_at_brick : ArkanoidImpl :=
  set_ball_vel (mkVect 0 (-100)) (set_ball_pos (mkVect 50 85) demo_game).


(** * Theorems *)

(** ** Machine integers *)

Lemma wrap_id (z : Z) : int_range z -> wrap z = z.
Proof.
  unfold int_range, INT_MIN, INT_MAX, wrap. intros H.
  rewrite Z.mod_small; lia.
Qed.

Lemma int_range_wrap (z : Z) : int_range (wrap z).
Proof.
  unfold int_range, INT_MIN, INT_MAX, wrap.
  pose proof (Z.mod_pos_bound (z + 2147483648) 4294967296). lia.
Qed.

(** ** Purchases *)

Lemma try_purchase_ok_iff (cost : Z) (g : ArkanoidImpl) :
  fst (try_purchase cost g) = true <-> 0 < cost /\ cost <= balance g.
Proof.
  unfold try_purchase.
  destruct (cost <=? 0) eqn:Hc; [apply Z.leb_le in Hc | apply Z.leb_gt in Hc].
  - cbn. split; [discriminate | lia].
  - destruct (balance g >=? cost) eqn:Hb; cbn.
    + apply Z.geb_le in Hb. split; [lia | reflexivity].
    + rewrite Z.geb_leb in Hb. apply Z.leb_gt in Hb. split; [discriminate | lia].
Qed.

(** C1, as stated, fails: a purchase at cost 0 returns [false] and queues
    nothing, so no rejection message is set. *)
Lemma purchase_nonpositive_cost_is_silent :
  ~ purchase_rejects_every_failure 0 demo_game.
Proof.
  unfold purchase_rejects_every_failure. intros (_ & _ & H).
  destruct (H eq_refl) as (_ & Hmsg & _). cbn in Hmsg. discriminate.
Qed.

(** C1 (amended): a purchase returns [true] iff [cost > 0] and
    [balance >= cost]; on success the balance is debited by exactly
    [cost] and a confirmation is queued; on a failure with a positive
    cost the balance is unchanged and a rejection is queued; on a
    non-positive cost the call returns [false] and changes nothing. *)
Theorem try_purchase_spec (cost : Z) (g : ArkanoidImpl) :
  int_range (balance g) ->
  let ok := fst (try_purchase cost g) in
  let g' := snd (try_purchase cost g) in
  (ok = true <-> 0 < cost /\ cost <= balance g)
  /\ (ok = true -> balance g' = balance g - cost /\ confirmation_queued cost g')
  /\ (ok = false -> 0 < cost -> balance g' = balance g /\ rejection_queued g')
  /\ (cost <= 0 -> ok = false /\ g' = g).
Proof.
  intros Hr ok g'. split; [apply try_purchase_ok_iff|].
  subst ok g'. unfold try_purchase.
  destruct (cost <=? 0) eqn:Hc; [apply Z.leb_le in Hc | apply Z.leb_gt in Hc].
  - cbn. repeat split; try discriminate; lia.
  - destruct (balance g >=? cost) eqn:Hb; cbn.
    + apply Z.geb_le in Hb. repeat split; try discriminate; try lia.
      unfold int_sub. apply wrap_id.
      unfold int_range, INT_MIN, INT_MAX in *. lia.
    + repeat split; try discriminate; lia.
Qed.

Lemma try_purchase_spec_witness :
  int_range (balance (set_balance 20 demo_game))
  /\ fst (try_purchase 10 (set_balance 20 demo_game)) = true
  /\ balance (snd (try_purchase 10 (set_balance 20 demo_game))) = 10
  /\ shop_message (snd (try_purchase 10 (set_balance 20 demo_game)))
     = "Purchased for $10!"%string.
Proof.
  assert (Hr : int_range (balance (set_balance 20 demo_game)))
    by (unfold int_range, INT_MIN, INT_MAX; cbn; lia).
  destruct (try_purchase_spec 10 (set_balance 20 demo_game) Hr)
    as (Hok & Hyes & _).
  assert (Ht : fst (try_purchase 10 (set_balance 20 demo_game)) = true)
    by (apply Hok; cbn; lia).
  destruct (Hyes Ht) as (Hb & Hm & _).
  split; [exact Hr|]. split; [exact Ht|]. split; [exact Hb | exact Hm].
Defined.

(** The second purchase scenario: balance 5, cost 10. *)
Example try_purchase_insufficient :
  fst (try_purchase 10 (set_balance 5 demo_game)) = false
  /\ balance (snd (try_purchase 10 (set_balance 5 demo_game))) = 5
  /\ rejection_queued (snd (try_purchase 10 (set_balance 5 demo_game))).
Proof. repeat split. Qed.

(** ** Score to currency *)

(** The conversion mark of a reachable state is never negative: [reset]
    sets it to 0 and the conversion only moves it up to the score. *)
Lemma conversion_mark_nonneg (g : ArkanoidImpl) :
  0 <= money_from_score_accumulator g ->
  score g <= INT_MAX ->
  0 < score_per_dollar g ->
  0 <= money_from_score_accumulator (grant_money_from_score g).
Proof.
  intros Hacc Hmax Hspd. unfold grant_money_from_score.
  destruct (money_from_score_accumulator g <? 0) eqn:E0;
    [apply Z.ltb_lt in E0; lia|].
  destruct (score g <=? money_from_score_accumulator g) eqn:E1; [exact Hacc|].
  apply Z.leb_gt in E1.
  set (delta := score g - money_from_score_accumulator g).
  assert (Hdelta : int_sub (score g) (money_from_score_accumulator g) = delta).
  { apply wrap_id. unfold int_range, INT_MIN, INT_MAX in *. lia. }
  rewrite Hdelta.
  assert (Hq : int_div delta (score_per_dollar g) = delta / score_per_dollar g).
  { unfold int_div. rewrite Z.quot_div_nonneg by lia.
    apply wrap_id. unfold int_range, INT_MIN, INT_MAX in *.
    pose proof (Z.div_pos delta (score_per_dollar g)).
    pose proof (Z.mul_div_le delta (score_per_dollar g)). nia. }
  rewrite Hq.
  destruct (delta / score_per_dollar g >? 0) eqn:E2; [|exact Hacc].
  unfold add_money.
  destruct (delta / score_per_dollar g <=? 0) eqn:E3; [apply Z.leb_le in E3; lia|].
  cbn.
  pose proof (Z.mul_div_le delta (score_per_dollar g) Hspd) as Hle.
  assert (Hm : int_mul (delta / score_per_dollar g) (score_per_dollar g)
               = delta / score_per_dollar g * score_per_dollar g).
  { apply wrap_id. unfold int_range, INT_MIN, INT_MAX in *. lia. }
  rewrite Hm. unfold int_add. rewrite wrap_id.
  - lia.
  - unfold int_range, INT_MIN, INT_MAX in *. lia.
Qed.

(** C2: when the score exceeds the conversion mark, the conversion adds
    exactly [floor((score - mark) / score_per_dollar)] dollars to the
    balance and advances the mark by [dollars * score_per_dollar], so that
    the remainder, less than [score_per_dollar], carries over.  The state
    is one the game reaches: a mark that is not negative, a positive rate,
    and integers that do not overflow. *)
Theorem grant_money_from_score_spec (g : ArkanoidImpl) :
  0 <= money_from_score_accumulator g ->
  money_from_score_accumulator g < score g ->
  0 < score_per_dollar g ->
  score g <= INT_MAX ->
  int_range (balance g
             + (score g - money_from_score_accumulator g) / score_per_dollar g) ->
  let dollars :=
    (score g - money_from_score_accumulator g) / score_per_dollar g in
  let g' := grant_money_from_score g in
  balance g' = balance g + dollars
  /\ money_from_score_accumulator g'
     = money_from_score_accumulator g + dollars * score_per_dollar g
  /\ score g' = score g
  /\ 0 <= score g' - money_from_score_accumulator g' < score_per_dollar g'.
Proof.
  intros Hacc Hlt Hspd Hmax Hbal dollars g'.
  change (int_range (balance g + dollars)) in Hbal.
  assert (Hd0 : 0 <= dollars) by (apply Z.div_pos; lia).
  assert (Hmul : dollars * score_per_dollar g
                 <= score g - money_from_score_accumulator g)
    by (rewrite Z.mul_comm; apply Z.mul_div_le; lia).
  assert (Hrem : score g - money_from_score_accumulator g
                 < dollars * score_per_dollar g + score_per_dollar g).
  { pose proof (Z.mod_pos_bound (score g - money_from_score_accumulator g)
                                (score_per_dollar g) Hspd).
    pose proof (Z.div_mod (score g - money_from_score_accumulator g)
                          (score_per_dollar g)). subst dollars. lia. }
  assert (Hdelta : int_sub (score g) (money_from_score_accumulator g)
                   = score g - money_from_score_accumulator g).
  { apply wrap_id. unfold int_range, INT_MIN, INT_MAX in *. lia. }
  assert (Hdollars : int_div (score g - money_from_score_accumulator g)
                             (score_per_dollar g) = dollars).
  { unfold int_div. rewrite Z.quot_div_nonneg by lia.
    apply wrap_id. unfold int_range, INT_MIN, INT_MAX in *. fold dollars. nia. }
  subst g'. unfold grant_money_from_score.
  destruct (money_from_score_accumulator g <? 0) eqn:E0;
    [apply Z.ltb_lt in E0; lia|].
  destruct (score g <=? money_from_score_accumulator g) eqn:E1;
    [apply Z.leb_le in E1; lia|].
  rewrite Hdelta, Hdollars.
  destruct (dollars >? 0) eqn:E2.
  - unfold add_money.
    destruct (dollars <=? 0) eqn:E3; [apply Z.leb_le in E3; lia|].
    cbn.
    assert (Hm : int_mul dollars (score_per_dollar g)
                 = dollars * score_per_dollar g).
    { apply wrap_id. unfold int_range, INT_MIN, INT_MAX in *. lia. }
    rewrite Hm.
    assert (Ha : int_add (money_from_score_accumulator g)
                         (dollars * score_per_dollar g)
                 = money_from_score_accumulator g + dollars * score_per_dollar g).
    { apply wrap_id. unfold int_range, INT_MIN, INT_MAX in *. lia. }
    rewrite Ha. unfold int_add. rewrite (wrap_id _ Hbal).
    repeat split; lia.
  - assert (dollars = 0) by lia. rewrite H in *.
    repeat split; lia.
Qed.

Lemma grant_money_from_score_spec_witness :
  balance (grant_money_from_score (set_score 250 demo_game)) = 2
  /\ money_from_score_accumulator
       (grant_money_from_score (set_score 250 demo_game)) = 200.
Proof.
  assert (H0 : 0 <= money_from_score_accumulator (set_score 250 demo_game))
    by (cbn; lia).
  assert (H1 : money_from_score_accumulator (set_score 250 demo_game)
               < score (set_score 250 demo_game)) by (cbn; lia).
  assert (H2 : 0 < score_per_dollar (set_score 250 demo_game)) by (cbn; lia).
  assert (H3 : score (set_score 250 demo_game) <= INT_MAX)
    by (unfold INT_MAX; cbn; lia).
  assert (H4 : int_range
                 (balance (set_score 250 demo_game)
                  + (score (set_score 250 demo_game)
                     - money_from_score_accumulator (set_score 250 demo_game))
                    / score_per_dollar (set_score 250 demo_game)))
    by (unfold int_range, INT_MIN, INT_MAX; cbn; lia).
  destruct (grant_money_from_score_spec (set_score 250 demo_game) H0 H1 H2 H3 H4)
    as (Hb & Hm & _).
  split; [exact Hb | exact Hm].
Defined.

(** ** The economy across resets *)

Lemma economy_inv_fresh (s : ArkanoidSettings.t) : economy_inv (fresh_instance s).
Proof. unfold economy_inv. cbn. lia. Qed.

Lemma economy_inv_add_money (amount : Z) (g : ArkanoidImpl) :
  economy_inv g -> total_money g + amount <= INT_MAX ->
  economy_inv (add_money amount g).
Proof.
  unfold economy_inv, add_money. intros Hi Hmax.
  destruct (amount <=? 0) eqn:E; [exact Hi|]. apply Z.leb_gt in E. cbn.
  unfold int_add. rewrite !wrap_id; unfold int_range, INT_MIN, INT_MAX in *; lia.
Qed.

Lemma economy_inv_try_purchase (cost : Z) (g : ArkanoidImpl) :
  economy_inv g -> balance g <= INT_MAX ->
  economy_inv (snd (try_purchase cost g)).
Proof.
  unfold economy_inv, try_purchase. intros Hi Hmax.
  destruct (cost <=? 0) eqn:Hc; [exact Hi|]. apply Z.leb_gt in Hc.
  destruct (balance g >=? cost) eqn:Hb; cbn; [|exact Hi].
  apply Z.geb_le in Hb. unfold int_sub.
  rewrite wrap_id; unfold int_range, INT_MIN, INT_MAX in *; lia.
Qed.

Lemma economy_inv_reset (ext : Extern) (s : ArkanoidSettings.t) (g : ArkanoidImpl) :
  economy_inv g -> economy_inv (reset ext s g).
Proof.
  unfold economy_inv. intros Hi.
  change (balance (reset ext s g)) with 0.
  change (total_money (reset ext s g)) with (total_money g). lia.
Qed.

(** C10: [reset] sets the balance to 0 and leaves [total_money] as it
    was, while the other economy counters (the conversion mark and the
    score it is measured against) start again from 0.  After a reset
    [balance <= total_money] therefore holds exactly when the total
    carried over is not negative, which [reset] does not establish: it
    comes from the history since the fresh instance, where the total is 0
    and only [add_money] moves it. *)
Theorem reset_keeps_total_money (ext : Extern) (s : ArkanoidSettings.t)
    (g : ArkanoidImpl) :
  let g' := reset ext s g in
  balance g' = 0
  /\ total_money g' = total_money g
  /\ money_from_score_accumulator g' = 0
  /\ score g' = 0
  /\ score_per_dollar g' = score_per_dollar g
  /\ (balance g' <= total_money g' <-> 0 <= total_money g)
  /\ total_money (fresh_instance s) = 0.
Proof.
  cbv zeta. repeat split; try reflexivity.
  - change (0 <= total_money g -> 0 <= total_money g). exact (fun H => H).
  - change (0 <= total_money g -> 0 <= total_money g). exact (fun H => H).
Qed.

(** ** Slow motion *)

(** C9: consuming a slow-motion bonus multiplies the target speed by 0.4
    and arms the 5-second buff, from every state; when a running buff
    runs out at the head of [update], the state differs from the one
    before the call in the slow-motion flag and timer only, so the target
    speed is not restored; and a buff picked up and left to run out (a
    frame of 5 seconds or more) leaves the target speed at 0.4 times what
    it was before the pickup. *)
Theorem slowmo_target_speed_not_restored (ext : Extern) (b : Bonus.t)
    (elapsed : R) (g h : ArkanoidImpl) :
  Bonus.type b = SlowMo ->
  ((ball_speed_target (apply_bonus ext b g) = ball_speed_target g * 0.4)%R
   /\ slowmo_mode (apply_bonus ext b g) = true
   /\ slowmo_timer (apply_bonus ext b g) = 5%R)
  /\ (slowmo_mode h = true -> (slowmo_timer h - elapsed <= 0)%R ->
      snd (slowmo_step elapsed h) = set_slowmo_mode false (set_slowmo_timer 0 h)
      /\ ball_speed_target (snd (slowmo_step elapsed h)) = ball_speed_target h)
  /\ ((5 <= elapsed)%R ->
      slowmo_mode (snd (slowmo_step elapsed (apply_bonus ext b g))) = false
      /\ (ball_speed_target (snd (slowmo_step elapsed (apply_bonus ext b g)))
          = ball_speed_target g * 0.4)%R).
Proof.
  intros Hty.
  assert (Hexpiry : forall x : ArkanoidImpl,
             slowmo_mode x = true -> (slowmo_timer x - elapsed <= 0)%R ->
             snd (slowmo_step elapsed x)
             = set_slowmo_mode false (set_slowmo_timer 0 x)).
  { intros x Hmode Hexp. unfold slowmo_step. rewrite Hmode. cbn. unfold fleb.
    destruct (Rle_dec (slowmo_timer x - elapsed) 0);
      [reflexivity | contradiction]. }
  assert (Hpick : (ball_speed_target (apply_bonus ext b g)
                   = ball_speed_target g * 0.4)%R
                  /\ slowmo_mode (apply_bonus ext b g) = true
                  /\ slowmo_timer (apply_bonus ext b g) = 5%R).
  { unfold apply_bonus. rewrite Hty. cbn. repeat split. }
  split; [exact Hpick|]. split.
  - intros Hmode Hexp. rewrite (Hexpiry h Hmode Hexp). split; reflexivity.
  - intros Hlong. destruct Hpick as (Ht & Hm & Htm).
    rewrite (Hexpiry (apply_bonus ext b g) Hm) by (rewrite Htm; lra).
    split; [reflexivity | exact Ht].
Qed.

Lemma slowmo_target_speed_not_restored_witness :
  let b := new_bonus (mkVect 400 300) SlowMo demo_game in
  let g := apply_bonus demo_extern b demo_game in
  ball_speed_target g = (150 * 0.4)%R
  /\ slowmo_mode (snd (slowmo_step 6 g)) = false
  /\ ball_speed_target (snd (slowmo_step 6 g)) = (150 * 0.4)%R.
Proof.
  intros b g.
  destruct (slowmo_target_speed_not_restored demo_extern b 6 demo_game g eq_refl)
    as ((Hpick & _ & _) & Hexpiry & _).
  assert (Hexp : (slowmo_timer g - 6 <= 0)%R) by (cbn; lra).
  destruct (Hexpiry eq_refl Hexp) as (Heq & Ht).
  split; [exact Hpick|]. split.
  - rewrite Heq. reflexivity.
  - rewrite Ht. exact Hpick.
Defined.

(** * Further properties of the simulation *)

Arguments wrap : simpl never.
Arguments to_string : simpl never.
Arguments fltb : simpl never.
Arguments fleb : simpl never.
Arguments feqb : simpl never.
Arguments Length : simpl never.

(** ** Comparisons of reals *)

Lemma fltb_true_iff (a b : R) : fltb a b = true <-> (a < b)%R.
Proof. unfold fltb. destruct (Rlt_dec a b); split; (easy || lra). Qed.

Lemma fltb_false_iff (a b : R) : fltb a b = false <-> (b <= a)%R.
Proof. unfold fltb. destruct (Rlt_dec a b); split; (easy || lra). Qed.

Lemma fleb_true_iff (a b : R) : fleb a b = true <-> (a <= b)%R.
Proof. unfold fleb. destruct (Rle_dec a b); split; (easy || lra). Qed.

Lemma fleb_false_iff (a b : R) : fleb a b = false <-> (b < a)%R.
Proof. unfold fleb. destruct (Rle_dec a b); split; (easy || lra). Qed.

Lemma feqb_true_iff (a b : R) : feqb a b = true <-> a = b.
Proof. unfold feqb. destruct (Req_dec_T a b); split; (easy || lra). Qed.

Lemma feqb_false_iff (a b : R) : feqb a b = false <-> a <> b.
Proof. unfold feqb. destruct (Req_dec_T a b); split; (easy || lra). Qed.

(** Case analysis on a test, leaving what it means in the context. *)
Ltac fcase c :=
  let E := fresh "E" in
  destruct c eqn:E;
  [ first [ apply fltb_true_iff in E | apply fleb_true_iff in E
          | apply feqb_true_iff in E | idtac ]
  | first [ apply fltb_false_iff in E | apply fleb_false_iff in E
          | apply feqb_false_iff in E | idtac ] ].

Ltac fcases :=
  repeat match goal with
         | |- context [if ?c then _ else _] =>
             lazymatch c with
             | context [if _ then _ else _] => fail
             | _ => fcase c
             end
         end.

(** Deciding the tests of a concrete state, innermost first. *)
Ltac no_test t :=
  lazymatch t with
  | context [if _ then _ else _] => fail
  | context [fltb _ _] => fail
  | context [fleb _ _] => fail
  | context [feqb _ _] => fail
  | _ => idtac
  end.

Ltac fdecide :=
  repeat match goal with
         | |- context [fltb ?a ?b] =>
             no_test a; no_test b;
             first [ replace (fltb a b) with true
                       by (symmetry; apply fltb_true_iff; lra)
                   | replace (fltb a b) with false
                       by (symmetry; apply fltb_false_iff; lra) ]
         | |- context [fleb ?a ?b] =>
             no_test a; no_test b;
             first [ replace (fleb a b) with true
                       by (symmetry; apply fleb_true_iff; lra)
                   | replace (fleb a b) with false
                       by (symmetry; apply fleb_false_iff; lra) ]
         | |- context [feqb ?a ?b] =>
             no_test a; no_test b;
             first [ replace (feqb a b) with true
                       by (symmetry; apply feqb_true_iff; lra)
                   | replace (feqb a b) with false
                       by (symmetry; apply feqb_false_iff; lra) ]
         end.

Lemma Length_zero : Length (mkVect 0 0) = 0%R.
Proof.
  unfold Length, LengthSquared. cbn.
  replace (0 * 0 + 0 * 0)%R with 0%R by lra. apply sqrt_0.
Qed.

Lemma fmax_ge_l (a b : R) : (a <= fmax a b)%R.
Proof. unfold fmax. fcases; lra. Qed.

Lemma fmax_ge_r (a b : R) : (b <= fmax a b)%R.
Proof. unfold fmax. fcases; lra. Qed.

Lemma fmax_lub (a b c : R) : (a <= c)%R -> (b <= c)%R -> (fmax a b <= c)%R.
Proof. unfold fmax. intros. fcases; lra. Qed.

Lemma fmin_le_l (a b : R) : (fmin a b <= a)%R.
Proof. unfold fmin. fcases; lra. Qed.

Lemma fmin_le_r (a b : R) : (fmin a b <= b)%R.
Proof. unfold fmin. fcases; lra. Qed.

Lemma clampf_range (v a b : R) : (a <= b)%R -> (a <= clampf v a b <= b)%R.
Proof. unfold clampf, fmax, fmin. intros. fcases; lra. Qed.

Lemma clampf_upper (v a b c : R) :
  (a <= c)%R -> (b <= c)%R -> (clampf v a b <= c)%R.
Proof. unfold clampf, fmax, fmin. intros. fcases; lra. Qed.

Lemma clampf_lower (v a b : R) : (a <= clampf v a b)%R.
Proof. unfold clampf. apply fmax_ge_l. Qed.

Lemma imin_min (a b : Z) : imin a b = Z.min a b.
Proof. unfold imin. destruct (b <? a) eqn:E; lia. Qed.

Lemma imax_max (a b : Z) : imax a b = Z.max a b.
Proof. unfold imax. destruct (a <? b) eqn:E; lia. Qed.

(** ** What each step leaves alone

    Every step returns the state it was given with a few fields replaced;
    the lemmas below name those fields.  [through] rewrites one step of the
    goal with such a lemma, so that the other fields read through it. *)

Ltac changes_by_cases :=
  intros;
  match goal with g : ArkanoidImpl |- _ => destruct g end;
  cbn; fcases; reflexivity.

Ltac through lem :=
  let E := fresh "E" in
  let g' := fresh "g'" in
  pose proof lem as E; cbv zeta in E;
  match type of E with ?x = _ => revert E; generalize x end;
  intros g' E; rewrite E; cbn; clear E; try clear g'.

Lemma try_purchase_changes (cost : Z) (g : ArkanoidImpl) :
  let g' := snd (try_purchase cost g) in
  g' = set_shop_message_timer (shop_message_timer g')
         (set_shop_message (shop_message g') (set_balance (balance g') g)).
Proof. unfold try_purchase. changes_by_cases. Qed.

Lemma grant_money_from_score_changes (g : ArkanoidImpl) :
  let g' := grant_money_from_score g in
  g' = set_money_from_score_accumulator (money_from_score_accumulator g')
         (set_shop_message_timer (shop_message_timer g')
            (set_shop_message (shop_message g')
               (set_total_money (total_money g')
                  (set_balance (balance g') g)))).
Proof. unfold grant_money_from_score, add_money. changes_by_cases. Qed.

Lemma reflect_ball_changes (ext : Extern) (n : Vect) (g : ArkanoidImpl) :
  let g' := reflect_ball ext n g in
  g' = set_rand_calls (rand_calls g') (set_ball_vel (ball_vel g') g).
Proof. unfold reflect_ball. changes_by_cases. Qed.

Lemma spawn_particles_changes (ext : Extern) (p : Vect) (color count : Z)
    (g : ArkanoidImpl) :
  let g' := spawn_particles ext p color count g in
  g' = set_particles (particles g') g.
Proof. unfold spawn_particles. changes_by_cases. Qed.

Ltac peel_reflect :=
  match goal with
  | |- context [reflect_ball ?e ?n ?g] => through (reflect_ball_changes e n g)
  end.

Ltac peel_particles :=
  match goal with
  | |- context [spawn_particles ?e ?p ?c ?n ?g] =>
      through (spawn_particles_changes e p c n g)
  end.

Lemma speedup_if_due_changes (g : ArkanoidImpl) :
  let g' := speedup_if_due g in
  g' = set_ball_speed_target (ball_speed_target g') g.
Proof. unfold speedup_if_due. changes_by_cases. Qed.

Ltac peel_speedup :=
  match goal with
  | |- context [speedup_if_due ?g] => through (speedup_if_due_changes g)
  end.

(** ** Brick damage, scoring and combo *)

Lemma reflect_if_not_piercing_keeps (ext : Extern) (n : Vect) (g : ArkanoidImpl) :
  let g1 := if negb (pierce_mode g) then reflect_ball ext n g else g in
  score g1 = score g /\ score_mult_value g1 = score_mult_value g
  /\ combo_mult g1 = combo_mult g /\ combo_window g1 = combo_window g
  /\ bonuses g1 = bonuses g /\ brick_size g1 = brick_size g
  /\ pierce_mode g1 = pierce_mode g
  /\ destroyed_bricks_count g1 = destroyed_bricks_count g.
Proof.
  cbv zeta. destruct (pierce_mode g) eqn:Hp; cbn [negb].
  - rewrite Hp. repeat split.
  - through (reflect_ball_changes ext n g). rewrite Hp. repeat split.
Qed.

(** A hit on a brick with more than one hit-point takes one hit-point,
    leaves the brick as alive as it was and scores
    [floor(brick score / 3) * score multiplier]; a hit on a brick with one
    hit-point (or fewer) marks it not alive and scores
    [brick score * combo * score multiplier], with the combo as it was
    before the hit.  Either way the combo goes up by one, capped at 9, and
    its window is re-armed. *)
Theorem brick_hit_damage_and_score (ext : Extern) (n hit_pos : Vect)
    (b : Brick.t) (g : ArkanoidImpl) (hits : list Hit) :
  int_range (Brick.hit_points b) ->
  0 <= Brick.score b ->
  1 <= combo_mult g <= 9 ->
  1 <= score_mult_value g ->
  0 <= score g ->
  score g + Brick.score b * combo_mult g * score_mult_value g <= INT_MAX ->
  let b' := fst (fst (brick_hit ext n hit_pos b g hits)) in
  let g' := snd (fst (brick_hit ext n hit_pos b g hits)) in
  (1 < Brick.hit_points b ->
     Brick.hit_points b' = Brick.hit_points b - 1
     /\ Brick.alive b' = Brick.alive b
     /\ score g' = score g + Brick.score b / 3 * score_mult_value g)
  /\ (Brick.hit_points b <= 1 ->
        Brick.alive b' = false
        /\ Brick.hit_points b' = Brick.hit_points b
        /\ score g' = score g
                      + Brick.score b * combo_mult g * score_mult_value g)
  /\ combo_mult g' = Z.min 9 (combo_mult g + 1)
  /\ combo_timer g' = combo_window g.
Proof.
  intros Hhp Hs Hc Hm Hsc Hmax b' g'. subst b' g'.
  destruct (reflect_if_not_piercing_keeps ext n g)
    as (F1 & F2 & F3 & F4 & _).
  unfold brick_hit.
  set (g1 := if negb (pierce_mode g) then reflect_ball ext n g else g) in *.
  clearbody g1.
  assert (Hq : 0 <= Brick.score b / 3 <= Brick.score b).
  { split; [apply Z.div_pos; lia|]. apply Z.div_le_upper_bound; lia. }
  assert (Hcombo : imin 9 (int_add (combo_mult g) 1) = Z.min 9 (combo_mult g + 1)).
  { rewrite imin_min. unfold int_add. rewrite wrap_id; [reflexivity|].
    unfold int_range, INT_MIN, INT_MAX. lia. }
  assert (Hprod : 0 <= Brick.score b * combo_mult g
                  <= Brick.score b * combo_mult g * score_mult_value g) by nia.
  assert (Hqm : 0 <= Brick.score b / 3 * score_mult_value g
                 <= Brick.score b * combo_mult g * score_mult_value g).
  { split; [nia|].
    apply Z.le_trans with (Brick.score b * score_mult_value g).
    - apply Z.mul_le_mono_nonneg_r; lia.
    - apply Z.mul_le_mono_nonneg_r; [lia | nia]. }
  destruct (Brick.hit_points b >? 1) eqn:Hgt.
  - assert (1 < Brick.hit_points b) by lia.
    cbv zeta. cbn [fst snd]. peel_particles.
    rewrite F1, F2, F3, F4, Hcombo.
    repeat split; try lia.
    + unfold int_sub. apply wrap_id.
      unfold int_range, INT_MIN, INT_MAX in *. lia.
    + unfold int_div. rewrite Z.quot_div_nonneg by lia.
      rewrite (wrap_id (Brick.score b / 3))
        by (unfold int_range, INT_MIN, INT_MAX in *; lia).
      unfold int_mul. rewrite wrap_id
        by (unfold int_range, INT_MIN, INT_MAX in *; lia).
      unfold int_add. apply wrap_id.
      unfold int_range, INT_MIN, INT_MAX in *. lia.
  - assert (Brick.hit_points b <= 1) by lia.
    cbv zeta. cbn [fst snd]. peel_speedup.
    assert (Hscore : int_add (score g)
                       (int_mul (int_mul (Brick.score b) (combo_mult g))
                          (score_mult_value g))
                     = score g
                       + Brick.score b * combo_mult g * score_mult_value g).
    { unfold int_mul.
      rewrite (wrap_id (Brick.score b * combo_mult g))
        by (unfold int_range, INT_MIN, INT_MAX in *; lia).
      rewrite wrap_id by (unfold int_range, INT_MIN, INT_MAX in *; lia).
      unfold int_add. apply wrap_id.
      unfold int_range, INT_MIN, INT_MAX in *. lia. }
    destruct (Brick.bonus b); [destruct (bonus_of_choice _)|];
      unfold spawn_bonus_at; cbn; try peel_particles;
      rewrite F1, F2, F3, F4, Hcombo, Hscore;
      repeat split; lia.
Qed.

Lemma brick_hit_damage_and_score_witness :
  Brick.hit_points
    (fst (fst (brick_hit demo_extern (mkVect 0 1) (mkVect 50 80)
                         demo_brick demo_game []))) = 1
  /\ score (snd (fst (brick_hit demo_extern (mkVect 0 1) (mkVect 50 80)
                                demo_brick demo_game []))) = 6.
Proof.
  assert (H1 : int_range (Brick.hit_points demo_brick))
    by (unfold int_range, INT_MIN, INT_MAX; cbn; lia).
  assert (H2 : 0 <= Brick.score demo_brick) by (cbn; lia).
  assert (H3 : 1 <= combo_mult demo_game <= 9) by (cbn; lia).
  assert (H4 : 1 <= score_mult_value demo_game) by (cbn; lia).
  assert (H5 : 0 <= score demo_game) by (cbn; lia).
  assert (H6 : score demo_game
               + Brick.score demo_brick * combo_mult demo_game
                 * score_mult_value demo_game <= INT_MAX)
    by (unfold INT_MAX; cbn; lia).
  destruct (brick_hit_damage_and_score demo_extern (mkVect 0 1) (mkVect 50 80)
              demo_brick demo_game [] H1 H2 H3 H4 H5 H6) as (Hdmg & _).
  assert (Hgt : 1 < Brick.hit_points demo_brick) by (cbn; lia).
  destruct (Hdmg Hgt) as (Hhp & _ & Hscore).
  split; [exact Hhp | exact Hscore].
Defined.

(** ** The bonus a destroyed brick drops *)

Lemma bonus_of_choice_droppable (c : Z) (type : BonusType) :
  bonus_of_choice c = Some type -> In type droppable_types.
Proof.
  unfold bonus_of_choice, droppable_types.
  destruct c as [| [[[p|p|]|[p|p|]|]|[[p|p|]|[p|p|]|]|] | p]; try discriminate;
    intros H; injection H as <-; cbn; tauto.
Qed.

Lemma bonus_of_choice_in_range (c : Z) :
  0 <= c <= 6 -> exists type, bonus_of_choice c = Some type.
Proof.
  intros H.
  assert (Hc : c = 0 \/ c = 1 \/ c = 2 \/ c = 3 \/ c = 4 \/ c = 5 \/ c = 6) by lia.
  destruct Hc as [-> | [-> | [-> | [-> | [-> | [-> | ->]]]]]];
    eexists; reflexivity.
Qed.

Lemma bonus_of_choice_injective (c1 c2 : Z) (type : BonusType) :
  bonus_of_choice c1 = Some type -> bonus_of_choice c2 = Some type -> c1 = c2.
Proof.
  unfold bonus_of_choice.
  destruct c1 as [| [[[p|p|]|[p|p|]|]|[[p|p|]|[p|p|]|]|] | p]; try discriminate;
    intros H1; injection H1 as <-;
    destruct c2 as [| [[[q|q|]|[q|q|]|]|[[q|q|]|[q|q|]|]|] | q];
    try discriminate; reflexivity.
Qed.

Lemma new_bonus_centered (center : Vect) (type : BonusType) (g : ArkanoidImpl) :
  rect_center (Bonus.rect_world (new_bonus center type g)) = center.
Proof.
  destruct center as [x y]. unfold new_bonus, rect_center, make_rect_xywh. cbn.
  f_equal; lra.
Qed.

(** The destruction of a bonus-flagged brick appends exactly one bonus to
    the list: alive, centred on the brick, of the type [drop_type] gives
    for the brick's centre, which is one of the seven droppable types;
    the seven types correspond one to one to the draws 0..6.  Any other
    hit (a brick that is not flagged, or one that survives) leaves the
    list of bonuses as it was.  The draw is what
    [std::uniform_int_distribution<int>(0, 6)] returns, a value in 0..6. *)
Theorem destroyed_bonus_brick_drops_one (ext : Extern) (n hit_pos : Vect)
    (b : Brick.t) (g : ArkanoidImpl) (hits : list Hit) :
  0 <= mt_uniform_int ext (position_seed (rect_center (Brick.rect_world b))) 0 6
    <= 6 ->
  let center := rect_center (Brick.rect_world b) in
  let g' := snd (fst (brick_hit ext n hit_pos b g hits)) in
  (Brick.bonus b = true -> Brick.hit_points b <= 1 ->
     exists type,
       drop_type ext center = Some type
       /\ In type droppable_types
       /\ bonuses g' = bonuses g ++ [new_bonus center type g]
       /\ Bonus.alive (new_bonus center type g) = true
       /\ rect_center (Bonus.rect_world (new_bonus center type g)) = center)
  /\ (Brick.bonus b = false \/ 1 < Brick.hit_points b ->
        bonuses g' = bonuses g)
  /\ (forall type, In type droppable_types ->
        exists c, 0 <= c <= 6 /\ bonus_of_choice c = Some type
                  /\ forall c', bonus_of_choice c' = Some type -> c' = c).
Proof.
  intros Hdraw center g'. subst g'.
  destruct (reflect_if_not_piercing_keeps ext n g)
    as (_ & _ & _ & _ & F5 & F6 & _).
  unfold brick_hit.
  set (g1 := if negb (pierce_mode g) then reflect_ball ext n g else g) in *.
  clearbody g1.
  split; [|split].
  - intros Hb Hhp.
    destruct (bonus_of_choice_in_range _ Hdraw) as (type & Hty).
    exists type. fold center in Hty.
    split; [exact Hty|].
    split; [exact (bonus_of_choice_droppable _ _ Hty)|].
    split; [|split; [reflexivity | apply new_bonus_centered]].
    destruct (Brick.hit_points b >? 1) eqn:Hgt; [lia|].
    cbv zeta. cbn [fst snd]. peel_speedup.
    rewrite Hb. fold center. rewrite Hty.
    unfold spawn_bonus_at, new_bonus. cbn. try peel_particles.
    rewrite F5, F6. reflexivity.
  - intros Hno.
    destruct (Brick.hit_points b >? 1) eqn:Hgt.
    + cbv zeta. cbn [fst snd]. try peel_particles. exact F5.
    + destruct Hno as [Hb | Hhp]; [|lia].
      cbv zeta. cbn [fst snd]. peel_speedup. rewrite Hb.
      try peel_particles. exact F5.
  - intros type Hin.
    unfold droppable_types in Hin. cbn in Hin.
    destruct Hin as [<- | [<- | [<- | [<- | [<- | [<- | [<- | []]]]]]]].
    + exists 0. repeat split; try lia.
      intros c' Hc'. exact (bonus_of_choice_injective c' 0 _ Hc' eq_refl).
    + exists 1. repeat split; try lia.
      intros c' Hc'. exact (bonus_of_choice_injective c' 1 _ Hc' eq_refl).
    + exists 2. repeat split; try lia.
      intros c' Hc'. exact (bonus_of_choice_injective c' 2 _ Hc' eq_refl).
    + exists 3. repeat split; try lia.
      intros c' Hc'. exact (bonus_of_choice_injective c' 3 _ Hc' eq_refl).
    + exists 4. repeat split; try lia.
      intros c' Hc'. exact (bonus_of_choice_injective c' 4 _ Hc' eq_refl).
    + exists 5. repeat split; try lia.
      intros c' Hc'. exact (bonus_of_choice_injective c' 5 _ Hc' eq_refl).
    + exists 6. repeat split; try lia.
      intros c' Hc'. exact (bonus_of_choice_injective c' 6 _ Hc' eq_refl).
Qed.

Lemma destroyed_bonus_brick_drops_one_witness :
  exists type,
    In type droppable_types
    /\ bonuses (snd (fst (brick_hit demo_extern (mkVect 0 1) (mkVect 50 80)
                                    demo_bonus_brick demo_game [])))
       = [new_bonus (rect_center (Brick.rect_world demo_bonus_brick)) type
                    demo_game].
Proof.
  assert (Hdraw : 0 <= mt_uniform_int demo_extern
                         (position_seed
                            (rect_center (Brick.rect_world demo_bonus_brick)))
                         0 6 <= 6).
  { cbn [mt_uniform_int demo_extern].
    pose proof (Z.mod_pos_bound
                  (position_seed
                     (rect_center (Brick.rect_world demo_bonus_brick)))
                  (6 - 0 + 1)). lia. }
  destruct (destroyed_bonus_brick_drops_one demo_extern (mkVect 0 1)
              (mkVect 50 80) demo_bonus_brick demo_game [] Hdraw)
    as (Hdrop & _).
  assert (Hhp : Brick.hit_points demo_bonus_brick <= 1) by (cbn; lia).
  destruct (Hdrop eq_refl Hhp) as (type & _ & Hin & Hb & _).
  exists type. split; [exact Hin | exact Hb].
Defined.

(** ** The ball: what the integration step touches *)

Lemma ball_speed_step_changes (dt : R) (g : ArkanoidImpl) :
  let g' := ball_speed_step dt g in
  g' = set_ball_speed_cur (ball_speed_cur g')
         (set_freeze_timer (freeze_timer g')
            (set_cheat_freeze_ball (cheat_freeze_ball g') g)).
Proof. unfold ball_speed_step. changes_by_cases. Qed.

Lemma ball_renormalize_changes (g : ArkanoidImpl) :
  let g' := ball_renormalize g in
  g' = set_ball_vel (ball_vel g') g.
Proof. unfold ball_renormalize. changes_by_cases. Qed.

Lemma ball_walls_keeps (ext : Extern) (g : ArkanoidImpl) :
  let w := ball_walls ext g in
  settings w = settings g /\ world_size w = world_size g
  /\ ball_radius w = ball_radius g /\ lives w = lives g
  /\ cheat_invincible w = cheat_invincible g /\ state w = state g
  /\ carriage_world w = carriage_world g
  /\ ball_speed_target w = ball_speed_target g
  /\ paused w = paused g /\ bricks w = bricks g
  /\ ball_speed_cur w = ball_speed_cur g.
Proof.
  unfold ball_walls.
  set (gx := if fltb (vx (ball_pos g)) (ball_radius g) then _ else _).
  assert (Hgx : settings gx = settings g /\ world_size gx = world_size g
                /\ ball_radius gx = ball_radius g /\ lives gx = lives g
                /\ cheat_invincible gx = cheat_invincible g
                /\ state gx = state g
                /\ carriage_world gx = carriage_world g
                /\ ball_speed_target gx = ball_speed_target g
                /\ paused gx = paused g /\ bricks gx = bricks g
                /\ ball_speed_cur gx = ball_speed_cur g).
  { subst gx.
    destruct (fltb (vx (ball_pos g)) (ball_radius g));
      [|destruct (fltb (vx (world_size g) - ball_radius g) (vx (ball_pos g)))];
      try peel_reflect; repeat split. }
  clearbody gx. cbv zeta.
  destruct (fltb (vy (ball_pos gx)) (ball_radius gx));
    try peel_reflect; exact Hgx.
Qed.

Lemma ball_moved_keeps (ext : Extern) (dt : R) (g : ArkanoidImpl) :
  let m := ball_moved ext dt g in
  settings m = settings g /\ world_size m = world_size g
  /\ ball_radius m = ball_radius g /\ lives m = lives g
  /\ cheat_invincible m = cheat_invincible g /\ state m = state g
  /\ carriage_world m = carriage_world g
  /\ ball_speed_target m = ball_speed_target g
  /\ paused m = paused g /\ bricks m = bricks g.
Proof.
  cbv zeta. unfold ball_moved.
  destruct (ball_walls_keeps ext
              (ball_advance dt (ball_renormalize (ball_speed_step dt g))))
    as (-> & -> & -> & -> & -> & -> & -> & -> & -> & -> & _).
  unfold ball_advance. cbn.
  through (ball_renormalize_changes (ball_speed_step dt g)).
  through (ball_speed_step_changes dt g).
  repeat split.
Qed.

(** ** Losing the ball *)

Lemma ball_not_lost (ext : Extern) (dt : R) (g : ArkanoidImpl) :
  (vy (ball_pos (ball_moved ext dt g)) <= vy (world_size g) + ball_radius g)%R ->
  integrate_ball ext dt g = ball_moved ext dt g.
Proof.
  intros H. unfold integrate_ball, ball_bottom.
  destruct (ball_moved_keeps ext dt g) as (_ & Hw & Hr & _).
  rewrite Hw, Hr.
  destruct (fltb _ _) eqn:E; [apply fltb_true_iff in E; lra | reflexivity].
Qed.

(** When the ball, once moved, is lower than the world's height plus its
    radius: a life is taken unless the invincibility cheat is on; the
    combo and the pierce mode are cleared in every case; with no life left
    the state becomes [Lose], and otherwise the state stays [Playing], the
    ball is put one unit above the paddle, over its centre, and its
    velocity is the diagonal (0.7071067, -0.7071067) times the target
    speed. *)
Theorem ball_lost_spec (ext : Extern) (dt : R) (g : ArkanoidImpl) :
  (vy (world_size g) + ball_radius g < vy (ball_pos (ball_moved ext dt g)))%R ->
  state g = Playing ->
  INT_MIN < lives g <= INT_MAX ->
  let g' := integrate_ball ext dt g in
  lives g' = (if cheat_invincible g then lives g else lives g - 1)
  /\ combo_mult g' = 1 /\ combo_timer g' = 0%R
  /\ pierce_mode g' = false /\ pierce_timer g' = 0%R
  /\ (lives g' <= 0 -> state g' = Lose)
  /\ (0 < lives g' ->
        state g' = Playing
        /\ ball_pos g'
           = mkVect (vx (rect_center (carriage_world g)))
                    (vy (pos (carriage_world g)) - ball_radius g - 1)
        /\ ball_vel g'
           = vscale (mkVect 0.7071067 (-0.7071067)) (ball_speed_target g)).
Proof.
  intros Hlow Hst Hlives g'. subst g'.
  unfold integrate_ball, ball_bottom.
  destruct (ball_moved_keeps ext dt g)
    as (_ & Hw & Hr & Hl & Hi & Hs & Hc & Ht & _).
  set (m := ball_moved ext dt g) in *. clearbody m.
  rewrite Hw, Hr.
  destruct (fltb _ _) eqn:E; [clear E | apply fltb_false_iff in E; lra].
  rewrite Hi, Hl.
  assert (Hdec : int_sub (lives g) 1 = lives g - 1).
  { unfold int_sub. apply wrap_id.
    unfold int_range, INT_MIN, INT_MAX in *. lia. }
  destruct (cheat_invincible g); cbn [negb]; cbn;
    rewrite ?Hdec, ?Hl.
  - destruct (lives g <=? 0) eqn:El;
      [apply Z.leb_le in El | apply Z.leb_gt in El]; cbn;
      rewrite ?Hl, ?Hs, ?Hc, ?Hr, ?Ht;
      repeat split; try reflexivity; try lia; auto.
  - destruct (lives g - 1 <=? 0) eqn:El;
      [apply Z.leb_le in El | apply Z.leb_gt in El]; cbn;
      rewrite ?Hdec, ?Hs, ?Hc, ?Hr, ?Ht;
      repeat split; try reflexivity; try lia; auto.
Qed.

Lemma ball_walls_no_hit (ext : Extern) (g : ArkanoidImpl) :
  wall_hit g = false -> ball_walls ext g = g.
Proof.
  unfold wall_hit, ball_walls. intros H.
  apply orb_false_iff in H. destruct H as (H & Hy).
  apply orb_false_iff in H. destruct H as (Hl & Hr).
  rewrite Hl, Hr. cbv zeta. rewrite Hy. reflexivity.
Qed.

(** A ball whose velocity is zero is not re-normalised (its length is not
    above 1e-6), so away from the walls the integration leaves it where it
    is, with a zero velocity. *)
Lemma ball_moved_at_rest (ext : Extern) (dt : R) (g : ArkanoidImpl) :
  ball_vel g = mkVect 0 0 -> wall_hit g = false ->
  ball_pos (ball_moved ext dt g) = ball_pos g
  /\ ball_vel (ball_moved ext dt g) = mkVect 0 0.
Proof.
  intros Hv Hw. unfold ball_moved.
  assert (Hs : ball_vel (ball_speed_step dt g) = mkVect 0 0
               /\ ball_pos (ball_speed_step dt g) = ball_pos g
               /\ ball_radius (ball_speed_step dt g) = ball_radius g
               /\ world_size (ball_speed_step dt g) = world_size g).
  { through (ball_speed_step_changes dt g). auto. }
  set (s := ball_speed_step dt g) in *. clearbody s.
  destruct Hs as (Hsv & Hsp & Hsr & Hsw).
  assert (Hr : ball_renormalize s = s).
  { unfold ball_renormalize. rewrite Hsv, Length_zero.
    destruct (fltb 1e-6 0) eqn:E; [apply fltb_true_iff in E; lra | reflexivity]. }
  rewrite Hr.
  assert (Ha : ball_pos (ball_advance dt s) = ball_pos g).
  { unfold ball_advance. cbn. rewrite Hsv, Hsp.
    destruct (ball_pos g) as [x y]. unfold vadd, vscale. cbn. f_equal; lra. }
  assert (Hwa : wall_hit (ball_advance dt s) = false).
  { unfold wall_hit in *. rewrite Ha.
    unfold ball_advance. cbn. rewrite Hsr, Hsw. exact Hw. }
  rewrite (ball_walls_no_hit ext _ Hwa).
  split; [exact Ha | unfold ball_advance; cbn; exact Hsv].
Qed.

Lemma ball_lost_spec_witness :
  lives (integrate_ball demo_extern 0.016 demo_lost_ball) = 0
  /\ state (integrate_ball demo_extern 0.016 demo_lost_ball) = Lose.
Proof.
  assert (Hlow : (vy (world_size demo_lost_ball) + ball_radius demo_lost_ball
                  < vy (ball_pos (ball_moved demo_extern 0.016 demo_lost_ball)))%R).
  { assert (Hw : wall_hit demo_lost_ball = false)
      by (unfold wall_hit, demo_lost_ball; cbn; fdecide; reflexivity).
    destruct (ball_moved_at_rest demo_extern 0.016 demo_lost_ball eq_refl Hw)
      as (-> & _).
    cbn. lra. }
  assert (Hl : INT_MIN < lives demo_lost_ball <= INT_MAX)
    by (unfold INT_MIN, INT_MAX; cbn; lia).
  destruct (ball_lost_spec demo_extern 0.016 demo_lost_ball Hlow eq_refl Hl)
    as (Hlives & _ & _ & _ & _ & Hlose & _).
  split; [exact Hlives|]. apply Hlose. rewrite Hlives. cbn. lia.
Defined.

(** ** Reflection and the speed of the ball *)

Lemma sgn_cases (x : R) : sgn x = 1%R \/ sgn x = (-1)%R.
Proof. unfold sgn. destruct (fltb x 0); auto. Qed.

Lemma Rabs_sq (x : R) : (Rabs x * Rabs x = x * x)%R.
Proof. unfold Rabs. destruct (Rcase_abs x); lra. Qed.

Lemma Rabs_lt_sq (x m : R) : (Rabs x < m)%R -> (x * x < m * m)%R.
Proof.
  intros H. rewrite <- Rabs_sq. pose proof (Rabs_pos x). nra.
Qed.

Lemma Rabs_ge_sq (x m : R) : (0 <= m)%R -> (m <= Rabs x)%R -> (m * m <= x * x)%R.
Proof. intros H0 H. rewrite <- (Rabs_sq x). nra. Qed.

(** The velocity [reflect_ball] leaves, component by component: the
    reflected component, or the floor with a sign when the reflected
    component is smaller than the floor. *)
Lemma reflect_ball_components (ext : Extern) (n : Vect) (g : ArkanoidImpl) :
  let mc := (0.15 * ball_speed_cur g)%R in
  let rx := (vx (ball_vel g)
             - vx n * (2 * (vx (ball_vel g) * vx n + vy (ball_vel g) * vy n)))%R in
  let ry := (vy (ball_vel g)
             - vy n * (2 * (vx (ball_vel g) * vx n + vy (ball_vel g) * vy n)))%R in
  let v' := ball_vel (reflect_ball ext n g) in
  ball_speed_cur (reflect_ball ext n g) = ball_speed_cur g
  /\ ((Rabs rx < mc)%R /\ (vx v' = mc \/ vx v' = - mc)%R
      \/ (mc <= Rabs rx)%R /\ vx v' = rx)
  /\ ((Rabs ry < mc)%R /\ (vy v' = mc \/ vy v' = - mc)%R
      \/ (mc <= Rabs ry)%R /\ vy v' = ry).
Proof.
  cbv zeta. split.
  - peel_reflect. reflexivity.
  - unfold reflect_ball. cbn.
    set (mc := (0.15 * ball_speed_cur g)%R).
    set (rx := (vx (ball_vel g) - _)%R).
    set (ry := (vy (ball_vel g) - _)%R).
    split.
    + destruct (fltb (Rabs rx) mc) eqn:Ex;
        [apply fltb_true_iff in Ex | apply fltb_false_iff in Ex].
      * left. split; [exact Ex|].
        destruct (feqb rx 0); cbn;
          match goal with |- context [sgn ?x] =>
            destruct (sgn_cases x) as [-> | ->] end; lra.
      * right. split; [exact Ex | reflexivity].
    + destruct (fltb (Rabs rx) mc); [destruct (feqb rx 0)|]; cbn;
        (destruct (fltb (Rabs ry) mc) eqn:Ey;
         [apply fltb_true_iff in Ey | apply fltb_false_iff in Ey];
         [ left; split; [exact Ey|];
           match goal with |- context [sgn ?x] =>
             destruct (sgn_cases x) as [-> | ->] end; lra
         | right; split; [exact Ey | reflexivity] ]).
Qed.

(** A component that is either put at plus or minus the floor, or kept
    because it reaches the floor, reaches the floor. *)
Lemma floored_component (mc r v : R) :
  (0 <= 0.15 * mc)%R ->
  (Rabs r < 0.15 * mc /\ (v = 0.15 * mc \/ v = - (0.15 * mc))
   \/ 0.15 * mc <= Rabs r /\ v = r)%R ->
  (0.15 * mc <= Rabs v)%R.
Proof.
  intros Hc [(_ & [-> | ->]) | (Hge & ->)];
    [rewrite Rabs_right by lra | rewrite Rabs_Ropp, Rabs_right by lra | ]; lra.
Qed.

Lemma reflect_ball_floored (ext : Extern) (n : Vect) (g : ArkanoidImpl) :
  (0 <= ball_speed_cur g)%R -> floored (reflect_ball ext n g).
Proof.
  intros Hc. unfold floored.
  destruct (reflect_ball_components ext n g) as (-> & Hx & Hy).
  assert (Hm : (0 <= 0.15 * ball_speed_cur g)%R) by lra.
  split; eapply floored_component; eassumption.
Qed.

(** After any reflection both components of the velocity are at least
    0.15 times the current speed in magnitude, so the ball never travels
    along a wall or straight up and down. *)
Theorem reflect_ball_floors (ext : Extern) (n : Vect) (g : ArkanoidImpl) :
  (0 <= ball_speed_cur g)%R -> floored (reflect_ball ext n g).
Proof.
  intros Hc. unfold floored.
  destruct (reflect_ball_components ext n g) as (-> & Hx & Hy).
  assert (Hm : (0 <= 0.15 * ball_speed_cur g)%R) by lra.
  split; eapply floored_component; eassumption.
Qed.

Lemma reflect_ball_floors_witness :
  floored (reflect_ball demo_extern (mkVect 0 1) demo_game).
Proof.
  apply (reflect_ball_floors demo_extern (mkVect 0 1) demo_game). cbn. lra.
Defined.

Lemma speed_ok_band (g : ArkanoidImpl) : speed_ok g -> speed_band g.
Proof.
  unfold speed_ok, speed_band. intros [H | (_ & H)]; [|exact H].
  rewrite H. nra.
Qed.

Lemma speed_ok_set_ball_pos (p : Vect) (g : ArkanoidImpl) :
  speed_ok g -> speed_ok (set_ball_pos p g).
Proof. exact (fun H => H). Qed.

(** A reflection on an axis normal keeps [speed_ok]. *)
Lemma reflect_ball_speed_ok (ext : Extern) (n : Vect) (g : ArkanoidImpl) :
  axis_normal n -> (0 <= ball_speed_cur g)%R ->
  speed_ok g -> speed_ok (reflect_ball ext n g).
Proof.
  intros Hn Hc Hok.
  pose proof (reflect_ball_floored ext n g Hc) as Hfl.
  destruct (reflect_ball_components ext n g) as (Hcur & Hx & Hy).
  cbv zeta in Hx, Hy.
  set (mc := (0.15 * ball_speed_cur g)%R) in *.
  set (rx := (vx (ball_vel g) - _)%R) in *.
  set (ry := (vy (ball_vel g) - _)%R) in *.
  assert (Hsq : (rx * rx = vx (ball_vel g) * vx (ball_vel g)
                 /\ ry * ry = vy (ball_vel g) * vy (ball_vel g))%R).
  { subst rx ry.
    destruct Hn as [-> | [-> | [-> | ->]]]; cbn; split; ring. }
  destruct Hsq as (Hrx & Hry).
  assert (Hmc : (0 <= mc)%R) by (subst mc; lra).
  assert (Hmc2 : (mc * mc = 0.15 * 0.15 * (ball_speed_cur g * ball_speed_cur g))%R)
    by (subst mc; ring).
  unfold speed_ok. right. split; [exact Hfl|].
  unfold speed_band, LengthSquared. rewrite Hcur.
  set (v' := ball_vel (reflect_ball ext n g)) in *.
  assert (Hvx : ((Rabs rx < mc /\ vx v' * vx v' = mc * mc)
                 \/ (mc <= Rabs rx /\ vx v' * vx v' = rx * rx))%R).
  { destruct Hx as [(H1 & [-> | ->]) | (H1 & ->)];
      [left | left | right]; split; try exact H1; ring. }
  assert (Hvy : ((Rabs ry < mc /\ vy v' * vy v' = mc * mc)
                 \/ (mc <= Rabs ry /\ vy v' * vy v' = ry * ry))%R).
  { destruct Hy as [(H1 & [-> | ->]) | (H1 & ->)];
      [left | left | right]; split; try exact H1; ring. }
  clear Hx Hy.
  destruct Hok as [Heq | ((Hfx & Hfy) & Hband)].
  - unfold LengthSquared in Heq.
    destruct Hvx as [(Hx1 & ->) | (Hx1 & ->)];
      destruct Hvy as [(Hy1 & ->) | (Hy1 & ->)].
    + apply Rabs_lt_sq in Hx1. apply Rabs_lt_sq in Hy1. nra.
    + apply Rabs_lt_sq in Hx1. nra.
    + apply Rabs_lt_sq in Hy1. nra.
    + nra.
  - unfold speed_band, LengthSquared in Hband. fold mc in Hfx, Hfy.
    assert (Hax : Rabs rx = Rabs (vx (ball_vel g))).
    { apply Rsqr_eq_abs_0. unfold Rsqr. exact Hrx. }
    assert (Hay : Rabs ry = Rabs (vy (ball_vel g))).
    { apply Rsqr_eq_abs_0. unfold Rsqr. exact Hry. }
    destruct Hvx as [(Hx1 & _) | (_ & ->)]; [lra|].
    destruct Hvy as [(Hy1 & _) | (_ & ->)]; [lra|].
    rewrite Hrx, Hry. exact Hband.
Qed.

Lemma ball_walls_speed_ok (ext : Extern) (g : ArkanoidImpl) :
  (0 <= ball_speed_cur g)%R -> speed_ok g ->
  speed_ok (ball_walls ext g)
  /\ ball_speed_cur (ball_walls ext g) = ball_speed_cur g
  /\ (wall_hit g = true -> floored (ball_walls ext g)).
Proof.
  intros Hc Hok. unfold ball_walls, wall_hit.
  set (gx := if fltb (vx (ball_pos g)) (ball_radius g) then _ else _).
  assert (Hgx : speed_ok gx /\ ball_speed_cur gx = ball_speed_cur g
                /\ vy (ball_pos gx) = vy (ball_pos g)
                /\ ball_radius gx = ball_radius g
                /\ (fltb (vx (ball_pos g)) (ball_radius g)
                    || fltb (vx (world_size g) - ball_radius g) (vx (ball_pos g))
                    = true -> floored gx)).
  { subst gx.
    destruct (fltb (vx (ball_pos g)) (ball_radius g)); cbn [orb].
    - split; [|split; [|split; [|split]]].
      + apply reflect_ball_speed_ok; [unfold axis_normal; auto | exact Hc |].
        apply speed_ok_set_ball_pos, Hok.
      + peel_reflect. reflexivity.
      + peel_reflect. reflexivity.
      + peel_reflect. reflexivity.
      + intros _. apply reflect_ball_floored. exact Hc.
    - destruct (fltb (vx (world_size g) - ball_radius g) (vx (ball_pos g))).
      + split; [|split; [|split; [|split]]].
        * apply reflect_ball_speed_ok; [unfold axis_normal; auto | exact Hc |].
          apply speed_ok_set_ball_pos, Hok.
        * peel_reflect. reflexivity.
        * peel_reflect. reflexivity.
        * peel_reflect. reflexivity.
        * intros _. apply reflect_ball_floored. exact Hc.
      + repeat split; auto; discriminate. }
  clearbody gx.
  destruct Hgx as (Hokx & Hcx & Hyx & Hrx & Hflx).
  cbv zeta. rewrite Hyx, Hrx.
  destruct (fltb (vy (ball_pos g)) (ball_radius g)).
  - split; [|split].
    + apply reflect_ball_speed_ok;
        [unfold axis_normal; auto | cbn; lra |].
      apply speed_ok_set_ball_pos, Hokx.
    + peel_reflect. exact Hcx.
    + intros _. apply reflect_ball_floored. cbn. lra.
  - rewrite orb_false_r.
    split; [exact Hokx | split; [exact Hcx | exact Hflx]].
Qed.

Lemma ball_speed_step_speed (dt : R) (g : ArkanoidImpl) :
  (0 <= ball_speed_target g)%R ->
  (0 <= ball_speed_cur (ball_speed_step dt g))%R
  /\ ball_vel (ball_speed_step dt g) = ball_vel g.
Proof.
  intros Ht. split.
  - unfold ball_speed_step.
    destruct (cheat_freeze_ball g); [destruct (fleb (freeze_timer g) 0)|]; cbn;
      destruct (fltb 0 _); cbn; try lra;
      (eapply Rle_trans; [|apply fmax_ge_r]); lra.
  - through (ball_speed_step_changes dt g). reflexivity.
Qed.

Lemma ball_renormalize_exact (g : ArkanoidImpl) :
  (1e-6 < Length (ball_vel g))%R ->
  LengthSquared (ball_vel (ball_renormalize g))
  = (ball_speed_cur g * ball_speed_cur g)%R
  /\ ball_speed_cur (ball_renormalize g) = ball_speed_cur g.
Proof.
  intros Hlen. unfold ball_renormalize.
  destruct (fltb 1e-6 (Length (ball_vel g))) eqn:E;
    [clear E | apply fltb_false_iff in E; lra].
  split; [|reflexivity]. cbn.
  assert (Hsq : (Length (ball_vel g) * Length (ball_vel g)
                 = LengthSquared (ball_vel g))%R).
  { unfold Length. apply sqrt_sqrt. unfold LengthSquared. nra. }
  unfold LengthSquared in *. cbn.
  set (len := Length (ball_vel g)) in *.
  assert (Hne : len <> 0%R) by lra.
  replace (vx (ball_vel g) * (ball_speed_cur g / len)
           * (vx (ball_vel g) * (ball_speed_cur g / len))
           + vy (ball_vel g) * (ball_speed_cur g / len)
             * (vy (ball_vel g) * (ball_speed_cur g / len)))%R
    with ((vx (ball_vel g) * vx (ball_vel g) + vy (ball_vel g) * vy (ball_vel g))
          * (ball_speed_cur g * ball_speed_cur g) / (len * len))%R
    by (field; exact Hne).
  rewrite <- Hsq. field. exact Hne.
Qed.

(** After an integration step that starts from a velocity longer than 1e-6
    and does not lose the ball, the speed is re-normalised: with no wall
    hit the magnitude of the velocity is exactly the current speed; with a
    wall hit both components are at least 0.15 times the current speed in
    magnitude, and the squared magnitude lies between the squared current
    speed and 1.0225 times it (the floor of the reflection can raise the
    magnitude, by at most 1.12 percent). *)
Theorem integrate_ball_speed (ext : Extern) (dt : R) (g : ArkanoidImpl) :
  (1e-6 < Length (ball_vel g))%R ->
  (0 <= ball_speed_target g)%R ->
  (vy (ball_pos (ball_moved ext dt g)) <= vy (world_size g) + ball_radius g)%R ->
  let g' := integrate_ball ext dt g in
  speed_band g'
  /\ (wall_hit (ball_advanced dt g) = false ->
        Length (ball_vel g') = ball_speed_cur g')
  /\ (wall_hit (ball_advanced dt g) = true -> floored g').
Proof.
  intros Hlen Ht Hkeep g'. subst g'.
  rewrite (ball_not_lost ext dt g Hkeep).
  unfold ball_moved. fold (ball_advanced dt g).
  destruct (ball_speed_step_speed dt g Ht) as (Hc0 & Hv0).
  assert (Hlen' : (1e-6 < Length (ball_vel (ball_speed_step dt g)))%R)
    by (rewrite Hv0; exact Hlen).
  destruct (ball_renormalize_exact (ball_speed_step dt g) Hlen') as (Hex & Hc1).
  assert (Ha : speed_ok (ball_advanced dt g)
               /\ ball_speed_cur (ball_advanced dt g)
                  = ball_speed_cur (ball_speed_step dt g)).
  { unfold ball_advanced, ball_advance, speed_ok. cbn.
    split; [left; rewrite Hex, Hc1; reflexivity | exact Hc1]. }
  destruct Ha as (Hok & Hc2).
  assert (Hc : (0 <= ball_speed_cur (ball_advanced dt g))%R) by (rewrite Hc2; exact Hc0).
  destruct (ball_walls_speed_ok ext (ball_advanced dt g) Hc Hok)
    as (Hokw & Hcw & Hfl).
  split; [apply speed_ok_band, Hokw|]. split; [|exact Hfl].
  intros Hno. rewrite (ball_walls_no_hit ext _ Hno).
  assert (Heq : LengthSquared (ball_vel (ball_advanced dt g))
                = (ball_speed_cur (ball_advanced dt g)
                   * ball_speed_cur (ball_advanced dt g))%R).
  { rewrite Hc2. unfold ball_advanced, ball_advance. cbn.
    rewrite Hex. reflexivity. }
  unfold Length. rewrite Heq. apply sqrt_square. exact Hc.
Qed.

Lemma Length_demo_flying_ball : Length (ball_vel demo_flying_ball) = 100%R.
Proof.
  unfold Length, LengthSquared. cbn.
  replace (0 * 0 + -100 * -100)%R with (100 * 100)%R by lra.
  apply sqrt_square. lra.
Qed.

Lemma demo_flying_ball_advanced :
  ball_pos (ball_advanced 0.01 demo_flying_ball)
  = mkVect (400 + 0 * (150 / 100) * 0.01) (300 + -100 * (150 / 100) * 0.01)
  /\ wall_hit (ball_advanced 0.01 demo_flying_ball) = false.
Proof.
  assert (Hs : ball_speed_step 0.01 demo_flying_ball
               = set_ball_speed_cur 150 demo_flying_ball).
  { unfold ball_speed_step. cbn. fdecide. reflexivity. }
  assert (Hr : ball_renormalize (set_ball_speed_cur 150 demo_flying_ball)
               = set_ball_vel (vscale (mkVect 0 (-100)) (150 / 100))
                   (set_ball_speed_cur 150 demo_flying_ball)).
  { unfold ball_renormalize.
    change (ball_vel (set_ball_speed_cur 150 demo_flying_ball))
      with (ball_vel demo_flying_ball).
    rewrite Length_demo_flying_ball. fdecide. reflexivity. }
  unfold ball_advanced. rewrite Hs, Hr.
  split; [reflexivity|].
  unfold wall_hit, ball_advance. cbn. fdecide. reflexivity.
Qed.

Lemma integrate_ball_speed_witness :
  speed_band (integrate_ball demo_extern 0.01 demo_flying_ball)
  /\ Length (ball_vel (integrate_ball demo_extern 0.01 demo_flying_ball))
     = ball_speed_cur (integrate_ball demo_extern 0.01 demo_flying_ball).
Proof.
  destruct demo_flying_ball_advanced as (Hpos & Hno).
  assert (H1 : (1e-6 < Length (ball_vel demo_flying_ball))%R)
    by (rewrite Length_demo_flying_ball; lra).
  assert (H2 : (0 <= ball_speed_target demo_flying_ball)%R) by (cbn; lra).
  assert (H3 : (vy (ball_pos (ball_moved demo_extern 0.01 demo_flying_ball))
                <= vy (world_size demo_flying_ball)
                   + ball_radius demo_flying_ball)%R).
  { unfold ball_moved. fold (ball_advanced 0.01 demo_flying_ball).
    rewrite (ball_walls_no_hit demo_extern _ Hno), Hpos. cbn. lra. }
  destruct (integrate_ball_speed demo_extern 0.01 demo_flying_ball H1 H2 H3)
    as (Hband & Hexact & _).
  split; [exact Hband | exact (Hexact Hno)].
Defined.

(** A ball that arrives perpendicular to a wall (one component of its
    velocity is zero) at exactly the current speed leaves the reflection
    faster than the current speed: the zero component is raised to the
    floor, and the squared magnitude becomes 1.0225 times the squared
    current speed.  The speed is brought back only by the next
    integration step. *)
Theorem perpendicular_reflection_raises_speed (ext : Extern) (n : Vect)
    (g : ArkanoidImpl) :
  axis_normal n ->
  (0 < ball_speed_cur g)%R ->
  LengthSquared (ball_vel g) = (ball_speed_cur g * ball_speed_cur g)%R ->
  vx (ball_vel g) = 0%R \/ vy (ball_vel g) = 0%R ->
  LengthSquared (ball_vel (reflect_ball ext n g))
  = ((1 + 0.15 * 0.15) * (ball_speed_cur g * ball_speed_cur g))%R.
Proof.
  intros Hn Hc Heq Hzero.
  destruct (reflect_ball_components ext n g) as (_ & Hx & Hy).
  cbv zeta in Hx, Hy.
  set (mc := (0.15 * ball_speed_cur g)%R) in *.
  set (rx := (vx (ball_vel g) - _)%R) in *.
  set (ry := (vy (ball_vel g) - _)%R) in *.
  assert (Hsq : (rx * rx = vx (ball_vel g) * vx (ball_vel g)
                 /\ ry * ry = vy (ball_vel g) * vy (ball_vel g))%R).
  { subst rx ry.
    destruct Hn as [-> | [-> | [-> | ->]]]; cbn; split; ring. }
  destruct Hsq as (Hrx & Hry).
  assert (Hmc : (0 < mc)%R) by (subst mc; lra).
  assert (Hmc2 : (mc * mc = 0.15 * 0.15 * (ball_speed_cur g * ball_speed_cur g))%R)
    by (subst mc; ring).
  unfold LengthSquared in *.
  set (v' := ball_vel (reflect_ball ext n g)) in *.
  assert (Hvx : ((Rabs rx < mc /\ vx v' * vx v' = mc * mc)
                 \/ (mc <= Rabs rx /\ vx v' * vx v' = rx * rx))%R).
  { destruct Hx as [(H1 & [-> | ->]) | (H1 & ->)];
      [left | left | right]; split; try exact H1; ring. }
  assert (Hvy : ((Rabs ry < mc /\ vy v' * vy v' = mc * mc)
                 \/ (mc <= Rabs ry /\ vy v' * vy v' = ry * ry))%R).
  { destruct Hy as [(H1 & [-> | ->]) | (H1 & ->)];
      [left | left | right]; split; try exact H1; ring. }
  clear Hx Hy.
  destruct Hzero as [Hz | Hz]; rewrite Hz in *.
  - destruct Hvx as [(_ & ->) | (Hx1 & _)].
    + destruct Hvy as [(Hy1 & _) | (_ & ->)].
      * apply Rabs_lt_sq in Hy1. nra.
      * nra.
    + apply Rabs_ge_sq in Hx1; [nra | lra].
  - destruct Hvy as [(_ & ->) | (Hy1 & _)].
    + destruct Hvx as [(Hx1 & _) | (_ & ->)].
      * apply Rabs_lt_sq in Hx1. nra.
      * nra.
    + apply Rabs_ge_sq in Hy1; [nra | lra].
Qed.

Lemma perpendicular_reflection_raises_speed_witness :
  LengthSquared
    (ball_vel (reflect_ball demo_extern (mkVect 0 1)
                 (set_ball_vel (mkVect 0 (-150)) demo_game)))
  = ((1 + 0.15 * 0.15) * (150 * 150))%R.
Proof.
  apply (perpendicular_reflection_raises_speed demo_extern (mkVect 0 1)
           (set_ball_vel (mkVect 0 (-150)) demo_game)).
  - unfold axis_normal. auto.
  - cbn. lra.
  - unfold LengthSquared. cbn. lra.
  - left. reflexivity.
Defined.

(** ** The stage through the steps of a frame *)

Lemma grant_money_from_score_stage (g : ArkanoidImpl) :
  stage (grant_money_from_score g) = stage g.
Proof. through (grant_money_from_score_changes g). reflexivity. Qed.

Lemma try_purchase_stage (cost : Z) (g : ArkanoidImpl) :
  stage (snd (try_purchase cost g)) = stage g.
Proof. through (try_purchase_changes cost g). reflexivity. Qed.

Lemma buy_on_key_stage (io : ImGuiIO) (key cost : Z)
    (effect : ArkanoidImpl -> ArkanoidImpl) (g : ArkanoidImpl) :
  (forall g, stage (effect g) = stage g) ->
  stage (buy_on_key io key cost effect g) = stage g.
Proof.
  intros He. unfold buy_on_key.
  destruct (KeysDown io key); [|reflexivity].
  pose proof (try_purchase_stage cost g) as Hp.
  destruct (try_purchase cost g) as [ok g1]. cbn [snd] in Hp.
  destruct ok; [rewrite He|]; exact Hp.
Qed.

Lemma speed_pierce_hotkeys_stage (io : ImGuiIO) (g : ArkanoidImpl) :
  stage (speed_pierce_hotkeys io g) = stage g.
Proof.
  unfold speed_pierce_hotkeys.
  destruct (KeysDown io GLFW_KEY_1), (KeysDown io GLFW_KEY_2),
    (KeysDown io GLFW_KEY_3), (KeysDown io GLFW_KEY_C); reflexivity.
Qed.

Lemma shop_hotkeys_stage (io : ImGuiIO) (g : ArkanoidImpl) :
  stage (shop_hotkeys io g) = stage g.
Proof.
  unfold shop_hotkeys. cbv zeta.
  repeat (rewrite buy_on_key_stage; [|reflexivity]). reflexivity.
Qed.

Lemma speedup_if_due_stage (g : ArkanoidImpl) :
  stage (speedup_if_due g) = stage g.
Proof. through (speedup_if_due_changes g). reflexivity. Qed.

Lemma nuke_brick_stage (b : Brick.t) (g : ArkanoidImpl) :
  stage (snd (nuke_brick b g)) = stage g.
Proof.
  unfold nuke_brick.
  destruct (negb (Brick.alive b)); [reflexivity|].
  destruct (_ && _); [|reflexivity].
  cbn [snd]. rewrite speedup_if_due_stage. reflexivity.
Qed.

Lemma nuke_loop_stage (bs : list Brick.t) (g : ArkanoidImpl) :
  stage (snd (nuke_loop bs g)) = stage g.
Proof.
  revert g. induction bs as [|b rest IH]; intros g; [reflexivity|].
  cbn [nuke_loop].
  pose proof (nuke_brick_stage b g) as Hb.
  destruct (nuke_brick b g) as [b' g1]. cbn [snd] in Hb.
  specialize (IH g1).
  destruct (nuke_loop rest g1) as [rest' g2]. cbn [snd] in *.
  congruence.
Qed.

Lemma nuke_row_stage (io : ImGuiIO) (g : ArkanoidImpl) :
  stage (nuke_row io g) = stage g.
Proof.
  unfold nuke_row. destruct (KeysDown io GLFW_KEY_N); [|reflexivity].
  pose proof (nuke_loop_stage (bricks g) g) as H.
  destruct (nuke_loop (bricks g) g) as [bs g1]. exact H.
Qed.

Lemma one_shot_cheats_stage (g : ArkanoidImpl) :
  stage (one_shot_cheats g) = stage g.
Proof. unfold one_shot_cheats. changes_by_cases. Qed.

Lemma buff_timers_stage (dt : R) (g : ArkanoidImpl) :
  stage (buff_timers dt g) = stage g.
Proof. unfold buff_timers. changes_by_cases. Qed.

Lemma speed_interpolation_stage (dt : R) (g : ArkanoidImpl) :
  stage (speed_interpolation dt g) = stage g.
Proof. unfold speed_interpolation. changes_by_cases. Qed.

Lemma pierce_combo_timers_stage (dt : R) (g : ArkanoidImpl) :
  stage (pierce_combo_timers dt g) = stage g.
Proof. unfold pierce_combo_timers. changes_by_cases. Qed.

Lemma trail_step_stage (g : ArkanoidImpl) : stage (trail_step g) = stage g.
Proof.
  unfold trail_step. destruct (trail_mode g).
  - cbv zeta. destruct (_ <? _)%nat; reflexivity.
  - destruct (negb _); reflexivity.
Qed.

Lemma shop_message_step_stage (dt : R) (g : ArkanoidImpl) :
  stage (shop_message_step dt g) = stage g.
Proof.
  unfold shop_message_step. destruct (negb _); [|reflexivity].
  cbv zeta. destruct (fleb _ _); reflexivity.
Qed.

(** After the paddle has moved, the rest of the controls leave the stage
    alone. *)
Lemma handle_cheats_and_controls_stage (ext : Extern) (io : ImGuiIO) (dt : R)
    (g : ArkanoidImpl) :
  stage (handle_cheats_and_controls ext io dt g)
  = stage (move_carriage ext io dt g).
Proof.
  unfold handle_cheats_and_controls. cbv zeta.
  rewrite shop_message_step_stage, trail_step_stage, pierce_combo_timers_stage,
    speed_interpolation_stage, buff_timers_stage, one_shot_cheats_stage,
    nuke_row_stage, shop_hotkeys_stage, speed_pierce_hotkeys_stage.
  reflexivity.
Qed.

Lemma apply_bonus_rules (ext : Extern) (b : Bonus.t) (g : ArkanoidImpl) :
  rules (apply_bonus ext b g) = rules g.
Proof. unfold apply_bonus. destruct (Bonus.type b); reflexivity. Qed.

Lemma bonus_step_rules (ext : Extern) (dt : R) (b : Bonus.t) (g : ArkanoidImpl) :
  rules (snd (bonus_step ext dt b g)) = rules g.
Proof.
  unfold bonus_step. destruct (negb (Bonus.alive b)); [reflexivity|].
  cbv zeta.
  match goal with
  | |- context [if ?c then (?x, apply_bonus ext ?b' g) else _] =>
      destruct c
  end; cbn [snd]; [apply apply_bonus_rules | reflexivity].
Qed.

Lemma bonuses_loop_rules (ext : Extern) (dt : R) (bs : list Bonus.t)
    (g : ArkanoidImpl) :
  rules (snd (bonuses_loop ext dt bs g)) = rules g.
Proof.
  revert g. induction bs as [|b rest IH]; intros g; [reflexivity|].
  cbn [bonuses_loop].
  pose proof (bonus_step_rules ext dt b g) as Hb.
  destruct (bonus_step ext dt b g) as [b' g1]. cbn [snd] in Hb.
  specialize (IH g1).
  destruct (bonuses_loop ext dt rest g1) as [rest' g2]. cbn [snd] in *.
  congruence.
Qed.

Lemma integrate_bonuses_rules (ext : Extern) (dt : R) (g : ArkanoidImpl) :
  rules (integrate_bonuses ext dt g) = rules g.
Proof.
  unfold integrate_bonuses.
  pose proof (bonuses_loop_rules ext dt (bonuses g) g) as H.
  destruct (bonuses_loop ext dt (bonuses g) g) as [bs g1]. exact H.
Qed.

Lemma brick_hit_stage (ext : Extern) (n hit_pos : Vect) (b : Brick.t)
    (g : ArkanoidImpl) (hits : list Hit) :
  stage (snd (fst (brick_hit ext n hit_pos b g hits))) = stage g
  /\ pierce_mode (snd (fst (brick_hit ext n hit_pos b g hits))) = pierce_mode g.
Proof.
  unfold brick_hit.
  set (g1 := if negb (pierce_mode g) then reflect_ball ext n g else g).
  assert (H1 : stage g1 = stage g /\ pierce_mode g1 = pierce_mode g).
  { subst g1. destruct (negb (pierce_mode g)); [|split; reflexivity].
    through (reflect_ball_changes ext n g). split; reflexivity. }
  clearbody g1. destruct H1 as (<- & <-).
  destruct (Brick.hit_points b >? 1); cbv zeta; cbn [fst snd].
  - try peel_particles. split; reflexivity.
  - peel_speedup.
    destruct (Brick.bonus b); [destruct (bonus_of_choice _)|];
      unfold spawn_bonus_at; cbn; try peel_particles; split; reflexivity.
Qed.

Lemma bricks_loop_stage (ext : Extern) (bs : list Brick.t) (g : ArkanoidImpl)
    (hits : list Hit) :
  stage (snd (fst (bricks_loop ext bs g hits))) = stage g.
Proof.
  revert g hits. induction bs as [|b rest IH]; intros g hits; [reflexivity|].
  cbn [bricks_loop].
  destruct (negb (Brick.alive b)).
  - specialize (IH g hits).
    destruct (bricks_loop ext rest g hits) as [[rest' g1] hits1]. exact IH.
  - destruct (collide_ball_with_rect (Brick.rect_world b) g) as [[n hit_pos]|].
    + destruct (brick_hit_stage ext n hit_pos b g hits) as (Hs & _).
      destruct (brick_hit ext n hit_pos b g hits) as [[b' g1] hits1].
      cbn [fst snd] in Hs.
      destruct (negb (pierce_mode g1)); [exact Hs|].
      specialize (IH g1 hits1).
      destruct (bricks_loop ext rest g1 hits1) as [[rest' g2] hits2].
      cbn [fst snd] in *. congruence.
    + specialize (IH g hits).
      destruct (bricks_loop ext rest g hits) as [[rest' g1] hits1]. exact IH.
Qed.

Lemma handle_collisions_stage (ext : Extern) (hits : list Hit) (g : ArkanoidImpl) :
  stage (fst (handle_collisions ext hits g)) = stage g.
Proof.
  unfold handle_collisions.
  set (p := match collide_ball_with_rect (carriage_world g) g with
            | Some _ => _ | None => _ end).
  assert (Hp : stage (fst p) = stage g).
  { subst p.
    destruct (collide_ball_with_rect (carriage_world g) g) as [[n hit_pos]|];
      reflexivity. }
  destruct p as [g1 hits1]. cbn [fst] in Hp.
  pose proof (bricks_loop_stage ext (bricks g1) g1 hits1) as Hl.
  destruct (bricks_loop ext (bricks g1) g1 hits1) as [[bs g2] hits2].
  cbn [fst snd] in *. rewrite <- Hp, <- Hl. reflexivity.
Qed.

Lemma ball_moved_stage (ext : Extern) (dt : R) (g : ArkanoidImpl) :
  stage (ball_moved ext dt g) = stage g.
Proof.
  destruct (ball_moved_keeps ext dt g)
    as (H1 & H2 & _ & _ & _ & H3 & H4 & _ & H5 & _).
  unfold stage, rules. rewrite H1, H2, H3, H4, H5. reflexivity.
Qed.

(** The integration of the ball leaves the stage alone but for the game
    state, which it either keeps or sets to [Lose]. *)
Lemma integrate_ball_stage (ext : Extern) (dt : R) (g : ArkanoidImpl) :
  settings (integrate_ball ext dt g) = settings g
  /\ world_size (integrate_ball ext dt g) = world_size g
  /\ paused (integrate_ball ext dt g) = paused g
  /\ carriage_world (integrate_ball ext dt g) = carriage_world g
  /\ (state (integrate_ball ext dt g) = state g
      \/ state (integrate_ball ext dt g) = Lose).
Proof.
  pose proof (ball_moved_stage ext dt g) as Hm.
  unfold integrate_ball, ball_bottom.
  set (m := ball_moved ext dt g) in *. clearbody m.
  unfold stage, rules in Hm. injection Hm as H1 H2 H3 H4 H5.
  destruct (fltb _ _); [|repeat split; auto].
  destruct (negb (cheat_invincible m)); cbv zeta;
    match goal with |- context [if ?c then _ else _] => destruct c end;
    cbn; repeat split; auto.
Qed.

(** ** The paddle stays in the world *)

Lemma clamp_carriage_in_world (g : ArkanoidImpl) :
  (vx (size (carriage_world g)) <= vx (world_size g))%R ->
  paddle_in_world (clamp_carriage g).
Proof.
  intros H. unfold paddle_in_world, clamp_carriage. cbn.
  apply clampf_range. lra.
Qed.

Lemma move_carriage_in_world (ext : Extern) (io : ImGuiIO) (dt : R)
    (g : ArkanoidImpl) :
  world_fits ext (vx (world_size g)) ->
  (vx (size (carriage_world g)) <= vx (world_size g))%R ->
  paddle_in_world (move_carriage ext io dt g).
Proof.
  intros (H20 & Hmin) Hw. unfold move_carriage. cbv zeta.
  apply clamp_carriage_in_world. cbn.
  destruct (cheat_enlarge_paddle g).
  - apply clampf_upper; lra.
  - apply fmax_lub; lra.
Qed.

Lemma paddle_in_world_width (g : ArkanoidImpl) :
  paddle_in_world g -> (vx (size (carriage_world g)) <= vx (world_size g))%R.
Proof. unfold paddle_in_world. lra. Qed.

Lemma paddle_inv_stage (ext : Extern) (g g' : ArkanoidImpl) :
  stage g' = stage g -> paddle_inv ext g -> paddle_inv ext g'.
Proof.
  unfold stage, rules, paddle_inv, paddle_in_world.
  intros H. injection H as H1 H2 H3 H4 H5. rewrite H1, H2, H5. exact (fun x => x).
Qed.

Lemma apply_bonus_paddle_inv (ext : Extern) (b : Bonus.t) (g : ArkanoidImpl) :
  paddle_inv ext g -> paddle_inv ext (apply_bonus ext b g).
Proof.
  intros Hinv.
  destruct (Bonus.type b) eqn:Hty;
    try (apply (paddle_inv_stage ext g); [|exact Hinv];
         unfold apply_bonus; rewrite Hty; reflexivity).
  destruct Hinv as (Hp & (H20 & Hmin) & Hs).
  unfold apply_bonus. rewrite Hty. cbv zeta.
  split; [|split; [split; [exact H20 | exact Hmin] | exact Hs]].
  apply clamp_carriage_in_world. cbn.
  apply clampf_upper; lra.
Qed.

Lemma bonus_step_paddle_inv (ext : Extern) (dt : R) (b : Bonus.t)
    (g : ArkanoidImpl) :
  paddle_inv ext g -> paddle_inv ext (snd (bonus_step ext dt b g)).
Proof.
  intros Hinv. unfold bonus_step.
  destruct (negb (Bonus.alive b)); [exact Hinv|].
  cbv zeta.
  match goal with
  | |- context [if ?c then (?x, apply_bonus ext ?b' g) else _] =>
      destruct c
  end; cbn [snd]; [apply apply_bonus_paddle_inv|]; exact Hinv.
Qed.

Lemma bonuses_loop_paddle_inv (ext : Extern) (dt : R) (bs : list Bonus.t)
    (g : ArkanoidImpl) :
  paddle_inv ext g -> paddle_inv ext (snd (bonuses_loop ext dt bs g)).
Proof.
  revert g. induction bs as [|b rest IH]; intros g Hinv; [exact Hinv|].
  cbn [bonuses_loop].
  pose proof (bonus_step_paddle_inv ext dt b g Hinv) as Hb.
  destruct (bonus_step ext dt b g) as [b' g1]. cbn [snd] in Hb.
  specialize (IH g1 Hb).
  destruct (bonuses_loop ext dt rest g1) as [rest' g2]. exact IH.
Qed.

Lemma integrate_bonuses_paddle_inv (ext : Extern) (dt : R) (g : ArkanoidImpl) :
  paddle_inv ext g -> paddle_inv ext (integrate_bonuses ext dt g).
Proof.
  intros Hinv. unfold integrate_bonuses.
  pose proof (bonuses_loop_paddle_inv ext dt (bonuses g) g Hinv) as H.
  destruct (bonuses_loop ext dt (bonuses g) g) as [bs g1]. exact H.
Qed.

Lemma reset_paddle_inv (ext : Extern) (s : ArkanoidSettings.t) (g : ArkanoidImpl) :
  world_fits ext (vx (ArkanoidSettings.world_size s)) ->
  paddle_inv ext (reset ext s g).
Proof.
  intros (H20 & Hmin).
  unfold paddle_inv, paddle_in_world, world_fits.
  change (settings (reset ext s g)) with s.
  change (world_size (reset ext s g))
    with (mkVect (vx (ArkanoidSettings.world_size s))
                 (vy (ArkanoidSettings.world_size s))).
  change (carriage_world (reset ext s g))
    with (make_rect_xywh
            ((vx (ArkanoidSettings.world_size s)
              - clampf (ArkanoidSettings.carriage_width s)
                       (carriage_width_min ext)
                       (vx (ArkanoidSettings.world_size s) * 0.95)) * 0.5)
            (vy (ArkanoidSettings.world_size s) - 40)
            (clampf (ArkanoidSettings.carriage_width s)
                    (carriage_width_min ext)
                    (vx (ArkanoidSettings.world_size s) * 0.95))
            (carriage_height g)).
  cbn.
  assert (Hcw : (clampf (ArkanoidSettings.carriage_width s)
                        (carriage_width_min ext)
                        (vx (ArkanoidSettings.world_size s) * 0.95)
                 <= vx (ArkanoidSettings.world_size s))%R)
    by (apply clampf_upper; lra).
  repeat split; lra.
Qed.

Lemma update_paddle_inv (ext : Extern) (io : ImGuiIO) (elapsed : R)
    (g : ArkanoidImpl) :
  paddle_inv ext g -> paddle_inv ext (fst (update ext io elapsed g)).
Proof.
  intros Hinv. unfold update.
  set (g1 := set_screen_scale (world_to_screen_scale io g) g).
  assert (H1 : paddle_inv ext g1) by exact Hinv.
  clearbody g1. cbv zeta.
  assert (H2 : paddle_inv ext (snd (slowmo_step elapsed g1))).
  { unfold slowmo_step. destruct (slowmo_mode g1); [|exact H1].
    cbv zeta. cbn [snd]. destruct (fleb _ _); exact H1. }
  destruct (slowmo_step elapsed g1) as [dt g2]. cbn [snd] in H2.
  destruct (negb (GameState_eqb (state g2) Playing)).
  - cbn [fst]. destruct (KeysDown io GLFW_KEY_R); [|exact H2].
    apply reset_paddle_inv. apply H2.
  - set (g3 := grant_money_from_score g2).
    assert (H3 : paddle_inv ext g3)
      by (apply (paddle_inv_stage ext g2);
          [apply grant_money_from_score_stage | exact H2]).
    clearbody g3.
    assert (H4 : paddle_inv ext (handle_cheats_and_controls ext io dt g3)).
    { destruct H3 as (Hp & Hw & Hs).
      pose proof (handle_cheats_and_controls_stage ext io dt g3) as Hst.
      pose proof (move_carriage_in_world ext io dt g3 Hw
                    (paddle_in_world_width g3 Hp)) as Hm.
      apply (paddle_inv_stage ext (move_carriage ext io dt g3)); [exact Hst|].
      split; [exact Hm | split; [exact Hw | exact Hs]]. }
    set (g4 := handle_cheats_and_controls ext io dt g3) in *. clearbody g4.
    destruct (paused g4); [exact H4|].
    unfold launch_ball_if_needed.
    assert (H5 : paddle_inv ext (integrate_ball ext dt g4)).
    { destruct (integrate_ball_stage ext dt g4) as (E1 & E2 & _ & E3 & _).
      unfold paddle_inv, paddle_in_world. rewrite E1, E2, E3. exact H4. }
    set (g5 := integrate_ball ext dt g4) in *. clearbody g5.
    pose proof (integrate_bonuses_paddle_inv ext dt g5 H5) as H6.
    set (g6 := integrate_bonuses ext dt g5) in *. clearbody g6.
    assert (H7 : paddle_inv ext (integrate_particles dt g6)) by exact H6.
    set (g7 := integrate_particles dt g6) in *. clearbody g7.
    pose proof (handle_collisions_stage ext [] g7) as H8.
    destruct (handle_collisions ext [] g7) as [g8 hits]. cbn [fst] in *.
    apply (paddle_inv_stage ext g7) in H8; [|exact H7].
    destruct (negb (existsb Brick.alive (bricks g8))); exact H8.
Qed.

(** Started by a [reset] on settings whose world is at least as wide as
    the narrowest paddles (20, and the configured minimum width), the
    paddle's left edge stays within [0, world width - paddle width] after
    every frame, whatever the inputs and the elapsed times. *)
Theorem paddle_stays_in_world (ext : Extern) (s : ArkanoidSettings.t)
    (g0 : ArkanoidImpl) (frames : list (ImGuiIO * R)) :
  world_fits ext (vx (ArkanoidSettings.world_size s)) ->
  paddle_in_world (run_frames ext frames (reset ext s g0)).
Proof.
  intros Hfit.
  assert (Hinv : paddle_inv ext (reset ext s g0))
    by (apply reset_paddle_inv; exact Hfit).
  revert Hinv. generalize (reset ext s g0).
  unfold run_frames.
  induction frames as [|f rest IH]; intros g Hinv; cbn [fold_left].
  - apply Hinv.
  - apply IH. apply update_paddle_inv. exact Hinv.
Qed.

Lemma paddle_stays_in_world_witness :
  paddle_in_world
    (run_frames demo_extern [(no_keys, 0.016%R); (no_keys, 0.016%R)]
                (reset demo_extern demo_settings demo_game)).
Proof.
  apply (paddle_stays_in_world demo_extern demo_settings demo_game).
  unfold world_fits. cbn. lra.
Defined.

(** ** The game state machine *)

Lemma slowmo_step_changes (elapsed : R) (g : ArkanoidImpl) :
  let g' := snd (slowmo_step elapsed g) in
  g' = set_slowmo_mode (slowmo_mode g') (set_slowmo_timer (slowmo_timer g') g).
Proof. unfold slowmo_step. changes_by_cases. Qed.




Lemma existsb_alive_false (bs : list Brick.t) :
  existsb Brick.alive bs = false <-> Forall (fun b => Brick.alive b = false) bs.
Proof.
  induction bs as [|b rest IH]; cbn.
  - split; [constructor | reflexivity].
  - rewrite orb_false_iff, IH. split.
    + intros (Hb & Hr). constructor; assumption.
    + intros H. inversion H; subst. split; assumption.
Qed.

(** [integrate_ball] sets [Lose] exactly when the ball, once moved, is
    below the bottom line and no life is left after the loss. *)
Lemma integrate_ball_lose_iff (ext : Extern) (dt : R) (g : ArkanoidImpl) :
  state g = Playing ->
  (state (integrate_ball ext dt g) = Lose
   <-> (vy (world_size g) + ball_radius g
        < vy (ball_pos (ball_moved ext dt g)))%R
       /\ lives (integrate_ball ext dt g) <= 0).
Proof.
  intros Hst.
  destruct (ball_moved_keeps ext dt g)
    as (_ & Hw & Hr & _ & _ & Hs & _).
  unfold integrate_ball, ball_bottom.
  set (m := ball_moved ext dt g) in *. clearbody m.
  rewrite Hw, Hr.
  destruct (fltb _ _) eqn:E;
    [apply fltb_true_iff in E | apply fltb_false_iff in E].
  - destruct (negb (cheat_invincible m)); cbv zeta;
      match goal with |- context [if ?c then _ else _] =>
        destruct c eqn:El end;
      [apply Z.leb_le in El | apply Z.leb_gt in El
      | apply Z.leb_le in El | apply Z.leb_gt in El];
      cbn in *; (split; [intros H | intros (_ & H)]);
      try (split; [exact E | exact El]); try reflexivity;
      try congruence; try lia.
  - split; [intros H; congruence | intros (H & _); lra].
Qed.

(** A frame that starts in [Playing].  Paused, it stays in [Playing].
    Not paused, it ends in [Win] exactly when no brick is alive at its end
    (this test runs last, so it overrides a [Lose] of the same frame), and
    in [Lose] exactly when some brick is still alive and the integration
    of the ball found it below the bottom line with no life left. *)
Theorem update_playing_outcome (ext : Extern) (io : ImGuiIO) (elapsed : R)
    (g : ArkanoidImpl) :
  state g = Playing ->
  let g' := fst (update ext io elapsed g) in
  let dt := fst (after_controls ext io elapsed g) in
  let gc := snd (after_controls ext io elapsed g) in
  (paused g = true -> state g' = Playing)
  /\ (paused g = false ->
        (state g' = Win <-> Forall (fun b => Brick.alive b = false) (bricks g'))
        /\ (state g' = Lose
            <-> existsb Brick.alive (bricks g') = true
                /\ (vy (world_size gc) + ball_radius gc
                    < vy (ball_pos (ball_moved ext dt gc)))%R
                /\ lives (integrate_ball ext dt gc) <= 0)).
Proof.
  intros Hst g' dt gc. subst g' dt gc. unfold update, after_controls.
  set (g1 := set_screen_scale (world_to_screen_scale io g) g).
  cbv zeta.
  pose proof (slowmo_step_changes elapsed g1) as Hs. cbv zeta in Hs.
  destruct (slowmo_step elapsed g1) as [dt g2]. cbn [fst snd] in *.
  assert (Hst2 : state g2 = Playing) by (rewrite Hs; exact Hst).
  assert (Hp2 : paused g2 = paused g) by (rewrite Hs; reflexivity).
  rewrite Hst2. cbn [GameState_eqb negb].
  pose proof (handle_cheats_and_controls_stage ext io dt
                (grant_money_from_score g2)) as H4.
  pose proof (grant_money_from_score_stage g2) as H3.
  set (g4 := handle_cheats_and_controls ext io dt (grant_money_from_score g2))
    in *.
  assert (Hst4 : state g4 = Playing /\ paused g4 = paused g).
  { unfold stage, rules in H3, H4.
    change (state (move_carriage ext io dt (grant_money_from_score g2)))
      with (state (grant_money_from_score g2)) in H4.
    change (paused (move_carriage ext io dt (grant_money_from_score g2)))
      with (paused (grant_money_from_score g2)) in H4.
    injection H3 as _ _ E3 E4 _. injection H4 as _ _ F3 F4 _.
    split; congruence. }
  clearbody g4. clear H3 H4. destruct Hst4 as (Hst4 & Hp4).
  rewrite Hp4. split.
  - intros ->. cbn [fst]. exact Hst4.
  - intros ->. unfold launch_ball_if_needed.
    pose proof (integrate_ball_lose_iff ext dt g4 Hst4) as Hlose.
    destruct (integrate_ball_stage ext dt g4) as (_ & _ & _ & _ & Hst5).
    rewrite Hst4 in Hst5.
    set (g5 := integrate_ball ext dt g4) in *. clearbody g5.
    pose proof (integrate_bonuses_rules ext dt g5) as H6.
    set (g6 := integrate_bonuses ext dt g5) in *. clearbody g6.
    pose proof (handle_collisions_stage ext [] (integrate_particles dt g6)) as H8.
    destruct (handle_collisions ext [] (integrate_particles dt g6))
      as [g8 hits]. cbn [fst] in *.
    assert (Hst8 : state g8 = state g5).
    { unfold stage, rules in H6, H8.
      change (state (integrate_particles dt g6)) with (state g6) in H8.
      injection H6 as _ _ E _. injection H8 as _ _ F _. congruence. }
    clear H6 H8.
    destruct (existsb Brick.alive (bricks g8)) eqn:Ea; cbn [negb].
    + split.
      * split; [intros H; destruct Hst5; congruence|].
        intros H. apply existsb_alive_false in H. congruence.
      * rewrite Hst8, Hlose. tauto.
    + cbn. split.
      * split; [intros _; apply existsb_alive_false; exact Ea | reflexivity].
      * split; [discriminate | intros (H & _); congruence].
Qed.

Lemma update_playing_outcome_witness :
  state (fst (update demo_extern no_keys 0.016 (set_paused true demo_game)))
  = Playing.
Proof.
  destruct (update_playing_outcome demo_extern no_keys 0.016
              (set_paused true demo_game) eq_refl) as (Hpaused & _).
  exact (Hpaused eq_refl).
Defined.

(** ** Circle against rectangle *)

Lemma clampf_closest (v lo hi p : R) :
  (lo <= hi)%R -> (lo <= p <= hi)%R ->
  ((v - clampf v lo hi) * (v - clampf v lo hi) <= (v - p) * (v - p))%R.
Proof.
  intros Hle Hp. unfold clampf, fmax, fmin.
  pose proof (Rle_0_sqr (v - p)) as Hsq. unfold Rsqr in Hsq.
  fcases; try lra;
    first [ assert (0 <= (p - lo) * (p + lo - 2 * v))%R
              by (apply Rmult_le_pos; lra); lra
          | assert (0 <= (hi - p) * (2 * v - hi - p))%R
              by (apply Rmult_le_pos; lra); lra
          | assert (p = lo) by lra; subst p; lra
          | assert (p = hi) by lra; subst p; lra ].
Qed.

(** [collide_ball_with_rect] reports a collision exactly when the disc of
    the ball meets the rectangle: on a hit, the hit position is the point
    of the rectangle closest to the ball's centre, it is within the radius
    of the centre, and the normal is one of the four axis normals; on a
    miss, every point of the rectangle is farther from the centre than
    the radius. *)
Theorem collide_ball_with_rect_spec (r : Rect) (g : ArkanoidImpl) :
  (0 <= vx (size r))%R -> (0 <= vy (size r))%R ->
  match collide_ball_with_rect r g with
  | Some (n, hit_pos) =>
      axis_normal n /\ in_rect hit_pos r
      /\ (LengthSquared (vsub (ball_pos g) hit_pos)
          <= ball_radius g * ball_radius g)%R
      /\ forall p, in_rect p r ->
           (LengthSquared (vsub (ball_pos g) hit_pos)
            <= LengthSquared (vsub (ball_pos g) p))%R
  | None =>
      forall p, in_rect p r ->
        (ball_radius g * ball_radius g < LengthSquared (vsub (ball_pos g) p))%R
  end.
Proof.
  intros Hw Hh. unfold collide_ball_with_rect. cbv zeta.
  set (cx := clampf (vx (ball_pos g)) (vx (pos r)) (vx (pos r) + vx (size r))).
  set (cy := clampf (vy (ball_pos g)) (vy (pos r)) (vy (pos r) + vy (size r))).
  assert (Hcx : (vx (pos r) <= cx <= vx (pos r) + vx (size r))%R)
    by (apply clampf_range; lra).
  assert (Hcy : (vy (pos r) <= cy <= vy (pos r) + vy (size r))%R)
    by (apply clampf_range; lra).
  assert (Hclosest : forall p, in_rect p r ->
            (LengthSquared (vsub (ball_pos g) (mkVect cx cy))
             <= LengthSquared (vsub (ball_pos g) p))%R).
  { intros p (Hpx & Hpy). unfold LengthSquared, vsub. cbn.
    assert (Hx : ((vx (ball_pos g) - cx) * (vx (ball_pos g) - cx)
                  <= (vx (ball_pos g) - vx p) * (vx (ball_pos g) - vx p))%R)
      by (subst cx; apply clampf_closest; [lra | exact Hpx]).
    assert (Hy : ((vy (ball_pos g) - cy) * (vy (ball_pos g) - cy)
                  <= (vy (ball_pos g) - vy p) * (vy (ball_pos g) - vy p))%R)
      by (subst cy; apply clampf_closest; [lra | exact Hpy]).
    lra. }
  destruct (fltb _ _) eqn:E;
    [apply fltb_true_iff in E | apply fltb_false_iff in E].
  - intros p Hp. specialize (Hclosest p Hp). lra.
  - split; [|split; [split; assumption | split; [exact E | exact Hclosest]]].
    unfold axis_normal.
    destruct (feqb _ _); [auto|].
    destruct (feqb _ _); [auto|].
    destruct (feqb _ _); auto.
Qed.

Lemma collide_ball_with_rect_spec_witness :
  match collide_ball_with_rect (make_rect_xywh 20 40 70 40) demo_flying_ball with
  | Some (n, hit_pos) => axis_normal n /\ in_rect hit_pos (make_rect_xywh 20 40 70 40)
  | None =>
      (ball_radius demo_flying_ball * ball_radius demo_flying_ball
       < LengthSquared (vsub (ball_pos demo_flying_ball) (mkVect 90 80)))%R
  end.
Proof.
  assert (Hw : (0 <= vx (size (make_rect_xywh 20 40 70 40)))%R) by (cbn; lra).
  assert (Hh : (0 <= vy (size (make_rect_xywh 20 40 70 40)))%R) by (cbn; lra).
  pose proof (collide_ball_with_rect_spec (make_rect_xywh 20 40 70 40)
                demo_flying_ball Hw Hh) as H.
  destruct (collide_ball_with_rect (make_rect_xywh 20 40 70 40) demo_flying_ball)
    as [[n hit_pos]|].
  - destruct H as (Hn & Hin & _). split; assumption.
  - apply H. unfold in_rect. cbn. lra.
Defined.

(** ** The bounce off the paddle *)

(** A hit on a paddle at least one unit wide, at a point within its
    width, sends the ball upward at exactly the current speed: to the
    left when the hit is left of the paddle's centre, to the right when it
    is right of it, and straight up from the centre. *)
Theorem bounce_from_carriage_upward (r : Rect) (hit_pos : Vect)
    (g : ArkanoidImpl) :
  (1 <= vx (size r))%R ->
  (vx (pos r) <= vx hit_pos <= vx (pos r) + vx (size r))%R ->
  (0 < ball_speed_cur g)%R ->
  let v' := ball_vel (bounce_from_carriage r hit_pos g) in
  Length v' = ball_speed_cur g
  /\ (vy v' < 0)%R
  /\ (vx hit_pos < vx (rect_center r) -> vx v' < 0)%R
  /\ (vx hit_pos = vx (rect_center r) -> vx v' = 0)%R
  /\ (vx (rect_center r) < vx hit_pos -> 0 < vx v')%R.
Proof.
  intros Hw Hhit Hc v'. subst v'. unfold bounce_from_carriage. cbn.
  assert (Hmax : fmax 1 (vx (size r)) = vx (size r)).
  { unfold fmax. destruct (fltb 1 (vx (size r))) eqn:E; [reflexivity|].
    apply fltb_false_iff in E. lra. }
  rewrite Hmax.
  set (t := ((vx hit_pos - vx (pos r)) / vx (size r))%R).
  assert (Ht : (t * vx (size r) = vx hit_pos - vx (pos r))%R)
    by (subst t; field; lra).
  assert (Ht01 : (0 <= t <= 1)%R) by (split; nra).
  set (angle := ((t - 0.5) * 1.2)%R).
  assert (Ha : (-0.6 <= angle <= 0.6)%R) by (subst angle; lra).
  pose proof PI2_1 as Hpi.
  assert (Hcos : (0 < cos angle)%R) by (apply cos_gt_0; lra).
  split; [|split; [|split; [|split]]].
  - unfold Length, LengthSquared. cbn.
    pose proof (sin2_cos2 angle) as Hsc. unfold Rsqr in Hsc.
    replace (sin angle * ball_speed_cur g * (sin angle * ball_speed_cur g)
             + - cos angle * ball_speed_cur g * (- cos angle * ball_speed_cur g))%R
      with ((sin angle * sin angle + cos angle * cos angle)
            * (ball_speed_cur g * ball_speed_cur g))%R by ring.
    rewrite Hsc, Rmult_1_l. apply sqrt_square. lra.
  - nra.
  - unfold rect_center. cbn. intros Hl.
    assert (Hneg : (angle < 0)%R) by (subst angle; nra).
    assert (Hs : (sin angle < 0)%R) by (apply sin_lt_0_var; lra).
    nra.
  - unfold rect_center. cbn. intros He.
    assert (Hz : angle = 0%R) by (subst angle; nra).
    rewrite Hz, sin_0. lra.
  - unfold rect_center. cbn. intros Hr.
    assert (Hpos : (0 < angle)%R) by (subst angle; nra).
    assert (Hs : (0 < sin angle)%R) by (apply sin_gt_0; lra).
    nra.
Qed.

Lemma bounce_from_carriage_upward_witness :
  (vy (ball_vel (bounce_from_carriage (make_rect_xywh 350 560 100 18)
                                      (mkVect 400 560) demo_game)) < 0)%R
  /\ vx (ball_vel (bounce_from_carriage (make_rect_xywh 350 560 100 18)
                                        (mkVect 400 560) demo_game)) = 0%R.
Proof.
  assert (H1 : (1 <= vx (size (make_rect_xywh 350 560 100 18)))%R) by (cbn; lra).
  assert (H2 : (vx (pos (make_rect_xywh 350 560 100 18)) <= vx (mkVect 400 560)
                <= vx (pos (make_rect_xywh 350 560 100 18))
                   + vx (size (make_rect_xywh 350 560 100 18)))%R) by (cbn; lra).
  assert (H3 : (0 < ball_speed_cur demo_game)%R) by (cbn; lra).
  destruct (bounce_from_carriage_upward (make_rect_xywh 350 560 100 18)
              (mkVect 400 560) demo_game H1 H2 H3) as (_ & Hup & _ & Hmid & _).
  split; [exact Hup|]. apply Hmid. cbn. lra.
Defined.

(** ** More steps, and the fields they replace *)

Lemma move_carriage_changes (ext : Extern) (io : ImGuiIO) (dt : R)
    (g : ArkanoidImpl) :
  let g' := move_carriage ext io dt g in
  g' = set_carriage_world (carriage_world g') g.
Proof. unfold move_carriage, clamp_carriage. changes_by_cases. Qed.

Lemma speed_pierce_hotkeys_changes (io : ImGuiIO) (g : ArkanoidImpl) :
  let g' := speed_pierce_hotkeys io g in
  g' = set_pierce_timer (pierce_timer g')
         (set_pierce_mode (pierce_mode g')
            (set_ball_speed_target (ball_speed_target g') g)).
Proof.
  unfold speed_pierce_hotkeys.
  destruct (KeysDown io GLFW_KEY_1), (KeysDown io GLFW_KEY_2),
    (KeysDown io GLFW_KEY_3), (KeysDown io GLFW_KEY_C);
    destruct g; reflexivity.
Qed.

Lemma one_shot_cheats_changes (g : ArkanoidImpl) :
  let g' := one_shot_cheats g in
  g' = set_ball_speed_target (ball_speed_target g')
         (set_cheat_extra_life (cheat_extra_life g')
            (set_lives (lives g') g)).
Proof. unfold one_shot_cheats. changes_by_cases. Qed.

Lemma buff_timers_changes (dt : R) (g : ArkanoidImpl) :
  let g' := buff_timers dt g in
  g' = set_score_mult_value (score_mult_value g')
         (set_score_mult_timer (score_mult_timer g')
            (set_score_mult_active (score_mult_active g')
               (set_magnet_timer (magnet_timer g')
                  (set_magnet_active (magnet_active g') g)))).
Proof. unfold buff_timers. changes_by_cases. Qed.

Lemma speed_interpolation_changes (dt : R) (g : ArkanoidImpl) :
  let g' := speed_interpolation dt g in
  g' = set_ball_speed_cur (ball_speed_cur g') g.
Proof. unfold speed_interpolation. changes_by_cases. Qed.

Lemma pierce_combo_timers_changes (dt : R) (g : ArkanoidImpl) :
  let g' := pierce_combo_timers dt g in
  g' = set_combo_mult (combo_mult g')
         (set_combo_timer (combo_timer g')
            (set_pierce_timer (pierce_timer g')
               (set_pierce_mode (pierce_mode g') g))).
Proof. unfold pierce_combo_timers. changes_by_cases. Qed.

Lemma trail_step_changes (g : ArkanoidImpl) :
  let g' := trail_step g in
  g' = set_ball_trail (ball_trail g') g.
Proof. unfold trail_step. destruct g. cbn -[Nat.ltb]. fcases; reflexivity. Qed.

Lemma shop_message_step_changes (dt : R) (g : ArkanoidImpl) :
  let g' := shop_message_step dt g in
  g' = set_shop_message_timer (shop_message_timer g')
         (set_shop_message (shop_message g') g).
Proof. unfold shop_message_step. changes_by_cases. Qed.

Lemma ball_bottom_changes (g : ArkanoidImpl) :
  let g' := ball_bottom g in
  g' = set_state (state g')
         (set_ball_vel (ball_vel g')
            (set_ball_pos (ball_pos g')
               (set_pierce_timer (pierce_timer g')
                  (set_pierce_mode (pierce_mode g')
                     (set_combo_timer (combo_timer g')
                        (set_combo_mult (combo_mult g')
                           (set_lives (lives g') g))))))).
Proof. unfold ball_bottom. changes_by_cases. Qed.

Lemma buy_on_key_keeps {A : Type} (f : ArkanoidImpl -> A) (io : ImGuiIO)
    (key cost : Z) (effect : ArkanoidImpl -> ArkanoidImpl) (g : ArkanoidImpl) :
  (forall g, f (effect g) = f g) ->
  (forall g, f (snd (try_purchase cost g)) = f g) ->
  f (buy_on_key io key cost effect g) = f g.
Proof.
  intros He Hp. unfold buy_on_key.
  destruct (KeysDown io key); [|reflexivity].
  specialize (Hp g). destruct (try_purchase cost g) as [ok g1]. cbn [snd] in Hp.
  destruct ok; [rewrite He|]; exact Hp.
Qed.

Lemma nuke_loop_keeps {A : Type} (f : ArkanoidImpl -> A) :
  (forall b g, f (snd (nuke_brick b g)) = f g) ->
  forall bs g, f (snd (nuke_loop bs g)) = f g.
Proof.
  intros Hb bs. induction bs as [|b rest IH]; intros g; [reflexivity|].
  cbn [nuke_loop]. specialize (Hb b g).
  destruct (nuke_brick b g) as [b' g1]. cbn [snd] in Hb.
  specialize (IH g1).
  destruct (nuke_loop rest g1) as [rest' g2]. cbn [snd] in *. congruence.
Qed.

Lemma bonuses_loop_keeps {A : Type} (f : ArkanoidImpl -> A) (ext : Extern)
    (dt : R) :
  (forall b g, f (apply_bonus ext b g) = f g) ->
  forall bs g, f (snd (bonuses_loop ext dt bs g)) = f g.
Proof.
  intros Ha bs. induction bs as [|b rest IH]; intros g; [reflexivity|].
  cbn [bonuses_loop].
  assert (Hb : f (snd (bonus_step ext dt b g)) = f g).
  { unfold bonus_step. destruct (negb (Bonus.alive b)); [reflexivity|].
    cbv zeta.
    match goal with
    | |- context [if ?c then (?x, apply_bonus ext ?b' g) else _] => destruct c
    end; cbn [snd]; [apply Ha | reflexivity]. }
  destruct (bonus_step ext dt b g) as [b' g1]. cbn [snd] in Hb.
  specialize (IH g1).
  destruct (bonuses_loop ext dt rest g1) as [rest' g2]. cbn [snd] in *.
  congruence.
Qed.

Lemma bricks_loop_keeps {A : Type} (f : ArkanoidImpl -> A) (ext : Extern) :
  (forall n hit_pos b g hits,
      f (snd (fst (brick_hit ext n hit_pos b g hits))) = f g) ->
  forall bs g hits, f (snd (fst (bricks_loop ext bs g hits))) = f g.
Proof.
  intros Hh bs. induction bs as [|b rest IH]; intros g hits; [reflexivity|].
  cbn [bricks_loop].
  destruct (negb (Brick.alive b)).
  - specialize (IH g hits).
    destruct (bricks_loop ext rest g hits) as [[rest' g1] hits1]. exact IH.
  - destruct (collide_ball_with_rect (Brick.rect_world b) g) as [[n hit_pos]|].
    + specialize (Hh n hit_pos b g hits).
      destruct (brick_hit ext n hit_pos b g hits) as [[b' g1] hits1].
      cbn [fst snd] in Hh.
      destruct (negb (pierce_mode g1)); [exact Hh|].
      specialize (IH g1 hits1).
      destruct (bricks_loop ext rest g1 hits1) as [[rest' g2] hits2].
      cbn [fst snd] in *. congruence.
    + specialize (IH g hits).
      destruct (bricks_loop ext rest g hits) as [[rest' g1] hits1]. exact IH.
Qed.

(** ** A paused frame *)

Lemma shop_hotkeys_keeps {A : Type} (f : ArkanoidImpl -> A) (io : ImGuiIO)
    (g : ArkanoidImpl) :
  (forall v g, f (set_balance v g) = f g) ->
  (forall v g, f (set_shop_message v g) = f g) ->
  (forall v g, f (set_shop_message_timer v g) = f g) ->
  (forall v g, f (set_magnet_active v g) = f g) ->
  (forall v g, f (set_magnet_timer v g) = f g) ->
  (forall v g, f (set_score_mult_active v g) = f g) ->
  (forall v g, f (set_score_mult_timer v g) = f g) ->
  (forall v g, f (set_score_mult_value v g) = f g) ->
  (forall v g, f (set_cheat_freeze_ball v g) = f g) ->
  (forall v g, f (set_cheat_invincible v g) = f g) ->
  (forall v g, f (set_lives v g) = f g) ->
  f (shop_hotkeys io g) = f g.
Proof.
  intros Hb Hm Ht H1 H2 H3 H4 H5 H6 H7 H8.
  assert (Hp : forall cost g, f (snd (try_purchase cost g)) = f g).
  { intros cost g0. rewrite (try_purchase_changes cost g0).
    rewrite Ht, Hm, Hb. reflexivity. }
  unfold shop_hotkeys. cbv zeta.
  rewrite buy_on_key_keeps; [| intros; apply H8 | apply Hp].
  rewrite buy_on_key_keeps; [| intros; rewrite Ht; apply H7 | apply Hp].
  rewrite buy_on_key_keeps; [| intros; apply H6 | apply Hp].
  rewrite buy_on_key_keeps;
    [| intros; rewrite H5, H4; apply H3 | apply Hp].
  rewrite buy_on_key_keeps; [| intros; rewrite H2; apply H1 | apply Hp].
  reflexivity.
Qed.

Lemma nuke_row_keeps {A : Type} (f : ArkanoidImpl -> A) (io : ImGuiIO)
    (g : ArkanoidImpl) :
  (forall v g, f (set_bricks v g) = f g) ->
  (forall v g, f (set_score v g) = f g) ->
  (forall v g, f (set_destroyed_bricks_count v g) = f g) ->
  (forall v g, f (set_ball_speed_target v g) = f g) ->
  f (nuke_row io g) = f g.
Proof.
  intros Hb Hs Hd Ht. unfold nuke_row.
  destruct (KeysDown io GLFW_KEY_N); [|reflexivity].
  assert (Hl : f (snd (nuke_loop (bricks g) g)) = f g).
  { apply nuke_loop_keeps. intros b g0. unfold nuke_brick.
    destruct (negb (Brick.alive b)); [reflexivity|].
    destruct (_ && _); [|reflexivity].
    cbn [snd]. rewrite (speedup_if_due_changes _).
    rewrite Ht, Hd, Hs. reflexivity. }
  destruct (nuke_loop (bricks g) g) as [bs g1]. cbn [snd] in Hl.
  rewrite Hb. exact Hl.
Qed.

(** Reading a field through the controls, block by block from the last:
    first the blocks after the nuke row, then the nuke-row block (read
    through when the field is none of those it replaces, or when its key
    is known to be up), then the hotkeys before it. *)
Ltac read_through_late_controls f :=
  unfold handle_cheats_and_controls; cbv zeta;
  rewrite (shop_message_step_changes _ _);
  change (f (set_shop_message_timer ?a (set_shop_message ?b ?x))) with (f x);
  rewrite (trail_step_changes _);
  change (f (set_ball_trail ?a ?x)) with (f x);
  rewrite (pierce_combo_timers_changes _ _);
  change (f (set_combo_mult ?a (set_combo_timer ?b
               (set_pierce_timer ?c (set_pierce_mode ?d ?x)))))
    with (f x);
  rewrite (speed_interpolation_changes _ _);
  change (f (set_ball_speed_cur ?a ?x)) with (f x);
  rewrite (buff_timers_changes _ _);
  change (f (set_score_mult_value ?a (set_score_mult_timer ?b
               (set_score_mult_active ?c (set_magnet_timer ?d
                  (set_magnet_active ?e ?x))))))
    with (f x);
  rewrite (one_shot_cheats_changes _);
  change (f (set_ball_speed_target ?a (set_cheat_extra_life ?b
               (set_lives ?c ?x))))
    with (f x).

Ltac read_through_hotkeys f :=
  rewrite shop_hotkeys_keeps by reflexivity;
  rewrite (speed_pierce_hotkeys_changes _ _);
  change (f (set_pierce_timer ?a (set_pierce_mode ?b
               (set_ball_speed_target ?c ?x))))
    with (f x).

Ltac read_through_controls f :=
  read_through_late_controls f;
  first [ rewrite nuke_row_keeps by reflexivity
        | match goal with
          | H : KeysDown ?io GLFW_KEY_N = false |- _ =>
              unfold nuke_row; rewrite H
          end ];
  read_through_hotkeys f.

(** The controls keep the playfield: they move the paddle, run the
    timers and the shop, but neither the ball nor a bonus nor a particle;
    and with the nuke key up they keep the bricks. *)
Lemma handle_cheats_and_controls_playfield (ext : Extern) (io : ImGuiIO)
    (dt : R) (g : ArkanoidImpl) :
  playfield (handle_cheats_and_controls ext io dt g) = playfield g.
Proof. read_through_controls playfield. reflexivity. Qed.

Lemma handle_cheats_and_controls_bricks (ext : Extern) (io : ImGuiIO)
    (dt : R) (g : ArkanoidImpl) :
  KeysDown io GLFW_KEY_N = false ->
  bricks (handle_cheats_and_controls ext io dt g) = bricks g.
Proof. intros HN. read_through_controls bricks. reflexivity. Qed.

(** In a paused frame of a game in [Playing] nothing moves on the
    playfield: the ball, the bonuses and the particles are as they were,
    no collision is handled (no hit is reported), the state stays
    [Playing] and paused, and the bricks are untouched unless the nuke-row
    key is down.  (The controls still run in such a frame: the paddle
    moves and the timers count down.) *)
Theorem paused_frame_frozen (ext : Extern) (io : ImGuiIO) (elapsed : R)
    (g : ArkanoidImpl) :
  state g = Playing -> paused g = true ->
  let g' := fst (update ext io elapsed g) in
  playfield g' = playfield g
  /\ snd (update ext io elapsed g) = []
  /\ state g' = Playing /\ paused g' = true
  /\ (KeysDown io GLFW_KEY_N = false -> bricks g' = bricks g).
Proof.
  intros Hst Hp g'. subst g'. unfold update.
  set (g1 := set_screen_scale (world_to_screen_scale io g) g).
  cbv zeta.
  pose proof (slowmo_step_changes elapsed g1) as Hs. cbv zeta in Hs.
  destruct (slowmo_step elapsed g1) as [dt g2]. cbn [fst snd] in *.
  assert (H2 : state g2 = Playing /\ paused g2 = true
               /\ playfield g2 = playfield g /\ bricks g2 = bricks g).
  { rewrite Hs. cbn. auto. }
  destruct H2 as (Hst2 & Hp2 & Hf2 & Hb2).
  rewrite Hst2. cbn [GameState_eqb negb].
  pose proof (handle_cheats_and_controls_stage ext io dt
                (grant_money_from_score g2)) as H4.
  pose proof (grant_money_from_score_stage g2) as H3.
  pose proof (handle_cheats_and_controls_playfield ext io dt
                (grant_money_from_score g2)) as Hf4.
  assert (Hf3 : playfield (grant_money_from_score g2) = playfield g2)
    by (rewrite (grant_money_from_score_changes g2); reflexivity).
  assert (Hb3 : bricks (grant_money_from_score g2) = bricks g2)
    by (rewrite (grant_money_from_score_changes g2); reflexivity).
  assert (Hb4 : KeysDown io GLFW_KEY_N = false ->
                bricks (handle_cheats_and_controls ext io dt
                          (grant_money_from_score g2))
                = bricks (grant_money_from_score g2))
    by (apply handle_cheats_and_controls_bricks).
  set (g4 := handle_cheats_and_controls ext io dt (grant_money_from_score g2))
    in *.
  assert (Hst4 : state g4 = Playing /\ paused g4 = true).
  { unfold stage, rules in H3, H4.
    change (state (move_carriage ext io dt (grant_money_from_score g2)))
      with (state (grant_money_from_score g2)) in H4.
    change (paused (move_carriage ext io dt (grant_money_from_score g2)))
      with (paused (grant_money_from_score g2)) in H4.
    injection H3 as _ _ E3 E4 _. injection H4 as _ _ F3 F4 _.
    split; congruence. }
  clearbody g4. destruct Hst4 as (Hst4 & Hp4).
  rewrite Hp4. cbn [fst snd].
  repeat split; try assumption; try congruence.
  intros HN. rewrite (Hb4 HN). congruence.
Qed.

Lemma paused_frame_frozen_witness :
  playfield (fst (update demo_extern no_keys 0.016
                         (set_paused true demo_flying_ball)))
  = playfield demo_flying_ball.
Proof.
  destruct (paused_frame_frozen demo_extern no_keys 0.016
              (set_paused true demo_flying_ball) eq_refl eq_refl) as (H & _).
  exact H.
Defined.

(** ** Bricks only wear *)

Lemma brick_worn_refl (b : Brick.t) :
  int_range (Brick.hit_points b) -> brick_worn b b.
Proof. unfold brick_worn, int_range. intuition lia. Qed.

Lemma brick_worn_trans (a b c : Brick.t) :
  brick_worn a b -> brick_worn b c -> brick_worn a c.
Proof.
  unfold brick_worn, int_range.
  intros (A1 & A2 & A3 & A4 & A5 & A6 & A7) (B1 & B2 & B3 & B4 & B5 & B6 & B7).
  repeat split; try congruence; auto; lia.
Qed.

Lemma Forall2_brick_worn_refl (bs : list Brick.t) :
  Forall (fun b => int_range (Brick.hit_points b)) bs ->
  Forall2 brick_worn bs bs.
Proof.
  induction 1; constructor; [apply brick_worn_refl|]; assumption.
Qed.

Lemma Forall2_brick_worn_trans (xs ys zs : list Brick.t) :
  Forall2 brick_worn xs ys -> Forall2 brick_worn ys zs ->
  Forall2 brick_worn xs zs.
Proof.
  intros H. revert zs. induction H; intros zs Hz; inversion Hz; subst;
    constructor; [eapply brick_worn_trans; eassumption | auto].
Qed.

Lemma Forall2_brick_worn_range (xs ys : list Brick.t) :
  Forall2 brick_worn xs ys ->
  Forall (fun b => int_range (Brick.hit_points b)) ys.
Proof. induction 1; constructor; [apply H | assumption]. Qed.

Lemma brick_hit_wears (ext : Extern) (n hit_pos : Vect) (b : Brick.t)
    (g : ArkanoidImpl) (hits : list Hit) :
  int_range (Brick.hit_points b) ->
  brick_worn b (fst (fst (brick_hit ext n hit_pos b g hits))).
Proof.
  intros Hr. unfold brick_hit. cbv zeta.
  destruct (Brick.hit_points b >? 1) eqn:E; cbn [fst snd].
  - assert (Hd : int_sub (Brick.hit_points b) 1 = Brick.hit_points b - 1).
    { unfold int_sub. apply wrap_id.
      unfold int_range, INT_MIN, INT_MAX in *. lia. }
    unfold brick_worn. cbn. rewrite Hd.
    unfold int_range, INT_MIN, INT_MAX in *. intuition lia.
  - unfold brick_worn, int_range in *. cbn. intuition (try discriminate; lia).
Qed.

Lemma bricks_loop_wears (ext : Extern) (bs : list Brick.t) (g : ArkanoidImpl)
    (hits : list Hit) :
  Forall (fun b => int_range (Brick.hit_points b)) bs ->
  Forall2 brick_worn bs (fst (fst (bricks_loop ext bs g hits))).
Proof.
  intros H. revert g hits.
  induction H as [|b rest Hb Hrest IH]; intros g hits; [constructor|].
  cbn [bricks_loop].
  destruct (negb (Brick.alive b)).
  - specialize (IH g hits).
    destruct (bricks_loop ext rest g hits) as [[rest' g1] hits1].
    constructor; [apply brick_worn_refl, Hb | exact IH].
  - destruct (collide_ball_with_rect (Brick.rect_world b) g) as [[n hit_pos]|].
    + pose proof (brick_hit_wears ext n hit_pos b g hits Hb) as Hw.
      destruct (brick_hit ext n hit_pos b g hits) as [[b' g1] hits1].
      cbn [fst snd] in Hw.
      destruct (negb (pierce_mode g1)).
      * constructor; [exact Hw | apply Forall2_brick_worn_refl, Hrest].
      * specialize (IH g1 hits1).
        destruct (bricks_loop ext rest g1 hits1) as [[rest' g2] hits2].
        constructor; [exact Hw | exact IH].
    + specialize (IH g hits).
      destruct (bricks_loop ext rest g hits) as [[rest' g1] hits1].
      constructor; [apply brick_worn_refl, Hb | exact IH].
Qed.

Lemma nuke_loop_wears (bs : list Brick.t) (g : ArkanoidImpl) :
  Forall (fun b => int_range (Brick.hit_points b)) bs ->
  Forall2 brick_worn bs (fst (nuke_loop bs g)).
Proof.
  intros H. revert g.
  induction H as [|b rest Hb Hrest IH]; intros g; [constructor|].
  cbn [nuke_loop].
  assert (Hw : brick_worn b (fst (nuke_brick b g))).
  { unfold nuke_brick. destruct (negb (Brick.alive b));
      [apply brick_worn_refl, Hb|].
    destruct (_ && _); [|apply brick_worn_refl, Hb].
    unfold brick_worn, int_range in *. cbn.
    intuition (try discriminate; lia). }
  destruct (nuke_brick b g) as [b' g1]. cbn [fst] in Hw.
  specialize (IH g1).
  destruct (nuke_loop rest g1) as [rest' g2].
  constructor; [exact Hw | exact IH].
Qed.

Lemma nuke_row_wears (io : ImGuiIO) (g : ArkanoidImpl) :
  Forall (fun b => int_range (Brick.hit_points b)) (bricks g) ->
  Forall2 brick_worn (bricks g) (bricks (nuke_row io g)).
Proof.
  intros H. unfold nuke_row.
  destruct (KeysDown io GLFW_KEY_N); [|apply Forall2_brick_worn_refl, H].
  pose proof (nuke_loop_wears (bricks g) g H) as Hw.
  destruct (nuke_loop (bricks g) g) as [bs g1]. exact Hw.
Qed.

Lemma handle_cheats_and_controls_wears (ext : Extern) (io : ImGuiIO) (dt : R)
    (g : ArkanoidImpl) :
  Forall (fun b => int_range (Brick.hit_points b)) (bricks g) ->
  Forall2 brick_worn (bricks g) (bricks (handle_cheats_and_controls ext io dt g)).
Proof.
  intros H. read_through_late_controls bricks.
  set (g3 := shop_hotkeys io
               (speed_pierce_hotkeys io (move_carriage ext io dt g))).
  assert (H3 : bricks g3 = bricks g).
  { subst g3. read_through_hotkeys bricks. reflexivity. }
  clearbody g3. rewrite <- H3 in *. apply nuke_row_wears. exact H.
Qed.

Lemma handle_collisions_wears (ext : Extern) (hits : list Hit)
    (g : ArkanoidImpl) :
  Forall (fun b => int_range (Brick.hit_points b)) (bricks g) ->
  Forall2 brick_worn (bricks g) (bricks (fst (handle_collisions ext hits g))).
Proof.
  intros H. unfold handle_collisions.
  set (p := match collide_ball_with_rect (carriage_world g) g with
            | Some _ => _ | None => _ end).
  assert (Hp : bricks (fst p) = bricks g).
  { subst p.
    destruct (collide_ball_with_rect (carriage_world g) g) as [[n hit_pos]|];
      reflexivity. }
  destruct p as [g1 hits1]. cbn [fst] in Hp.
  rewrite <- Hp in H |- *.
  pose proof (bricks_loop_wears ext (bricks g1) g1 hits1 H) as Hl.
  destruct (bricks_loop ext (bricks g1) g1 hits1) as [[bs g2] hits2].
  exact Hl.
Qed.

Lemma apply_bonus_bricks (ext : Extern) (b : Bonus.t) (g : ArkanoidImpl) :
  bricks (apply_bonus ext b g) = bricks g.
Proof. unfold apply_bonus. destruct (Bonus.type b); reflexivity. Qed.

(** Through a frame of a game in [Playing], whatever the inputs, every
    brick stays the same brick (rectangle, score, bonus flag, base
    colour), is not revived once not alive, and has no more hit-points
    than before; the list keeps its length and order. *)
Theorem bricks_only_wear (ext : Extern) (io : ImGuiIO) (elapsed : R)
    (g : ArkanoidImpl) :
  state g = Playing ->
  Forall (fun b => int_range (Brick.hit_points b)) (bricks g) ->
  Forall2 brick_worn (bricks g) (bricks (fst (update ext io elapsed g))).
Proof.
  intros Hst Hr. unfold update.
  set (g1 := set_screen_scale (world_to_screen_scale io g) g).
  cbv zeta.
  pose proof (slowmo_step_changes elapsed g1) as Hs. cbv zeta in Hs.
  destruct (slowmo_step elapsed g1) as [dt g2]. cbn [fst snd] in *.
  assert (H2 : state g2 = Playing /\ bricks g2 = bricks g)
    by (rewrite Hs; cbn; auto).
  destruct H2 as (Hst2 & Hb2).
  rewrite Hst2. cbn [GameState_eqb negb].
  assert (Hb3 : bricks (grant_money_from_score g2) = bricks g)
    by (rewrite (grant_money_from_score_changes g2); exact Hb2).
  set (g3 := grant_money_from_score g2) in *. clearbody g3.
  rewrite <- Hb3 in *.
  pose proof (handle_cheats_and_controls_wears ext io dt g3 Hr) as H4.
  set (g4 := handle_cheats_and_controls ext io dt g3) in *. clearbody g4.
  destruct (paused g4); [exact H4|].
  unfold launch_ball_if_needed.
  eapply Forall2_brick_worn_trans; [exact H4|].
  pose proof (Forall2_brick_worn_range _ _ H4) as Hr4.
  assert (Hb5 : bricks (integrate_ball ext dt g4) = bricks g4).
  { unfold integrate_ball. rewrite (ball_bottom_changes _).
    destruct (ball_moved_keeps ext dt g4)
      as (_ & _ & _ & _ & _ & _ & _ & _ & _ & E).
    exact E. }
  set (g5 := integrate_ball ext dt g4) in *. clearbody g5.
  assert (Hb6 : bricks (integrate_bonuses ext dt g5) = bricks g5).
  { unfold integrate_bonuses.
    pose proof (bonuses_loop_keeps bricks ext dt (apply_bonus_bricks ext)
                  (bonuses g5) g5) as E.
    destruct (bonuses_loop ext dt (bonuses g5) g5) as [bs g6]. exact E. }
  set (g6 := integrate_bonuses ext dt g5) in *. clearbody g6.
  assert (Hr7 : Forall (fun b => int_range (Brick.hit_points b))
                       (bricks (integrate_particles dt g6))).
  { change (bricks (integrate_particles dt g6)) with (bricks g6).
    rewrite Hb6, Hb5. exact Hr4. }
  pose proof (handle_collisions_wears ext [] (integrate_particles dt g6) Hr7)
    as H8.
  change (bricks (integrate_particles dt g6)) with (bricks g6) in H8.
  rewrite Hb6, Hb5 in H8.
  destruct (handle_collisions ext [] (integrate_particles dt g6)) as [g8 hits].
  cbn [fst] in *.
  destruct (negb (existsb Brick.alive (bricks g8))); exact H8.
Qed.

Lemma bricks_only_wear_witness :
  Forall2 brick_worn [demo_brick]
    (bricks (fst (update demo_extern no_keys 0.016
                         (set_bricks [demo_brick] demo_flying_ball)))).
Proof.
  apply (bricks_only_wear demo_extern no_keys 0.016
           (set_bricks [demo_brick] demo_flying_ball) eq_refl).
  constructor; [|constructor].
  unfold int_range, INT_MIN, INT_MAX. cbn. lia.
Defined.

(** ** One brick per scan without pierce *)

(** Without pierce mode the scan of the bricks stops at the first brick
    that is alive and touched by the ball.  Either no brick of the list is
    both alive and touched, and the scan returns the bricks, the state and
    the hits as they were; or the list splits around the first such brick,
    the bricks before it are each not alive or not touched, and the scan
    returns what [brick_hit] makes of that one brick, of the state and of
    the hits, with every other brick as it was and exactly one hit
    added. *)
Theorem one_brick_without_pierce (ext : Extern) (bs : list Brick.t)
    (g : ArkanoidImpl) (hits : list Hit) :
  pierce_mode g = false ->
  (Forall (fun x => Brick.alive x = false
                    \/ collide_ball_with_rect (Brick.rect_world x) g = None)
          bs
   /\ bricks_loop ext bs g hits = (bs, g, hits))
  \/ exists pre b post n hit_pos,
       bs = pre ++ b :: post
       /\ Forall (fun x => Brick.alive x = false
                           \/ collide_ball_with_rect (Brick.rect_world x) g = None)
                 pre
       /\ Brick.alive b = true
       /\ collide_ball_with_rect (Brick.rect_world b) g = Some (n, hit_pos)
       /\ (let h := brick_hit ext n hit_pos b g hits in
           bricks_loop ext bs g hits
           = (pre ++ fst (fst h) :: post, snd (fst h), snd h)
           /\ List.length (snd h) = S (List.length hits)).
Proof.
  intros Hp. cbv zeta.
  induction bs as [|b rest IH]; [left; split; [constructor | reflexivity]|].
  cbn [bricks_loop].
  destruct (negb (Brick.alive b)) eqn:Ea.
  - apply negb_true_iff in Ea.
    destruct IH as [(Hall & ->) | (pre & x & post & n & hp & E1 & Hpre
                                   & Hx & Hc & -> & Hl)].
    + left. split; [constructor; [left; exact Ea | exact Hall] | reflexivity].
    + right. exists (b :: pre), x, post, n, hp. subst rest.
      split; [reflexivity|].
      split; [constructor; [left; exact Ea | exact Hpre]|].
      split; [exact Hx|]. split; [exact Hc|]. split; [reflexivity | exact Hl].
  - apply negb_false_iff in Ea.
    destruct (collide_ball_with_rect (Brick.rect_world b) g)
      as [[n hit_pos]|] eqn:Ec.
    + destruct (brick_hit_stage ext n hit_pos b g hits) as (_ & Hpm).
      assert (Hh : List.length (snd (brick_hit ext n hit_pos b g hits))
                   = S (List.length hits)).
      { unfold brick_hit. cbv zeta.
        destruct (Brick.hit_points b >? 1); cbn [snd];
          unfold add_debug_hit; rewrite length_app; cbn; lia. }
      right. exists [], b, rest, n, hit_pos.
      split; [reflexivity|]. split; [constructor|].
      split; [exact Ea|]. split; [exact Ec|]. split; [|exact Hh].
      destruct (brick_hit ext n hit_pos b g hits) as [[b' g1] hits1].
      cbn [fst snd] in *. rewrite Hpm, Hp. reflexivity.
    + destruct IH as [(Hall & ->) | (pre & x & post & n & hp & E1 & Hpre
                                     & Hx & Hc & -> & Hl)].
      * left. split; [constructor; [right; exact Ec | exact Hall] | reflexivity].
      * right. exists (b :: pre), x, post, n, hp. subst rest.
        split; [reflexivity|].
        split; [constructor; [right; exact Ec | exact Hpre]|].
        split; [exact Hx|]. split; [exact Hc|]. split; [reflexivity | exact Hl].
Qed.

Lemma one_brick_without_pierce_witness :
  List.length (snd (bricks_loop demo_extern [demo_brick] demo_ball_at_brick []))
  = 1%nat.
Proof.
  destruct (one_brick_without_pierce demo_extern [demo_brick]
              demo_ball_at_brick [] eq_refl)
    as [(Hall & _) | (pre & b & post & n & hp & _ & _ & _ & _ & -> & Hl)].
  - exfalso. inversion Hall as [|x l [Hdead | Hmiss] _]; subst.
    + discriminate Hdead.
    + revert Hmiss. unfold collide_ball_with_rect. cbv zeta.
      match goal with
      | |- context [if fltb ?a ?b then None else _] =>
          replace (fltb a b) with false; [discriminate|]
      end.
      symmetry. apply fltb_false_iff.
      unfold LengthSquared, vsub, clampf, fmin, fmax. cbn. fdecide. cbn. lra.
  - cbn [snd]. exact Hl.
Defined.

(** ** The level a reset builds *)

Lemma length_flat_map_rows {A : Type} (f : nat -> nat -> A) (nc : nat)
    (l : list nat) :
  List.length (flat_map (fun r => map (f r) (seq 0 nc)) l)
  = (List.length l * nc)%nat.
Proof.
  induction l as [|r l IH]; [reflexivity|].
  cbn [flat_map List.length]. rewrite length_app, length_map, length_seq, IH.
  cbn. lia.
Qed.

Lemma build_level_bricks (ext : Extern) (s : ArkanoidSettings.t)
    (g : ArkanoidImpl) :
  let g' := build_level ext s g in
  List.length (bricks g')
  = (Z.to_nat (bricks_rows g') * Z.to_nat (bricks_cols g'))%nat
  /\ Forall (fun b => Brick.alive b = true
                      /\ 1 <= Brick.hit_points b <= 3
                      /\ Brick.color b = Brick.base_color b)
            (bricks g').
Proof.
  unfold build_level. cbv zeta. cbn [bricks bricks_rows bricks_cols set_bricks].
  set (rows := to_int (clampf (IZR (ArkanoidSettings.bricks_rows_count s)) _ _)).
  set (cols := to_int (clampf (IZR (ArkanoidSettings.bricks_columns_count s)) _ _)).
  cbn.
  fold rows. fold cols.
  generalize (Z.to_nat rows) as nr. generalize (Z.to_nat cols) as nc.
  intros nc nr. split.
  - rewrite length_flat_map_rows, length_seq. reflexivity.
  - apply Forall_forall. intros b Hin.
    apply in_flat_map in Hin. destruct Hin as (r & _ & Hin).
    apply in_map_iff in Hin. destruct Hin as (c & <- & _).
    unfold build_brick. cbv zeta.
    cbn [Brick.alive Brick.hit_points Brick.color Brick.base_color].
    split; [reflexivity|]. split; [|reflexivity].
    destruct (_ <? 5); [lia|]. destruct (_ <? 25); lia.
Qed.

(** Whatever the state before, [reset] leaves a game in [Playing] with 3
    lives, score 0, combo 1, no buff, no bonus and no particle; the level
    holds rows times columns bricks, all alive, each with 1 to 3
    hit-points and showing its base colour; the ball sits one unit above
    the paddle, over its centre. *)
Theorem reset_starts_a_game (ext : Extern) (s : ArkanoidSettings.t)
    (g : ArkanoidImpl) :
  let g' := reset ext s g in
  state g' = Playing /\ lives g' = 3 /\ score g' = 0 /\ combo_mult g' = 1
  /\ score_mult_value g' = 1
  /\ pierce_mode g' = false /\ slowmo_mode g' = false
  /\ magnet_active g' = false /\ score_mult_active g' = false
  /\ paused g' = false
  /\ bonuses g' = [] /\ particles g' = []
  /\ List.length (bricks g')
     = (Z.to_nat (bricks_rows g') * Z.to_nat (bricks_cols g'))%nat
  /\ Forall (fun b => Brick.alive b = true
                      /\ 1 <= Brick.hit_points b <= 3
                      /\ Brick.color b = Brick.base_color b)
            (bricks g')
  /\ ball_pos g'
     = mkVect (vx (rect_center (carriage_world g')))
              (vy (pos (carriage_world g')) - ball_radius g' - 1).
Proof.
  cbv zeta.
  repeat (split; [reflexivity|]).
  unfold reset. cbv zeta.
  match goal with
  | |- context [build_level ext s ?x] =>
      destruct (build_level_bricks ext s x) as (Hlen & Hall)
  end.
  split; [exact Hlen|]. split; [exact Hall | reflexivity].
Qed.

(** ** Invariants of a frame *)

(** A property the steps of a frame keep is kept by the frame. *)
Lemma update_preserves (P : ArkanoidImpl -> Prop) (ext : Extern)
    (io : ImGuiIO) (elapsed : R) (g : ArkanoidImpl) :
  (forall v g, P g -> P (set_screen_scale v g)) ->
  (forall e g, P g -> P (snd (slowmo_step e g))) ->
  (forall s g, P g -> P (reset ext s g)) ->
  (forall g, P g -> P (grant_money_from_score g)) ->
  (forall dt g, P g -> P (handle_cheats_and_controls ext io dt g)) ->
  (forall dt g, P g -> P (integrate_ball ext dt g)) ->
  (forall dt g, P g -> P (integrate_bonuses ext dt g)) ->
  (forall dt g, P g -> P (integrate_particles dt g)) ->
  (forall hits g, P g -> P (fst (handle_collisions ext hits g))) ->
  (forall g, P g -> P (set_state Win g)) ->
  P g -> P (fst (update ext io elapsed g)).
Proof.
  intros Hscale Hslow Hreset Hgrant Hctl Hball Hbon Hpart Hcol Hwin Hg.
  unfold update. cbv zeta.
  specialize (Hscale (world_to_screen_scale io g) g Hg).
  set (g1 := set_screen_scale (world_to_screen_scale io g) g) in *.
  clearbody g1.
  specialize (Hslow elapsed g1 Hscale).
  destruct (slowmo_step elapsed g1) as [dt g2]. cbn [snd] in Hslow.
  destruct (negb (GameState_eqb (state g2) Playing)); cbn [fst].
  - destruct (KeysDown io GLFW_KEY_R); [apply Hreset|]; exact Hslow.
  - specialize (Hctl dt _ (Hgrant _ Hslow)).
    set (g4 := handle_cheats_and_controls ext io dt (grant_money_from_score g2))
      in *.
    clearbody g4.
    destruct (paused g4); [exact Hctl|].
    unfold launch_ball_if_needed.
    specialize (Hcol [] _ (Hpart dt _ (Hbon dt _ (Hball dt _ Hctl)))).
    destruct (handle_collisions ext []
                (integrate_particles dt
                   (integrate_bonuses ext dt (integrate_ball ext dt g4))))
      as [g8 hits].
    cbn [fst] in *.
    destruct (negb (existsb Brick.alive (bricks g8))); [apply Hwin|]; exact Hcol.
Qed.

Lemma run_frames_preserves (P : ArkanoidImpl -> Prop) (ext : Extern) :
  (forall io elapsed g, P g -> P (fst (update ext io elapsed g))) ->
  forall frames g, P g -> P (run_frames ext frames g).
Proof.
  intros Hstep frames. unfold run_frames.
  induction frames as [|[io e] rest IH]; intros g Hg; [exact Hg|].
  cbn [fold_left fst snd]. apply IH, Hstep, Hg.
Qed.

(** The controls, block by block. *)
Lemma handle_cheats_and_controls_preserves (P : ArkanoidImpl -> Prop)
    (ext : Extern) (io : ImGuiIO) (dt : R) (g : ArkanoidImpl) :
  (forall g, P g -> P (move_carriage ext io dt g)) ->
  (forall g, P g -> P (speed_pierce_hotkeys io g)) ->
  (forall g, P g -> P (shop_hotkeys io g)) ->
  (forall g, P g -> P (nuke_row io g)) ->
  (forall g, P g -> P (one_shot_cheats g)) ->
  (forall g, P g -> P (buff_timers dt g)) ->
  (forall g, P g -> P (speed_interpolation dt g)) ->
  (forall g, P g -> P (pierce_combo_timers dt g)) ->
  (forall g, P g -> P (trail_step g)) ->
  (forall g, P g -> P (shop_message_step dt g)) ->
  P g -> P (handle_cheats_and_controls ext io dt g).
Proof.
  intros H1 H2 H3 H4 H5 H6 H7 H8 H9 H10 Hg.
  unfold handle_cheats_and_controls. cbv zeta.
  apply H10, H9, H8, H7, H6, H5, H4, H3, H2, H1, Hg.
Qed.

Lemma buy_on_key_preserves (P : ArkanoidImpl -> Prop) (io : ImGuiIO)
    (key cost : Z) (effect : ArkanoidImpl -> ArkanoidImpl) (g : ArkanoidImpl) :
  (forall g, P g -> P (snd (try_purchase cost g))) ->
  (forall g, P g -> P (effect g)) ->
  P g -> P (buy_on_key io key cost effect g).
Proof.
  intros Hp He Hg. unfold buy_on_key.
  destruct (KeysDown io key); [|exact Hg].
  specialize (Hp g Hg). destruct (try_purchase cost g) as [ok g1].
  cbn [snd] in Hp. destruct ok; [apply He|]; exact Hp.
Qed.

Lemma bonuses_loop_preserves (P : ArkanoidImpl -> Prop) (ext : Extern)
    (dt : R) :
  (forall b g, P g -> P (apply_bonus ext b g)) ->
  forall bs g, P g -> P (snd (bonuses_loop ext dt bs g)).
Proof.
  intros Ha bs. induction bs as [|b rest IH]; intros g Hg; [exact Hg|].
  cbn [bonuses_loop].
  assert (Hb : P (snd (bonus_step ext dt b g))).
  { unfold bonus_step. destruct (negb (Bonus.alive b)); [exact Hg|].
    cbv zeta.
    match goal with
    | |- context [if ?c then (?x, apply_bonus ext ?b' g) else _] => destruct c
    end; cbn [snd]; [apply Ha|]; exact Hg. }
  destruct (bonus_step ext dt b g) as [b' g1]. cbn [snd] in Hb.
  specialize (IH g1 Hb).
  destruct (bonuses_loop ext dt rest g1) as [rest' g2]. exact IH.
Qed.

Lemma integrate_bonuses_preserves (P : ArkanoidImpl -> Prop) (ext : Extern)
    (dt : R) (g : ArkanoidImpl) :
  (forall b g, P g -> P (apply_bonus ext b g)) ->
  (forall v g, P g -> P (set_bonuses v g)) ->
  P g -> P (integrate_bonuses ext dt g).
Proof.
  intros Ha Hs Hg. unfold integrate_bonuses.
  pose proof (bonuses_loop_preserves P ext dt Ha (bonuses g) g Hg) as Hl.
  destruct (bonuses_loop ext dt (bonuses g) g) as [bs g1].
  apply Hs, Hl.
Qed.

Lemma bricks_loop_preserves (P : ArkanoidImpl -> Prop) (ext : Extern) :
  (forall n hit_pos b g hits,
      P g -> P (snd (fst (brick_hit ext n hit_pos b g hits)))) ->
  forall bs g hits, P g -> P (snd (fst (bricks_loop ext bs g hits))).
Proof.
  intros Hh bs. induction bs as [|b rest IH]; intros g hits Hg; [exact Hg|].
  cbn [bricks_loop].
  destruct (negb (Brick.alive b)).
  - specialize (IH g hits Hg).
    destruct (bricks_loop ext rest g hits) as [[rest' g1] hits1]. exact IH.
  - destruct (collide_ball_with_rect (Brick.rect_world b) g) as [[n hit_pos]|].
    + specialize (Hh n hit_pos b g hits Hg).
      destruct (brick_hit ext n hit_pos b g hits) as [[b' g1] hits1].
      cbn [fst snd] in Hh.
      destruct (negb (pierce_mode g1)); [exact Hh|].
      specialize (IH g1 hits1 Hh).
      destruct (bricks_loop ext rest g1 hits1) as [[rest' g2] hits2].
      exact IH.
    + specialize (IH g hits Hg).
      destruct (bricks_loop ext rest g hits) as [[rest' g1] hits1]. exact IH.
Qed.

Lemma handle_collisions_preserves (P : ArkanoidImpl -> Prop) (ext : Extern)
    (hits : list Hit) (g : ArkanoidImpl) :
  (forall v g, P g -> P (set_ball_pos v g)) ->
  (forall v g, P g -> P (set_ball_vel v g)) ->
  (forall v g, P g -> P (set_bricks v g)) ->
  (forall n hit_pos b g hits,
      P g -> P (snd (fst (brick_hit ext n hit_pos b g hits)))) ->
  P g -> P (fst (handle_collisions ext hits g)).
Proof.
  intros Hpos Hvel Hbr Hh Hg. unfold handle_collisions.
  set (p := match collide_ball_with_rect (carriage_world g) g with
            | Some _ => _ | None => _ end).
  assert (Hp : P (fst p)).
  { subst p.
    destruct (collide_ball_with_rect (carriage_world g) g) as [[n hit_pos]|];
      cbn [fst]; [|exact Hg].
    unfold bounce_from_carriage. apply Hvel, Hpos, Hg. }
  destruct p as [g1 hits1]. cbn [fst] in Hp.
  pose proof (bricks_loop_preserves P ext Hh (bricks g1) g1 hits1 Hp) as Hl.
  destruct (bricks_loop ext (bricks g1) g1 hits1) as [[bs g2] hits2].
  cbn [fst snd] in *. apply Hbr, Hl.
Qed.

(** What the integration of the ball leaves alone: every reading of the
    state that does not look at the ball, the freeze cheat or the count of
    [rand] calls passes through the moves of the ball. *)
Lemma ball_walls_reads {A : Type} (f : ArkanoidImpl -> A) (ext : Extern)
    (g : ArkanoidImpl) :
  (forall v g, f (set_ball_pos v g) = f g) ->
  (forall v g, f (set_ball_vel v g) = f g) ->
  (forall v g, f (set_rand_calls v g) = f g) ->
  f (ball_walls ext g) = f g.
Proof.
  intros Hp Hv Hr.
  assert (Hrefl : forall n g, f (reflect_ball ext n g) = f g).
  { intros n g0. rewrite (reflect_ball_changes ext n g0). rewrite Hr. apply Hv. }
  unfold ball_walls.
  set (gx := if fltb (vx (ball_pos g)) (ball_radius g) then _ else _).
  assert (Hgx : f gx = f g).
  { subst gx.
    destruct (fltb (vx (ball_pos g)) (ball_radius g));
      [|destruct (fltb (vx (world_size g) - ball_radius g) (vx (ball_pos g)))];
      cbv zeta; rewrite ?Hrefl, ?Hp; reflexivity. }
  clearbody gx. cbv zeta.
  destruct (fltb (vy (ball_pos gx)) (ball_radius gx));
    rewrite ?Hrefl, ?Hp; exact Hgx.
Qed.

Lemma ball_moved_reads {A : Type} (f : ArkanoidImpl -> A) (ext : Extern)
    (dt : R) (g : ArkanoidImpl) :
  (forall v g, f (set_ball_pos v g) = f g) ->
  (forall v g, f (set_ball_vel v g) = f g) ->
  (forall v g, f (set_rand_calls v g) = f g) ->
  (forall v g, f (set_ball_speed_cur v g) = f g) ->
  (forall v g, f (set_freeze_timer v g) = f g) ->
  (forall v g, f (set_cheat_freeze_ball v g) = f g) ->
  f (ball_moved ext dt g) = f g.
Proof.
  intros Hp Hv Hr Hc Hf Hz. unfold ball_moved.
  rewrite ball_walls_reads by assumption.
  unfold ball_advance. rewrite Hp.
  rewrite (ball_renormalize_changes _), Hv.
  rewrite (ball_speed_step_changes _ _), Hc, Hf, Hz. reflexivity.
Qed.

(** ** The multipliers stay in range *)

Lemma multipliers_ok_reads (g g' : ArkanoidImpl) :
  multipliers g' = multipliers g -> multipliers_ok g -> multipliers_ok g'.
Proof.
  unfold multipliers, multipliers_ok. intros E H.
  injection E as -> -> ->. exact H.
Qed.

Lemma capped_combo (c : Z) : 1 <= c <= 9 -> 1 <= imin 9 (int_add c 1) <= 9.
Proof.
  intros H. unfold int_add. rewrite wrap_id.
  - unfold imin. destruct (c + 1 <? 9) eqn:E;
      [apply Z.ltb_lt in E | apply Z.ltb_ge in E]; lia.
  - unfold int_range, INT_MIN, INT_MAX. lia.
Qed.

Lemma brick_hit_multipliers_ok (ext : Extern) (n hit_pos : Vect) (b : Brick.t)
    (g : ArkanoidImpl) (hits : list Hit) :
  multipliers_ok g ->
  multipliers_ok (snd (fst (brick_hit ext n hit_pos b g hits))).
Proof.
  intros (Hc & Hv & Ha). unfold brick_hit. cbv zeta.
  set (g0 := if negb (pierce_mode g) then reflect_ball ext n g else g).
  assert (E0 : multipliers g0 = multipliers g).
  { subst g0. destruct (negb (pierce_mode g)); [|reflexivity].
    rewrite (reflect_ball_changes ext n g). reflexivity. }
  clearbody g0. unfold multipliers in E0. injection E0 as Ec Ev Ea.
  rewrite <- Ec in Hc. rewrite <- Ev in Hv, Ha. rewrite <- Ea in Ha.
  clear Ec Ev Ea g.
  destruct (Brick.hit_points b >? 1); cbn [fst snd].
  - unfold multipliers_ok.
    rewrite (spawn_particles_changes _ _ _ _ _). cbn.
    split; [apply capped_combo, Hc | split; assumption].
  - rewrite (speedup_if_due_changes _).
    unfold multipliers_ok. cbn.
    match goal with
    | |- context [if Brick.bonus ?x then ?a else ?c] =>
        set (gb := if Brick.bonus x then a else c)
    end.
    assert (Eb : multipliers gb
                 = (imin 9 (int_add (combo_mult g0) 1), score_mult_value g0,
                    score_mult_active g0)).
    { subst gb. destruct (Brick.bonus _).
      - destruct (bonus_of_choice _); unfold spawn_bonus_at;
          rewrite (spawn_particles_changes _ _ _ _ _); reflexivity.
      - rewrite (spawn_particles_changes _ _ _ _ _). reflexivity. }
    clearbody gb. unfold multipliers in Eb. injection Eb as -> -> ->.
    split; [apply capped_combo, Hc | split; assumption].
Qed.

Lemma apply_bonus_multipliers_ok (ext : Extern) (b : Bonus.t)
    (g : ArkanoidImpl) :
  multipliers_ok g -> multipliers_ok (apply_bonus ext b g).
Proof.
  intros H. unfold apply_bonus.
  destruct (Bonus.type b); try exact H.
  - destruct H as (Hc & _). unfold multipliers_ok. cbn.
    split; [exact Hc|].
    destruct (int_rem _ 2 =? 0); split; (lia || discriminate).
Qed.

Lemma shop_hotkeys_multipliers_ok (io : ImGuiIO) (g : ArkanoidImpl) :
  multipliers_ok g -> multipliers_ok (shop_hotkeys io g).
Proof.
  assert (Hp : forall cost g,
             multipliers_ok g -> multipliers_ok (snd (try_purchase cost g))).
  { intros cost g0. apply multipliers_ok_reads.
    rewrite (try_purchase_changes cost g0). reflexivity. }
  intros H. unfold shop_hotkeys. cbv zeta.
  repeat (apply buy_on_key_preserves; [apply Hp | |]); try exact H;
    intros g0 H0; try exact H0.
  destruct H0 as (Hc & _). unfold multipliers_ok. cbn.
  split; [exact Hc|]. split; [lia | discriminate].
Qed.

Lemma buff_timers_multipliers_ok (dt : R) (g : ArkanoidImpl) :
  multipliers_ok g -> multipliers_ok (buff_timers dt g).
Proof.
  intros H. unfold buff_timers.
  set (g1 := if magnet_active g then _ else g).
  assert (E1 : multipliers g1 = multipliers g).
  { subst g1. destruct (magnet_active g); [|reflexivity].
    cbv zeta. destruct (fleb _ _); reflexivity. }
  apply (multipliers_ok_reads _ _ E1) in H. clearbody g1.
  destruct (score_mult_active g1) eqn:Ea; [|exact H].
  cbv zeta. destruct (fleb _ _).
  - destruct H as (Hc & _). unfold multipliers_ok. cbn.
    split; [exact Hc|]. split; [lia | reflexivity].
  - exact H.
Qed.

Lemma pierce_combo_timers_multipliers_ok (dt : R) (g : ArkanoidImpl) :
  multipliers_ok g -> multipliers_ok (pierce_combo_timers dt g).
Proof.
  intros H. unfold pierce_combo_timers.
  set (g1 := if pierce_mode g then _ else g).
  assert (E1 : multipliers g1 = multipliers g).
  { subst g1. destruct (pierce_mode g); [|reflexivity].
    cbv zeta. destruct (fleb _ _); reflexivity. }
  apply (multipliers_ok_reads _ _ E1) in H. clearbody g1.
  destruct (fltb 0 (combo_timer g1)); [|exact H].
  cbv zeta. destruct (fleb _ _); [|exact H].
  destruct H as (_ & Hv). unfold multipliers_ok. cbn. split; [lia | exact Hv].
Qed.

Lemma handle_cheats_and_controls_multipliers_ok (ext : Extern) (io : ImGuiIO)
    (dt : R) (g : ArkanoidImpl) :
  multipliers_ok g -> multipliers_ok (handle_cheats_and_controls ext io dt g).
Proof.
  apply handle_cheats_and_controls_preserves.
  - intros g0. apply multipliers_ok_reads.
    rewrite (move_carriage_changes ext io dt g0). reflexivity.
  - intros g0. apply multipliers_ok_reads.
    rewrite (speed_pierce_hotkeys_changes io g0). reflexivity.
  - apply shop_hotkeys_multipliers_ok.
  - intros g0. apply multipliers_ok_reads.
    apply nuke_row_keeps; reflexivity.
  - intros g0. apply multipliers_ok_reads.
    rewrite (one_shot_cheats_changes g0). reflexivity.
  - apply buff_timers_multipliers_ok.
  - intros g0. apply multipliers_ok_reads.
    rewrite (speed_interpolation_changes dt g0). reflexivity.
  - apply pierce_combo_timers_multipliers_ok.
  - intros g0. apply multipliers_ok_reads.
    rewrite (trail_step_changes g0). reflexivity.
  - intros g0. apply multipliers_ok_reads.
    rewrite (shop_message_step_changes dt g0). reflexivity.
Qed.

Lemma integrate_ball_multipliers_ok (ext : Extern) (dt : R)
    (g : ArkanoidImpl) :
  multipliers_ok g -> multipliers_ok (integrate_ball ext dt g).
Proof.
  intros H. unfold integrate_ball.
  assert (Em : multipliers (ball_moved ext dt g) = multipliers g)
    by (apply ball_moved_reads; reflexivity).
  apply (multipliers_ok_reads _ _ Em) in H.
  set (m := ball_moved ext dt g) in *. clearbody m.
  unfold ball_bottom. destruct (fltb _ _); [|exact H].
  cbv zeta. destruct H as (_ & Hv).
  match goal with |- multipliers_ok (if ?c then _ else _) => destruct c end;
    unfold multipliers_ok; destruct (negb (cheat_invincible m)); cbn;
    (split; [lia | exact Hv]).
Qed.

Lemma update_multipliers_ok (ext : Extern) (io : ImGuiIO) (elapsed : R)
    (g : ArkanoidImpl) :
  multipliers_ok g -> multipliers_ok (fst (update ext io elapsed g)).
Proof.
  apply update_preserves.
  - intros v g0 H. exact H.
  - intros e g0. apply multipliers_ok_reads.
    rewrite (slowmo_step_changes e g0). reflexivity.
  - intros s g0 _. unfold multipliers_ok.
    change (combo_mult (reset ext s g0)) with 1.
    change (score_mult_value (reset ext s g0)) with 1.
    split; [lia|]. split; [lia | reflexivity].
  - intros g0. apply multipliers_ok_reads.
    rewrite (grant_money_from_score_changes g0). reflexivity.
  - intros dt g0. apply handle_cheats_and_controls_multipliers_ok.
  - intros dt g0. apply integrate_ball_multipliers_ok.
  - intros dt g0. apply integrate_bonuses_preserves.
    + apply apply_bonus_multipliers_ok.
    + intros v g1 H. exact H.
  - intros dt g0 H. exact H.
  - intros hits g0. apply handle_collisions_preserves.
    + intros v g1 H. exact H.
    + intros v g1 H. exact H.
    + intros v g1 H. exact H.
    + apply brick_hit_multipliers_ok.
  - intros g0 H. exact H.
Qed.

(** Every multiplier the score is computed with stays in range: over any
    run of frames from a state where the combo is between 1 and 9, the
    buff's value between 1 and 3 and equal to 1 when the buff is off, all
    three still hold, whatever the keys and the elapsed times. *)
Theorem multipliers_stay_in_range (ext : Extern)
    (frames : list (ImGuiIO * R)) (g : ArkanoidImpl) :
  multipliers_ok g -> multipliers_ok (run_frames ext frames g).
Proof.
  apply run_frames_preserves. intros io elapsed g0.
  apply update_multipliers_ok.
Qed.

Lemma multipliers_stay_in_range_witness :
  multipliers_ok
    (run_frames demo_extern [(no_keys, 0.016%R); (no_keys, 0.016%R)]
       (reset demo_extern demo_settings demo_game)).
Proof.
  apply (multipliers_stay_in_range demo_extern
           [(no_keys, 0.016%R); (no_keys, 0.016%R)]
           (reset demo_extern demo_settings demo_game)).
  unfold multipliers_ok.
  change (combo_mult (reset demo_extern demo_settings demo_game)) with 1.
  change (score_mult_value (reset demo_extern demo_settings demo_game)) with 1.
  split; [lia|]. split; [lia | reflexivity].
Defined.

(** ** The shop never overdraws *)

Lemma spent_at_most_refl (g : ArkanoidImpl) :
  int_range (balance g) -> spent_at_most 0 g g.
Proof. unfold spent_at_most, int_range. intuition lia. Qed.

Lemma spent_at_most_trans (j k : Z) (g g1 g2 : ArkanoidImpl) :
  spent_at_most j g g1 -> spent_at_most k g1 g2 ->
  spent_at_most (j + k) g g2.
Proof.
  unfold spent_at_most.
  intros (A1 & A2 & A3 & A4) (B1 & B2 & B3 & B4).
  split; [congruence|]. split; [lia|]. split; [auto | exact B4].
Qed.

Lemma spent_at_most_reads (k : Z) (g g1 g2 : ArkanoidImpl) :
  purse g2 = purse g1 -> spent_at_most k g g1 -> spent_at_most k g g2.
Proof.
  unfold purse, spent_at_most. intros E H. injection E as -> ->. exact H.
Qed.

Lemma try_purchase_spends (cost : Z) (g : ArkanoidImpl) :
  int_range (balance g) ->
  spent_at_most (Z.max 0 cost) g (snd (try_purchase cost g)).
Proof.
  intros Hr. unfold try_purchase.
  destruct (cost <=? 0) eqn:Hc; [apply Z.leb_le in Hc | apply Z.leb_gt in Hc].
  - cbn [snd]. unfold spent_at_most, int_range in *. intuition lia.
  - destruct (balance g >=? cost) eqn:Hb; cbn [snd].
    + apply Z.geb_le in Hb.
      assert (Hs : int_sub (balance g) cost = balance g - cost).
      { unfold int_sub. apply wrap_id.
        unfold int_range, INT_MIN, INT_MAX in *. lia. }
      unfold spent_at_most. cbn. rewrite Hs.
      unfold int_range, INT_MIN, INT_MAX in *. intuition lia.
    + unfold spent_at_most, int_range in *. cbn. intuition lia.
Qed.

Lemma buy_on_key_spends (io : ImGuiIO) (key cost : Z)
    (effect : ArkanoidImpl -> ArkanoidImpl) (g : ArkanoidImpl) :
  (forall g, purse (effect g) = purse g) ->
  0 <= cost -> int_range (balance g) ->
  spent_at_most cost g (buy_on_key io key cost effect g).
Proof.
  intros He Hc Hr. unfold buy_on_key.
  destruct (KeysDown io key).
  - pose proof (try_purchase_spends cost g Hr) as Hp.
    rewrite Z.max_r in Hp by exact Hc.
    destruct (try_purchase cost g) as [ok g1]. cbn [snd] in Hp.
    destruct ok; [|exact Hp].
    apply (spent_at_most_reads _ _ g1); [apply He | exact Hp].
  - unfold spent_at_most, int_range in *. intuition lia.
Qed.

Lemma buy_on_key_spends_more (j : Z) (io : ImGuiIO) (key cost : Z)
    (effect : ArkanoidImpl -> ArkanoidImpl) (g0 g : ArkanoidImpl) :
  spent_at_most j g0 g ->
  (forall g, purse (effect g) = purse g) -> 0 <= cost ->
  spent_at_most (j + cost) g0 (buy_on_key io key cost effect g).
Proof.
  intros H He Hc. eapply spent_at_most_trans; [exact H|].
  apply buy_on_key_spends; [exact He | exact Hc | apply H].
Qed.

Lemma shop_hotkeys_spends (io : ImGuiIO) (g : ArkanoidImpl) :
  int_range (balance g) -> spent_at_most 115 g (shop_hotkeys io g).
Proof.
  intros Hr. unfold shop_hotkeys. cbv zeta.
  change 115 with (0 + 10 + 15 + 10 + 60 + 20).
  repeat (apply buy_on_key_spends_more; [|reflexivity|lia]).
  apply spent_at_most_refl, Hr.
Qed.

Lemma controls_spend (ext : Extern) (io : ImGuiIO) (dt : R)
    (g : ArkanoidImpl) :
  int_range (balance g) ->
  spent_at_most 115 g (handle_cheats_and_controls ext io dt g).
Proof.
  intros Hr.
  apply (spent_at_most_reads _ _
           (shop_hotkeys io
              (speed_pierce_hotkeys io (move_carriage ext io dt g)))).
  - read_through_late_controls purse.
    rewrite nuke_row_keeps by reflexivity. reflexivity.
  - set (g2 := speed_pierce_hotkeys io (move_carriage ext io dt g)).
    assert (E2 : purse g2 = purse g).
    { subst g2. rewrite (speed_pierce_hotkeys_changes _ _).
      change (purse (set_pierce_timer ?a (set_pierce_mode ?b
                       (set_ball_speed_target ?c ?x))))
        with (purse x).
      rewrite (move_carriage_changes _ _ _ _). reflexivity. }
    clearbody g2. unfold purse in E2. injection E2 as Eb Et.
    rewrite <- Eb in Hr.
    pose proof (shop_hotkeys_spends io g2 Hr) as Hs.
    unfold spent_at_most in *. rewrite Eb, Et in Hs. exact Hs.
Qed.

(** The controls of a frame never overdraw the balance: whatever keys are
    down, the five shop purchases together take at most 10 + 15 + 10 + 60
    + 20 = 115 dollars, the balance does not go up, does not go below zero
    when it was not below zero, and the lifetime total is not touched. *)
Theorem controls_never_overdraw (ext : Extern) (io : ImGuiIO) (dt : R)
    (g : ArkanoidImpl) :
  int_range (balance g) ->
  let g' := handle_cheats_and_controls ext io dt g in
  total_money g' = total_money g
  /\ balance g - 115 <= balance g' <= balance g
  /\ (0 <= balance g -> 0 <= balance g').
Proof.
  intros Hr g'.
  destruct (controls_spend ext io dt g Hr) as (Ht & Hb & H0 & _). auto.
Qed.

Lemma controls_never_overdraw_witness :
  balance (handle_cheats_and_controls demo_extern no_keys 0.016
             (set_balance 50 demo_game)) <= 50.
Proof.
  assert (Hr : int_range (balance (set_balance 50 demo_game)))
    by (unfold int_range, INT_MIN, INT_MAX; cbn; lia).
  destruct (controls_never_overdraw demo_extern no_keys 0.016
              (set_balance 50 demo_game) Hr) as (_ & H & _).
  exact (proj2 H).
Defined.

(** ** Score is converted once *)

(** Converting twice in a row pays once: after [grant_money_from_score],
    a second call with the score unchanged leaves the whole state as it
    is, whatever was left of the score below one dollar. *)
Theorem grant_money_from_score_idempotent (g : ArkanoidImpl) :
  int_range (score g) -> score_per_dollar g <> 0 ->
  grant_money_from_score (grant_money_from_score g)
  = grant_money_from_score g.
Proof.
  intros Hs Hspd.
  assert (Hnn : forall x : ArkanoidImpl,
             0 <= money_from_score_accumulator x ->
             (if money_from_score_accumulator x <? 0
              then set_money_from_score_accumulator 0 x else x) = x).
  { intros x Hx. destruct (_ <? 0) eqn:E; [apply Z.ltb_lt in E; lia|].
    reflexivity. }
  unfold grant_money_from_score at 2 3.
  set (g1 := if money_from_score_accumulator g <? 0
             then set_money_from_score_accumulator 0 g else g).
  assert (H1 : 0 <= money_from_score_accumulator g1
               /\ score g1 = score g
               /\ score_per_dollar g1 = score_per_dollar g).
  { subst g1. destruct (_ <? 0) eqn:E; cbn; [lia|].
    apply Z.ltb_ge in E. auto. }
  clearbody g1. destruct H1 as (Ha & Es & Ep). rewrite <- Es in Hs.
  rewrite <- Ep in Hspd. clear Es Ep g.
  cbv zeta.
  destruct (score g1 <=? money_from_score_accumulator g1) eqn:E1.
  - unfold grant_money_from_score. rewrite (Hnn g1 Ha), E1. reflexivity.
  - apply Z.leb_gt in E1.
    assert (Hdelta : int_sub (score g1) (money_from_score_accumulator g1)
                     = score g1 - money_from_score_accumulator g1).
    { apply wrap_id. unfold int_range, INT_MIN, INT_MAX in *. lia. }
    rewrite Hdelta.
    set (delta := score g1 - money_from_score_accumulator g1) in *.
    set (spd := score_per_dollar g1) in *.
    destruct (int_div delta spd >? 0) eqn:E2.
    + (* dollars were paid: the rate is positive and nothing wraps *)
      assert (Hq : Z.abs (Z.quot delta spd) <= delta).
      { rewrite <- Z.quot_abs by exact Hspd.
        rewrite (Z.abs_eq delta) by lia.
        apply Z.quot_le_upper_bound; [lia|].
        assert (1 <= Z.abs spd) by lia. nia. }
      assert (Hd : int_div delta spd = Z.quot delta spd).
      { apply wrap_id. unfold int_range, INT_MIN, INT_MAX in *. lia. }
      rewrite Hd in *. apply Z.gtb_lt in E2.
      assert (Hpos : 0 < spd).
      { destruct (Z_lt_le_dec 0 spd) as [|Hneg]; [assumption|].
        assert (Hle : forall a b, 0 <= a -> b < 0 -> Z.quot a b <= 0).
        { intros a b Ha0 Hb0. replace b with (- (- b)) by lia.
          rewrite Z.quot_opp_r by lia.
          pose proof (Z.quot_pos a (- b)). lia. }
        specialize (Hle delta spd). lia. }
      rewrite Z.quot_div_nonneg in * by lia.
      set (dollars := delta / spd) in *.
      assert (Hmul : dollars * spd <= delta)
        by (subst dollars; rewrite Z.mul_comm; apply Z.mul_div_le; lia).
      assert (Hrem : delta < dollars * spd + spd).
      { pose proof (Z.mod_pos_bound delta spd Hpos).
        pose proof (Z.div_mod delta spd). subst dollars. lia. }
      assert (Hm : int_mul dollars spd = dollars * spd).
      { apply wrap_id. unfold int_range, INT_MIN, INT_MAX in *. subst delta.
        nia. }
      assert (Hacc : money_from_score_accumulator (add_money dollars g1)
                     = money_from_score_accumulator g1).
      { unfold add_money. destruct (dollars <=? 0); reflexivity. }
      assert (Hsc : score (add_money dollars g1) = score g1).
      { unfold add_money. destruct (dollars <=? 0); reflexivity. }
      assert (Hsp : score_per_dollar (add_money dollars g1) = spd).
      { unfold add_money. destruct (dollars <=? 0); reflexivity. }
      rewrite Hacc, Hsp, Hm.
      assert (Hadd : int_add (money_from_score_accumulator g1) (dollars * spd)
                     = money_from_score_accumulator g1 + dollars * spd).
      { apply wrap_id. unfold int_range, INT_MIN, INT_MAX in *. subst delta.
        lia. }
      rewrite Hadd.
      set (g2 := set_money_from_score_accumulator _ (add_money dollars g1)).
      assert (A2 : money_from_score_accumulator g2
                   = money_from_score_accumulator g1 + dollars * spd)
        by reflexivity.
      assert (S2 : score g2 = score g1) by exact Hsc.
      assert (P2 : score_per_dollar g2 = spd) by exact Hsp.
      clearbody g2.
      unfold grant_money_from_score.
      rewrite (Hnn g2) by (rewrite A2; nia).
      rewrite S2, A2, P2.
      destruct (score g1 <=? _) eqn:E3; [reflexivity|].
      apply Z.leb_gt in E3.
      assert (Hdelta2 : int_sub (score g1)
                          (money_from_score_accumulator g1 + dollars * spd)
                        = delta - dollars * spd).
      { unfold int_sub. rewrite wrap_id; [subst delta; lia|].
        unfold int_range, INT_MIN, INT_MAX in *. subst delta. lia. }
      rewrite Hdelta2.
      assert (Hz : int_div (delta - dollars * spd) spd = 0).
      { unfold int_div. rewrite Z.quot_small by lia. reflexivity. }
      rewrite Hz. reflexivity.
    + (* no dollar yet: the second call computes the same *)
      unfold grant_money_from_score. rewrite (Hnn g1 Ha).
      apply Z.leb_gt in E1. rewrite E1. cbv zeta.
      fold delta. rewrite Hdelta. fold spd. rewrite E2. reflexivity.
Qed.

Lemma grant_money_from_score_idempotent_witness :
  grant_money_from_score (grant_money_from_score demo_scored_game)
  = grant_money_from_score demo_scored_game.
Proof.
  apply (grant_money_from_score_idempotent demo_scored_game).
  - unfold int_range, INT_MIN, INT_MAX. cbn. lia.
  - cbn. lia.
Defined.

(** ** Particles *)

(** [spawn_particles] appends exactly [count] particles (none for a count
    that is not positive) behind those there are; each starts at the
    given position with the given colour and has between 0.6 and 0.8
    seconds to live, whatever the random draws. *)
Theorem spawn_particles_spec (ext : Extern) (world_pos : Vect)
    (color count : Z) (g : ArkanoidImpl) :
  exists new,
    particles (spawn_particles ext world_pos color count g)
    = particles g ++ new
    /\ List.length new = Z.to_nat count
    /\ Forall (fun p => Particle.pos p = world_pos
                        /\ Particle.color p = color
                        /\ (0.6 <= Particle.life p < 0.8)%R) new.
Proof.
  unfold spawn_particles. cbv zeta. cbn [particles set_particles].
  eexists. split; [destruct g; reflexivity|].
  split; [rewrite length_map, length_seq; reflexivity|].
  apply Forall_forall. intros p Hin.
  apply in_map_iff in Hin. destruct Hin as (i & <- & _).
  destruct (particle_draws ext _ i) as [[[a speed] raw] sz].
  cbn [Particle.pos Particle.color Particle.life].
  split; [reflexivity|]. split; [reflexivity|].
  pose proof (Z.mod_pos_bound raw 100 eq_refl) as Hm.
  assert (H0 : (0 <= IZR (raw mod 100))%R) by (apply IZR_le; lia).
  assert (H1 : (IZR (raw mod 100) <= 99)%R) by (apply IZR_le; lia).
  lra.
Qed.

(** After [integrate_particles] only live particles are left: every
    particle in the list has a strictly positive life, the list has not
    grown, every particle left is one of the old list moved on by a step,
    with its colour and size, and nothing but the particle list has
    changed in the state. *)
Theorem integrate_particles_survivors (dt : R) (g : ArkanoidImpl) :
  let g' := integrate_particles dt g in
  Forall (fun p' =>
            (0 < Particle.life p')%R
            /\ exists p, In p (particles g)
                         /\ Particle.color p' = Particle.color p
                         /\ Particle.size p' = Particle.size p)
         (particles g')
  /\ (List.length (particles g') <= List.length (particles g))%nat
  /\ g' = set_particles (particles g') g.
Proof.
  cbv zeta. unfold integrate_particles.
  change (particles (set_particles ?v ?x)) with v.
  split; [|split; [|reflexivity]].
  - apply Forall_forall. intros p' Hin.
    apply filter_In in Hin. destruct Hin as (Hin & Hlive).
    apply in_map_iff in Hin. destruct Hin as (p & <- & Hp).
    apply negb_true_iff, fleb_false_iff in Hlive.
    split; [exact Hlive|]. exists p. split; [exact Hp|].
    split; reflexivity.
  - rewrite <- (length_map (particle_step dt) (particles g)).
    apply filter_length_le.
Qed.

(** ** Falling bonuses *)

Lemma bonus_step_survivor (ext : Extern) (dt : R) (b : Bonus.t)
    (g : ArkanoidImpl) :
  Bonus.alive (fst (bonus_step ext dt b g)) = true ->
  (vy (pos (Bonus.rect_world (fst (bonus_step ext dt b g))))
   <= vy (world_size g) + 20)%R.
Proof.
  unfold bonus_step.
  destruct (negb (Bonus.alive b)) eqn:Ea.
  - apply negb_true_iff in Ea. cbn [fst]. congruence.
  - cbv zeta.
    match goal with
    | |- context [if ?c then (?x, apply_bonus ext ?b' g) else _] =>
        destruct c; set (bm := b')
    end.
    + pose proof (apply_bonus_rules ext bm g) as Hr.
      unfold rules in Hr. injection Hr as _ Hw _ _.
      cbv iota beta. cbn [fst]. rewrite Hw.
      match goal with
      | |- context [if fltb (vy (world_size g) + 20) ?y then _ else _] =>
          destruct (fltb (vy (world_size g) + 20) y)
      end; cbn; discriminate.
    + cbv iota beta. cbn [fst].
      match goal with
      | |- context [if fltb (vy (world_size g) + 20) ?y then _ else _] =>
          destruct (fltb (vy (world_size g) + 20) y) eqn:E
      end; [cbn; discriminate|].
      apply fltb_false_iff in E. intros _. exact E.
Qed.

Lemma bonuses_loop_survivors (ext : Extern) (dt : R) (bs : list Bonus.t)
    (g : ArkanoidImpl) :
  List.length (fst (bonuses_loop ext dt bs g)) = List.length bs
  /\ Forall (fun b => (vy (pos (Bonus.rect_world b))
                       <= vy (world_size g) + 20)%R)
            (filter Bonus.alive (fst (bonuses_loop ext dt bs g))).
Proof.
  revert g. induction bs as [|b rest IH]; intros g;
    [split; [reflexivity | constructor]|].
  cbn [bonuses_loop].
  pose proof (bonus_step_survivor ext dt b g) as Hb.
  pose proof (bonus_step_rules ext dt b g) as Hr.
  destruct (bonus_step ext dt b g) as [b' g1]. cbn [fst snd] in Hb, Hr.
  unfold rules in Hr. injection Hr as _ Hw _ _.
  destruct (IH g1) as (Hlen & Hall).
  destruct (bonuses_loop ext dt rest g1) as [rest' g2]. cbn [fst] in *.
  split; [cbn [List.length]; congruence|].
  rewrite Hw in Hall. cbn [filter].
  destruct (Bonus.alive b') eqn:Ea; [|exact Hall].
  constructor; [apply Hb; reflexivity | exact Hall].
Qed.

(** After [integrate_bonuses] only live bonuses are left: every bonus in
    the list is alive and not lower than 20 units below the world's
    bottom edge, the list has not grown, and the settings, the world, the
    game state and the pause flag are as they were. *)
Theorem integrate_bonuses_survivors (ext : Extern) (dt : R)
    (g : ArkanoidImpl) :
  let g' := integrate_bonuses ext dt g in
  Forall (fun b => Bonus.alive b = true
                   /\ (vy (pos (Bonus.rect_world b))
                       <= vy (world_size g') + 20)%R)
         (bonuses g')
  /\ (List.length (bonuses g') <= List.length (bonuses g))%nat
  /\ rules g' = rules g.
Proof.
  cbv zeta.
  pose proof (integrate_bonuses_rules ext dt g) as Hr.
  split; [|split; [|exact Hr]].
  - unfold rules in Hr. injection Hr as _ Hw _ _. rewrite Hw.
    unfold integrate_bonuses.
    destruct (bonuses_loop_survivors ext dt (bonuses g) g) as (_ & Hall).
    destruct (bonuses_loop ext dt (bonuses g) g) as [bs g1]. cbn [fst] in *.
    change (bonuses (set_bonuses ?v ?x)) with v.
    apply Forall_forall. intros b Hin. split.
    + apply filter_In in Hin. apply Hin.
    + rewrite Forall_forall in Hall. apply Hall, Hin.
  - unfold integrate_bonuses.
    destruct (bonuses_loop_survivors ext dt (bonuses g) g) as (Hlen & _).
    destruct (bonuses_loop ext dt (bonuses g) g) as [bs g1]. cbn [fst] in *.
    change (bonuses (set_bonuses ?v ?x)) with v.
    rewrite <- Hlen. apply filter_length_le.
Qed.

(** ** Packed colours *)

Lemma testbit_above (x k n : Z) :
  0 <= x < 2 ^ k -> 0 <= k <= n -> Z.testbit x n = false.
Proof.
  intros Hx Hk. rewrite <- (Z.mod_small x (2 ^ k)) by exact Hx.
  apply Z.mod_pow2_bits_high. exact Hk.
Qed.

Lemma lor_add_disjoint (y x k : Z) :
  0 <= k -> 0 <= x < 2 ^ k -> Z.lor (y * 2 ^ k) x = y * 2 ^ k + x.
Proof.
  intros Hk Hx.
  assert (Hand : Z.land (y * 2 ^ k) x = 0).
  { apply Z.bits_inj'. intros n Hn. rewrite Z.land_spec, Z.bits_0.
    destruct (Z.lt_ge_cases n k) as [Hlt|Hge].
    - rewrite Z.mul_pow2_bits_low by exact Hlt. reflexivity.
    - rewrite (testbit_above x k n) by (auto; lia). apply andb_false_r. }
  rewrite <- Z.lxor_lor by exact Hand.
  symmetry. apply Z.add_nocarry_lxor. exact Hand.
Qed.

Lemma IM_COL32_sum (r g b a : Z) :
  is_byte r -> is_byte g -> is_byte b -> is_byte a ->
  IM_COL32 r g b a = r + 256 * g + 65536 * b + 16777216 * a.
Proof.
  unfold is_byte. intros Hr Hg Hb Ha.
  unfold IM_COL32, u32, IM_COL32_R_SHIFT, IM_COL32_G_SHIFT, IM_COL32_B_SHIFT,
    IM_COL32_A_SHIFT.
  rewrite !Z.shiftl_mul_pow2 by lia.
  rewrite (Z.mod_small r), (Z.mod_small g), (Z.mod_small b), (Z.mod_small a)
    by lia.
  change (2 ^ 0) with 1. change (2 ^ 8) with 256. change (2 ^ 16) with 65536.
  change (2 ^ 24) with 16777216.
  rewrite !Z.mod_small by lia.
  replace (a * 16777216) with (a * 256 * 2 ^ 16) by (change (2 ^ 16) with 65536; lia).
  assert (H16 : 0 <= b * 65536 < 2 ^ 24) by (change (2 ^ 24) with 16777216; lia).
  replace (a * 256 * 2 ^ 16) with (a * 2 ^ 24)
    by (change (2 ^ 16) with 65536; change (2 ^ 24) with 16777216; lia).
  rewrite (lor_add_disjoint a (b * 65536) 24) by (lia || exact H16).
  change (2 ^ 24) with 16777216.
  replace (a * 16777216 + b * 65536) with ((a * 256 + b) * 2 ^ 16)
    by (change (2 ^ 16) with 65536; lia).
  rewrite (lor_add_disjoint (a * 256 + b) (g * 256) 16)
    by (change (2 ^ 16) with 65536; lia).
  change (2 ^ 16) with 65536.
  replace ((a * 256 + b) * 65536 + g * 256)
    with (((a * 256 + b) * 256 + g) * 2 ^ 8)
    by (change (2 ^ 8) with 256; lia).
  rewrite (lor_add_disjoint _ (r * 1) 8) by (change (2 ^ 8) with 256; lia).
  change (2 ^ 8) with 256. lia.
Qed.

Lemma col_channel_div (c shift : Z) :
  0 <= shift -> col_channel c shift = (c / 2 ^ shift) mod 256.
Proof.
  intros H. unfold col_channel. rewrite Z.shiftr_div_pow2 by exact H.
  change 255 with (Z.ones 8). rewrite Z.land_ones by lia. reflexivity.
Qed.

Lemma col_channel_pack (r g b a : Z) :
  is_byte r -> is_byte g -> is_byte b -> is_byte a ->
  col_channel (IM_COL32 r g b a) IM_COL32_R_SHIFT = r
  /\ col_channel (IM_COL32 r g b a) IM_COL32_G_SHIFT = g
  /\ col_channel (IM_COL32 r g b a) IM_COL32_B_SHIFT = b
  /\ col_channel (IM_COL32 r g b a) IM_COL32_A_SHIFT = a.
Proof.
  intros Hr Hg Hb Ha. rewrite (IM_COL32_sum r g b a Hr Hg Hb Ha).
  unfold is_byte in *.
  unfold IM_COL32_R_SHIFT, IM_COL32_G_SHIFT, IM_COL32_B_SHIFT, IM_COL32_A_SHIFT.
  rewrite !col_channel_div by lia.
  change (2 ^ 0) with 1. change (2 ^ 8) with 256. change (2 ^ 16) with 65536.
  change (2 ^ 24) with 16777216.
  set (c := r + 256 * g + 65536 * b + 16777216 * a).
  assert (D0 : c / 1 = c) by apply Z.div_1_r.
  assert (D8 : c / 256 = g + 256 * b + 65536 * a)
    by (symmetry; apply (Z.div_unique c 256 _ r); subst c; lia).
  assert (D16 : c / 65536 = b + 256 * a)
    by (symmetry; apply (Z.div_unique c 65536 _ (r + 256 * g)); subst c; lia).
  assert (D24 : c / 16777216 = a)
    by (symmetry;
        apply (Z.div_unique c 16777216 _ (r + 256 * g + 65536 * b));
        subst c; lia).
  rewrite D0, D8, D16, D24.
  split; [symmetry; apply (Z.mod_unique c 256 (g + 256 * b + 65536 * a) r);
          subst c; lia|].
  split; [symmetry; apply (Z.mod_unique _ 256 (b + 256 * a) g); lia|].
  split; [symmetry; apply (Z.mod_unique _ 256 a b); lia|].
  apply Z.mod_small. lia.
Qed.

(** Packing four bytes with [IM_COL32] and reading a channel back with
    [(c >> shift) & 255] gives the byte that was packed, for each of the
    four channels; the packed colour fits in 32 bits. *)
Theorem col_channel_IM_COL32 (r g b a : Z) :
  is_byte r -> is_byte g -> is_byte b -> is_byte a ->
  col_channel (IM_COL32 r g b a) IM_COL32_R_SHIFT = r
  /\ col_channel (IM_COL32 r g b a) IM_COL32_G_SHIFT = g
  /\ col_channel (IM_COL32 r g b a) IM_COL32_B_SHIFT = b
  /\ col_channel (IM_COL32 r g b a) IM_COL32_A_SHIFT = a
  /\ 0 <= IM_COL32 r g b a < 4294967296.
Proof.
  intros Hr Hg Hb Ha.
  destruct (col_channel_pack r g b a Hr Hg Hb Ha) as (Cr & Cg & Cb & Ca).
  repeat (split; [assumption|]).
  rewrite (IM_COL32_sum r g b a Hr Hg Hb Ha). unfold is_byte in *. lia.
Qed.

Lemma col_channel_IM_COL32_witness :
  col_channel (IM_COL32 140 180 230 255) IM_COL32_G_SHIFT = 180.
Proof.
  assert (B : forall z, 0 <= z <= 255 -> is_byte z) by (intros z H; exact H).
  destruct (col_channel_IM_COL32 140 180 230 255
              (B 140 ltac:(lia)) (B 180 ltac:(lia)) (B 230 ltac:(lia))
              (B 255 ltac:(lia)))
    as (_ & H & _).
  exact H.
Defined.

Lemma col_channel_byte (c shift : Z) : 0 <= shift -> is_byte (col_channel c shift).
Proof.
  intros H. rewrite col_channel_div by exact H. unfold is_byte.
  pose proof (Z.mod_pos_bound (c / 2 ^ shift) 256 eq_refl). lia.
Qed.

(** A brick that survives a hit is tinted from its base colour, not from
    the colour it shows: decoded as the drawing code decodes it, the new
    colour is opaque, and with two hit-points left its red is the base
    red plus 30 (at most 255), its green the base green minus 20 (at
    least 60), its blue the base blue minus 60 (at least 30); with one
    hit-point left the shifts are 60, 40 and 100 and the floors 40 and
    20; with more left the base channels are shown.  The base colour is
    kept. *)
Theorem damaged_brick_colour (ext : Extern) (n hit_pos : Vect) (b : Brick.t)
    (g : ArkanoidImpl) (hits : list Hit) :
  1 < Brick.hit_points b <= INT_MAX ->
  let b' := fst (fst (brick_hit ext n hit_pos b g hits)) in
  let red := col_channel (Brick.base_color b) IM_COL32_R_SHIFT in
  let green := col_channel (Brick.base_color b) IM_COL32_G_SHIFT in
  let blue := col_channel (Brick.base_color b) IM_COL32_B_SHIFT in
  let shown := fun shift => col_channel (Brick.color b') shift in
  Brick.base_color b' = Brick.base_color b
  /\ shown IM_COL32_A_SHIFT = 255
  /\ (Brick.hit_points b' = 2 ->
        shown IM_COL32_R_SHIFT = Z.min 255 (red + 30)
        /\ shown IM_COL32_G_SHIFT = Z.max 60 (green - 20)
        /\ shown IM_COL32_B_SHIFT = Z.max 30 (blue - 60))
  /\ (Brick.hit_points b' = 1 ->
        shown IM_COL32_R_SHIFT = Z.min 255 (red + 60)
        /\ shown IM_COL32_G_SHIFT = Z.max 40 (green - 40)
        /\ shown IM_COL32_B_SHIFT = Z.max 20 (blue - 100))
  /\ (2 < Brick.hit_points b' ->
        shown IM_COL32_R_SHIFT = red
        /\ shown IM_COL32_G_SHIFT = green
        /\ shown IM_COL32_B_SHIFT = blue).
Proof.
  intros Hhp. cbv zeta.
  pose proof (col_channel_byte (Brick.base_color b) IM_COL32_R_SHIFT
                ltac:(discriminate)) as Hr.
  pose proof (col_channel_byte (Brick.base_color b) IM_COL32_G_SHIFT
                ltac:(discriminate)) as Hg.
  pose proof (col_channel_byte (Brick.base_color b) IM_COL32_B_SHIFT
                ltac:(discriminate)) as Hb.
  set (red := col_channel (Brick.base_color b) IM_COL32_R_SHIFT) in *.
  set (green := col_channel (Brick.base_color b) IM_COL32_G_SHIFT) in *.
  set (blue := col_channel (Brick.base_color b) IM_COL32_B_SHIFT) in *.
  unfold brick_hit. cbv zeta.
  destruct (Brick.hit_points b >? 1) eqn:E;
    [|rewrite Z.gtb_ltb in E; apply Z.ltb_ge in E; lia].
  cbn [fst snd Brick.base_color Brick.color Brick.set_color
       Brick.set_hit_points Brick.hit_points].
  assert (Hd : int_sub (Brick.hit_points b) 1 = Brick.hit_points b - 1).
  { unfold int_sub. apply wrap_id.
    unfold int_range, INT_MIN, INT_MAX in *. lia. }
  unfold damage_color.
  cbn [Brick.base_color Brick.hit_points Brick.set_hit_points].
  fold red green blue. rewrite Hd.
  unfold is_byte in Hr, Hg, Hb.
  assert (W : forall z, -1000 <= z <= 1000 -> wrap z = z).
  { intros z Hz. apply wrap_id. unfold int_range, INT_MIN, INT_MAX. lia. }
  unfold int_add, int_sub.
  rewrite !W by lia. rewrite !imin_min, !imax_max.
  assert (B : forall z, 0 <= z <= 255 -> is_byte z) by (intros z H; exact H).
  split; [reflexivity|].
  destruct (Brick.hit_points b - 1 =? 2) eqn:E2;
    [|destruct (Brick.hit_points b - 1 =? 1) eqn:E1].
  - apply Z.eqb_eq in E2.
    destruct (col_channel_pack (Z.min 255 (red + 30)) (Z.max 60 (green - 20))
                (Z.max 30 (blue - 60)) 255)
      as (Cr & Cg & Cb & Ca); try (apply B; lia).
    rewrite Cr, Cg, Cb, Ca. repeat split; (reflexivity || lia).
  - apply Z.eqb_eq in E1.
    destruct (col_channel_pack (Z.min 255 (red + 60)) (Z.max 40 (green - 40))
                (Z.max 20 (blue - 100)) 255)
      as (Cr & Cg & Cb & Ca); try (apply B; lia).
    rewrite Cr, Cg, Cb, Ca. repeat split; (reflexivity || lia).
  - apply Z.eqb_neq in E2. apply Z.eqb_neq in E1.
    destruct (col_channel_pack red green blue 255)
      as (Cr & Cg & Cb & Ca); try (apply B; lia).
    rewrite Cr, Cg, Cb, Ca. repeat split; (reflexivity || lia).
Qed.

Lemma damaged_brick_colour_witness :
  col_channel
    (Brick.color
       (fst (fst (brick_hit demo_extern (mkVect 0 1) (mkVect 50 80)
                            demo_brick demo_game []))))
    IM_COL32_A_SHIFT = 255.
Proof.
  assert (H : 1 < Brick.hit_points demo_brick <= INT_MAX)
    by (unfold INT_MAX; cbn; lia).
  destruct (damaged_brick_colour demo_extern (mkVect 0 1) (mkVect 50 80)
              demo_brick demo_game [] H) as (_ & Ha & _).
  exact Ha.
Defined.

(** ** The nuke-row key *)

Lemma nuke_brick_clears (b : Brick.t) (g : ArkanoidImpl) :
  let b' := fst (nuke_brick b g) in
  (Brick.alive b' = true -> ~ level_with (vy (ball_pos g)) b')
  /\ (b' = b
      \/ (b' = Brick.set_alive false b /\ Brick.alive b = true
          /\ level_with (vy (ball_pos g)) b)).
Proof.
  cbv zeta. unfold nuke_brick, level_with.
  destruct (negb (Brick.alive b)) eqn:Ea; cbn [fst].
  - apply negb_true_iff in Ea. split; [congruence | left; reflexivity].
  - apply negb_false_iff in Ea.
    destruct (fleb _ _ && fleb _ _) eqn:E; cbn [fst].
    + apply andb_true_iff in E. destruct E as (E1 & E2).
      apply fleb_true_iff in E1. apply fleb_true_iff in E2.
      split; [cbn; discriminate|]. right. auto.
    + split; [|left; reflexivity].
      intros _ (H1 & H2).
      apply fleb_true_iff in H1. apply fleb_true_iff in H2.
      rewrite H1, H2 in E. discriminate.
Qed.

Lemma nuke_brick_ball_pos (b : Brick.t) (g : ArkanoidImpl) :
  ball_pos (snd (nuke_brick b g)) = ball_pos g.
Proof.
  unfold nuke_brick.
  destruct (negb (Brick.alive b)); [reflexivity|].
  destruct (_ && _); [|reflexivity].
  cbn [snd]. rewrite (speedup_if_due_changes _). reflexivity.
Qed.

Lemma nuke_loop_clears (bs : list Brick.t) (g : ArkanoidImpl) :
  Forall2 (fun b b' =>
             (Brick.alive b' = true -> ~ level_with (vy (ball_pos g)) b')
             /\ (b' = b
                 \/ (b' = Brick.set_alive false b /\ Brick.alive b = true
                     /\ level_with (vy (ball_pos g)) b)))
          bs (fst (nuke_loop bs g)).
Proof.
  revert g. induction bs as [|b rest IH]; intros g; [constructor|].
  cbn [nuke_loop].
  pose proof (nuke_brick_clears b g) as Hb. cbv zeta in Hb.
  pose proof (nuke_brick_ball_pos b g) as Hp.
  destruct (nuke_brick b g) as [b' g1]. cbn [fst snd] in Hb, Hp.
  specialize (IH g1). rewrite Hp in IH.
  destruct (nuke_loop rest g1) as [rest' g2]. cbn [fst] in *.
  constructor; assumption.
Qed.

(** With the N key down, the controls clear the ball's row: afterwards no
    brick that is alive has the ball's height within its vertical extent,
    and every brick is either as it was or was alive, level with the ball,
    and is now not alive and otherwise as it was. *)
Theorem nuke_row_clears_the_row (ext : Extern) (io : ImGuiIO) (dt : R)
    (g : ArkanoidImpl) :
  KeysDown io GLFW_KEY_N = true ->
  let g' := handle_cheats_and_controls ext io dt g in
  ball_pos g' = ball_pos g
  /\ Forall (fun b => Brick.alive b = true ->
                      ~ level_with (vy (ball_pos g')) b) (bricks g')
  /\ Forall2 (fun b b' =>
                b' = b
                \/ (b' = Brick.set_alive false b /\ Brick.alive b = true
                    /\ level_with (vy (ball_pos g)) b))
             (bricks g) (bricks g').
Proof.
  intros HN g'.
  assert (Hpos : ball_pos g' = ball_pos g).
  { pose proof (handle_cheats_and_controls_playfield ext io dt g) as H.
    unfold playfield in H. injection H as H _ _ _. exact H. }
  split; [exact Hpos|]. rewrite Hpos.
  assert (H : Forall2 (fun b b' =>
             (Brick.alive b' = true -> ~ level_with (vy (ball_pos g)) b')
             /\ (b' = b
                 \/ (b' = Brick.set_alive false b /\ Brick.alive b = true
                     /\ level_with (vy (ball_pos g)) b)))
            (bricks g) (bricks g')).
  { subst g'. read_through_late_controls bricks.
    set (g3 := shop_hotkeys io
                 (speed_pierce_hotkeys io (move_carriage ext io dt g))).
    assert (H3 : bricks g3 = bricks g /\ ball_pos g3 = ball_pos g).
    { subst g3. split.
      - read_through_hotkeys bricks. reflexivity.
      - read_through_hotkeys ball_pos. reflexivity. }
    clearbody g3. destruct H3 as (Hb3 & Hp3).
    unfold nuke_row. rewrite HN.
    pose proof (nuke_loop_clears (bricks g3) g3) as Hl.
    destruct (nuke_loop (bricks g3) g3) as [bs g4]. cbn [fst] in Hl.
    change (bricks (set_bricks bs g4)) with bs.
    rewrite Hb3, Hp3 in Hl. exact Hl. }
  split.
  - clear Hpos. induction H as [|b b' l l' Hb Hl IH]; constructor;
      [apply Hb | exact IH].
  - eapply Forall2_impl; [|exact H]. intros b b' Hb. apply Hb.
Qed.

Lemma nuke_row_clears_the_row_witness :
  Forall (fun b => Brick.alive b = true ->
                   ~ level_with
                       (vy (ball_pos
                              (handle_cheats_and_controls demo_extern nuke_key
                                 0.016 (set_bricks [demo_brick] demo_game))))
                       b)
         (bricks (handle_cheats_and_controls demo_extern nuke_key 0.016
                    (set_bricks [demo_brick] demo_game))).
Proof.
  destruct (nuke_row_clears_the_row demo_extern nuke_key 0.016
              (set_bricks [demo_brick] demo_game) eq_refl) as (_ & H & _).
  exact H.
Defined.

(** ** The walls keep the ball in *)

Lemma ball_walls_inside (ext : Extern) (a : ArkanoidImpl) :
  (3 * ball_radius a - vx (world_size a) <= vx (ball_pos a)
   <= 2 * vx (world_size a) - 3 * ball_radius a)%R ->
  let w := ball_walls ext a in
  (ball_radius a <= vx (ball_pos w) <= vx (world_size a) - ball_radius a)%R
  /\ (ball_radius a <= vy (ball_pos w))%R
  /\ (ball_radius a <= vy (ball_pos a) -> vy (ball_pos w) = vy (ball_pos a))%R.
Proof.
  intros Hx. cbv zeta. unfold ball_walls.
  set (gx := if fltb (vx (ball_pos a)) (ball_radius a) then _ else _).
  assert (Hgx : (ball_radius a <= vx (ball_pos gx)
                 <= vx (world_size a) - ball_radius a)%R
                /\ vy (ball_pos gx) = vy (ball_pos a)
                /\ ball_radius gx = ball_radius a).
  { subst gx.
    destruct (fltb (vx (ball_pos a)) (ball_radius a)) eqn:E1;
      [apply fltb_true_iff in E1
      |apply fltb_false_iff in E1;
       destruct (fltb (vx (world_size a) - ball_radius a) (vx (ball_pos a)))
         eqn:E2;
       [apply fltb_true_iff in E2 | apply fltb_false_iff in E2]];
      try peel_reflect; cbn; repeat split; lra. }
  clearbody gx. destruct Hgx as (Hgx & Hgy & Hgr). cbv zeta.
  rewrite Hgr, Hgy.
  destruct (fltb (vy (ball_pos a)) (ball_radius a)) eqn:E3;
    [apply fltb_true_iff in E3 | apply fltb_false_iff in E3];
    try peel_reflect; cbn; rewrite ?Hgy; repeat split; lra.
Qed.

(** The side walls and the top wall keep the ball in: when the step does
    not lose the ball at the bottom and the ball has not been carried
    farther than one playfield width past a side wall, then after
    [integrate_ball] the ball's centre is at least one radius from the
    left, the right and the top edge of the world, and not lower than one
    radius below the bottom edge. *)
Theorem ball_kept_inside_walls (ext : Extern) (dt : R) (g : ArkanoidImpl) :
  (3 * ball_radius g - vx (world_size g) <= vx (ball_pos (ball_advanced dt g))
   <= 2 * vx (world_size g) - 3 * ball_radius g)%R ->
  (vy (ball_pos (ball_moved ext dt g)) <= vy (world_size g) + ball_radius g)%R ->
  let g' := integrate_ball ext dt g in
  (ball_radius g <= vx (ball_pos g') <= vx (world_size g) - ball_radius g)%R
  /\ (ball_radius g <= vy (ball_pos g') <= vy (world_size g) + ball_radius g)%R.
Proof.
  intros Hx Hkeep g'. subst g'.
  rewrite (ball_not_lost ext dt g Hkeep).
  assert (Ha : world_size (ball_advanced dt g) = world_size g
               /\ ball_radius (ball_advanced dt g) = ball_radius g).
  { unfold ball_advanced, ball_advance.
    change (world_size (set_ball_pos ?v ?x)) with (world_size x).
    change (ball_radius (set_ball_pos ?v ?x)) with (ball_radius x).
    rewrite (ball_renormalize_changes _).
    change (world_size (set_ball_vel ?v ?x)) with (world_size x).
    change (ball_radius (set_ball_vel ?v ?x)) with (ball_radius x).
    rewrite (ball_speed_step_changes _ _). split; reflexivity. }
  destruct Ha as (Hw & Hr).
  unfold ball_moved in *. fold (ball_advanced dt g) in *.
  rewrite <- Hw, <- Hr in Hx.
  destruct (ball_walls_inside ext (ball_advanced dt g) Hx) as (H1 & H2 & _).
  rewrite Hw, Hr in H1. rewrite Hr in H2. split; [exact H1 | split; [exact H2 | exact Hkeep]].
Qed.

Lemma ball_kept_inside_walls_witness :
  (ball_radius demo_flying_ball
   <= vx (ball_pos (integrate_ball demo_extern 0.01 demo_flying_ball))
   <= vx (world_size demo_flying_ball) - ball_radius demo_flying_ball)%R.
Proof.
  destruct (demo_flying_ball_advanced) as (Hpos & Hno).
  assert (Hx : (3 * ball_radius demo_flying_ball
                - vx (world_size demo_flying_ball)
                <= vx (ball_pos (ball_advanced 0.01 demo_flying_ball))
                <= 2 * vx (world_size demo_flying_ball)
                   - 3 * ball_radius demo_flying_ball)%R)
    by (rewrite Hpos; cbn; lra).
  assert (Hk : (vy (ball_pos (ball_moved demo_extern 0.01 demo_flying_ball))
                <= vy (world_size demo_flying_ball)
                   + ball_radius demo_flying_ball)%R).
  { unfold ball_moved. fold (ball_advanced 0.01 demo_flying_ball).
    rewrite (ball_walls_no_hit demo_extern _ Hno), Hpos. cbn. lra. }
  exact (proj1 (ball_kept_inside_walls demo_extern 0.01 demo_flying_ball
                  Hx Hk)).
Defined.

(** ** What the collisions and the bonuses leave alone *)

Lemma brick_hit_reads {A : Type} (f : ArkanoidImpl -> A) (ext : Extern)
    (n hit_pos : Vect) (b : Brick.t) (g : ArkanoidImpl) (hits : list Hit) :
  (forall v g, f (set_ball_vel v g) = f g) ->
  (forall v g, f (set_rand_calls v g) = f g) ->
  (forall v g, f (set_score v g) = f g) ->
  (forall v g, f (set_particles v g) = f g) ->
  (forall v g, f (set_combo_mult v g) = f g) ->
  (forall v g, f (set_combo_timer v g) = f g) ->
  (forall v g, f (set_bonuses v g) = f g) ->
  (forall v g, f (set_destroyed_bricks_count v g) = f g) ->
  (forall v g, f (set_ball_speed_target v g) = f g) ->
  f (snd (fst (brick_hit ext n hit_pos b g hits))) = f g.
Proof.
  intros Hv Hr Hs Hp Hm Ht Hb Hd Hst. unfold brick_hit. cbv zeta.
  set (g0 := if negb (pierce_mode g) then reflect_ball ext n g else g).
  assert (E0 : f g0 = f g).
  { subst g0. destruct (negb (pierce_mode g)); [|reflexivity].
    rewrite (reflect_ball_changes ext n g), Hr. apply Hv. }
  rewrite <- E0. clearbody g0. clear E0.
  destruct (Brick.hit_points b >? 1); cbn [fst snd].
  - rewrite Ht, Hm, (spawn_particles_changes _ _ _ _ _), Hp. apply Hs.
  - rewrite (speedup_if_due_changes _), Hst, Hd.
    destruct (Brick.bonus _).
    + destruct (bonus_of_choice _); unfold spawn_bonus_at; rewrite ?Hb;
        rewrite (spawn_particles_changes _ _ _ _ _), Hp, Ht, Hm; apply Hs.
    + rewrite (spawn_particles_changes _ _ _ _ _), Hp, Ht, Hm. apply Hs.
Qed.

Lemma handle_collisions_reads {A : Type} (f : ArkanoidImpl -> A)
    (ext : Extern) (hits : list Hit) (g : ArkanoidImpl) :
  (forall v g, f (set_ball_pos v g) = f g) ->
  (forall v g, f (set_ball_vel v g) = f g) ->
  (forall v g, f (set_bricks v g) = f g) ->
  (forall v g, f (set_rand_calls v g) = f g) ->
  (forall v g, f (set_score v g) = f g) ->
  (forall v g, f (set_particles v g) = f g) ->
  (forall v g, f (set_combo_mult v g) = f g) ->
  (forall v g, f (set_combo_timer v g) = f g) ->
  (forall v g, f (set_bonuses v g) = f g) ->
  (forall v g, f (set_destroyed_bricks_count v g) = f g) ->
  (forall v g, f (set_ball_speed_target v g) = f g) ->
  f (fst (handle_collisions ext hits g)) = f g.
Proof.
  intros Hpos Hv Hbr Hr Hs Hp Hm Ht Hb Hd Hst.
  unfold handle_collisions.
  set (p := match collide_ball_with_rect (carriage_world g) g with
            | Some _ => _ | None => _ end).
  assert (Hp1 : f (fst p) = f g).
  { subst p.
    destruct (collide_ball_with_rect (carriage_world g) g) as [[n hit_pos]|];
      cbn [fst]; [|reflexivity].
    unfold bounce_from_carriage. rewrite Hv. apply Hpos. }
  destruct p as [g1 hits1]. cbn [fst] in Hp1. rewrite <- Hp1.
  assert (Hl : f (snd (fst (bricks_loop ext (bricks g1) g1 hits1))) = f g1).
  { apply bricks_loop_keeps. intros. apply brick_hit_reads; assumption. }
  destruct (bricks_loop ext (bricks g1) g1 hits1) as [[bs g2] hits2].
  cbn [fst snd] in *. rewrite Hbr. exact Hl.
Qed.

Lemma integrate_ball_reads {A : Type} (f : ArkanoidImpl -> A) (ext : Extern)
    (dt : R) (g : ArkanoidImpl) :
  (forall v g, f (set_ball_pos v g) = f g) ->
  (forall v g, f (set_ball_vel v g) = f g) ->
  (forall v g, f (set_rand_calls v g) = f g) ->
  (forall v g, f (set_ball_speed_cur v g) = f g) ->
  (forall v g, f (set_freeze_timer v g) = f g) ->
  (forall v g, f (set_cheat_freeze_ball v g) = f g) ->
  (forall v g, f (set_state v g) = f g) ->
  (forall v g, f (set_pierce_timer v g) = f g) ->
  (forall v g, f (set_pierce_mode v g) = f g) ->
  (forall v g, f (set_combo_timer v g) = f g) ->
  (forall v g, f (set_combo_mult v g) = f g) ->
  (forall v g, f (set_lives v g) = f g) ->
  f (integrate_ball ext dt g) = f g.
Proof.
  intros Hp Hv Hr Hc Hf Hz Hs Hpt Hpm Hct Hcm Hl. unfold integrate_ball.
  rewrite (ball_bottom_changes _), Hs, Hv, Hp, Hpt, Hpm, Hct, Hcm, Hl.
  apply ball_moved_reads; assumption.
Qed.

Lemma integrate_bonuses_reads {A : Type} (f : ArkanoidImpl -> A)
    (ext : Extern) (dt : R) (g : ArkanoidImpl) :
  (forall b g, f (apply_bonus ext b g) = f g) ->
  (forall v g, f (set_bonuses v g) = f g) ->
  f (integrate_bonuses ext dt g) = f g.
Proof.
  intros Ha Hb. unfold integrate_bonuses.
  pose proof (bonuses_loop_keeps f ext dt Ha (bonuses g) g) as Hl.
  destruct (bonuses_loop ext dt (bonuses g) g) as [bs g1]. cbn [snd] in Hl.
  rewrite Hb. exact Hl.
Qed.

(** ** The trail stays short *)

Lemma trail_bounded_reads (g g' : ArkanoidImpl) :
  ball_trail g' = ball_trail g -> trail_bounded g -> trail_bounded g'.
Proof. unfold trail_bounded. intros ->. auto. Qed.

Lemma trail_step_bounded (g : ArkanoidImpl) :
  trail_bounded g -> trail_bounded (trail_step g).
Proof.
  unfold trail_bounded, trail_step. intros H.
  destruct (trail_mode g).
  - cbv zeta. cbn [ball_trail set_ball_trail].
    change (ball_trail (set_ball_trail ?v ?x)) with v.
    destruct (16 <? List.length (ball_trail g ++ [ball_pos g]))%nat eqn:E.
    + change (ball_trail (set_ball_trail ?v ?x)) with v.
      rewrite length_app in E. cbn [List.length] in E.
      destruct (ball_trail g) as [|p t]; cbn [tl app List.length] in *;
        [lia|].
      rewrite length_app. cbn [List.length]. lia.
    + apply Nat.ltb_ge in E.
      change (ball_trail (set_ball_trail ?v ?x)) with v. exact E.
  - destruct (negb _); [cbn; lia | exact H].
Qed.

Lemma update_trail_bounded (ext : Extern) (io : ImGuiIO) (elapsed : R)
    (g : ArkanoidImpl) :
  trail_bounded g -> trail_bounded (fst (update ext io elapsed g)).
Proof.
  apply update_preserves.
  - intros v g0 H. exact H.
  - intros e g0. apply trail_bounded_reads.
    rewrite (slowmo_step_changes e g0). reflexivity.
  - intros s g0 _. unfold trail_bounded.
    change (ball_trail (reset ext s g0)) with (@nil Vect). cbn. lia.
  - intros g0. apply trail_bounded_reads.
    rewrite (grant_money_from_score_changes g0). reflexivity.
  - intros dt g0. apply handle_cheats_and_controls_preserves.
    + intros g1. apply trail_bounded_reads.
      rewrite (move_carriage_changes ext io dt g1). reflexivity.
    + intros g1. apply trail_bounded_reads.
      rewrite (speed_pierce_hotkeys_changes io g1). reflexivity.
    + intros g1. apply trail_bounded_reads.
      apply shop_hotkeys_keeps; reflexivity.
    + intros g1. apply trail_bounded_reads.
      apply nuke_row_keeps; reflexivity.
    + intros g1. apply trail_bounded_reads.
      rewrite (one_shot_cheats_changes g1). reflexivity.
    + intros g1. apply trail_bounded_reads.
      rewrite (buff_timers_changes dt g1). reflexivity.
    + intros g1. apply trail_bounded_reads.
      rewrite (speed_interpolation_changes dt g1). reflexivity.
    + intros g1. apply trail_bounded_reads.
      rewrite (pierce_combo_timers_changes dt g1). reflexivity.
    + apply trail_step_bounded.
    + intros g1. apply trail_bounded_reads.
      rewrite (shop_message_step_changes dt g1). reflexivity.
  - intros dt g0. apply trail_bounded_reads.
    apply integrate_ball_reads; reflexivity.
  - intros dt g0. apply trail_bounded_reads.
    apply integrate_bonuses_reads; [|reflexivity].
    intros b g1. unfold apply_bonus. destruct (Bonus.type b); reflexivity.
  - intros dt g0 H. exact H.
  - intros hits g0. apply trail_bounded_reads.
    apply handle_collisions_reads; reflexivity.
  - intros g0 H. exact H.
Qed.

(** The trail behind the ball never grows past 16 points: from a state
    whose trail holds at most 16 points, it holds at most 16 after any run
    of frames, with the trail mode on or off and whatever the inputs. *)
Theorem trail_stays_short (ext : Extern) (frames : list (ImGuiIO * R))
    (g : ArkanoidImpl) :
  trail_bounded g -> trail_bounded (run_frames ext frames g).
Proof.
  apply run_frames_preserves. intros io elapsed g0.
  apply update_trail_bounded.
Qed.

Lemma trail_stays_short_witness :
  trail_bounded
    (run_frames demo_extern [(no_keys, 0.016%R)]
       (set_trail_mode true demo_flying_ball)).
Proof.
  apply (trail_stays_short demo_extern [(no_keys, 0.016%R)]
           (set_trail_mode true demo_flying_ball)).
  unfold trail_bounded. cbn. lia.
Defined.

(** ** Lives through a frame *)

Lemma succ_lives (l : Z) : INT_MIN <= l < INT_MAX -> int_add l 1 = l + 1.
Proof.
  intros H. unfold int_add. apply wrap_id.
  unfold int_range, INT_MIN, INT_MAX in *. lia.
Qed.

Lemma shop_hotkeys_lives (io : ImGuiIO) (g : ArkanoidImpl) :
  INT_MIN <= lives g < INT_MAX ->
  lives g <= lives (shop_hotkeys io g)
  <= lives g + (if KeysDown io GLFW_KEY_E then 1 else 0).
Proof.
  intros Hl.
  assert (Hp : forall cost g, lives (snd (try_purchase cost g)) = lives g).
  { intros cost g0. rewrite (try_purchase_changes cost g0). reflexivity. }
  unfold shop_hotkeys. cbv zeta.
  match goal with
  | |- context [buy_on_key io GLFW_KEY_E 20 ?e ?x] => set (g4 := x)
  end.
  assert (E4 : lives g4 = lives g).
  { subst g4.
    do 4 (rewrite buy_on_key_keeps; [| reflexivity | apply Hp]).
    reflexivity. }
  clearbody g4. rewrite <- E4 in *. clear E4 g.
  unfold buy_on_key. destruct (KeysDown io GLFW_KEY_E); [|lia].
  specialize (Hp 20 g4). destruct (try_purchase 20 g4) as [ok g5].
  cbn [snd] in Hp. destruct ok; [|lia].
  cbn [lives set_lives]. change (lives (set_lives ?v ?x)) with v.
  rewrite Hp, succ_lives by exact Hl. lia.
Qed.

Lemma one_shot_cheats_lives (g : ArkanoidImpl) :
  INT_MIN <= lives g < INT_MAX ->
  lives (one_shot_cheats g)
  = lives g + (if cheat_extra_life g then 1 else 0).
Proof.
  intros Hl. unfold one_shot_cheats.
  destruct (cheat_extra_life g); cbv zeta.
  - match goal with |- lives (if ?c then _ else _) = _ => destruct c end;
      cbn; apply succ_lives, Hl.
  - match goal with |- lives (if ?c then _ else _) = _ => destruct c end;
      cbn; lia.
Qed.

Lemma handle_cheats_and_controls_lives (ext : Extern) (io : ImGuiIO) (dt : R)
    (g : ArkanoidImpl) :
  INT_MIN <= lives g -> lives g + 2 <= INT_MAX ->
  lives g <= lives (handle_cheats_and_controls ext io dt g)
  <= lives g + (if KeysDown io GLFW_KEY_E then 1 else 0)
     + (if cheat_extra_life g then 1 else 0).
Proof.
  intros Hlo Hhi. unfold handle_cheats_and_controls. cbv zeta.
  rewrite (shop_message_step_changes _ _).
  change (lives (set_shop_message_timer ?a (set_shop_message ?b ?x)))
    with (lives x).
  rewrite (trail_step_changes _).
  change (lives (set_ball_trail ?a ?x)) with (lives x).
  rewrite (pierce_combo_timers_changes _ _).
  change (lives (set_combo_mult ?a (set_combo_timer ?b
                   (set_pierce_timer ?c (set_pierce_mode ?d ?x)))))
    with (lives x).
  rewrite (speed_interpolation_changes _ _).
  change (lives (set_ball_speed_cur ?a ?x)) with (lives x).
  rewrite (buff_timers_changes _ _).
  change (lives (set_score_mult_value ?a (set_score_mult_timer ?b
                   (set_score_mult_active ?c (set_magnet_timer ?d
                      (set_magnet_active ?e ?x))))))
    with (lives x).
  set (g2 := speed_pierce_hotkeys io (move_carriage ext io dt g)).
  assert (E2 : lives g2 = lives g /\ cheat_extra_life g2 = cheat_extra_life g).
  { subst g2. rewrite (speed_pierce_hotkeys_changes _ _).
    change (lives (set_pierce_timer ?a (set_pierce_mode ?b
                     (set_ball_speed_target ?c ?x))))
      with (lives x).
    change (cheat_extra_life (set_pierce_timer ?a (set_pierce_mode ?b
                                (set_ball_speed_target ?c ?x))))
      with (cheat_extra_life x).
    rewrite (move_carriage_changes _ _ _ _). split; reflexivity. }
  clearbody g2. destruct E2 as (El & Ec). rewrite <- El, <- Ec in *.
  clear El Ec g.
  pose proof (shop_hotkeys_lives io g2 ltac:(lia)) as H3.
  assert (C3 : cheat_extra_life (shop_hotkeys io g2) = cheat_extra_life g2)
    by (apply shop_hotkeys_keeps; reflexivity).
  set (g3 := shop_hotkeys io g2) in *. clearbody g3.
  assert (E4 : lives (nuke_row io g3) = lives g3
               /\ cheat_extra_life (nuke_row io g3) = cheat_extra_life g3)
    by (split; apply nuke_row_keeps; reflexivity).
  set (g4 := nuke_row io g3) in *. clearbody g4. destruct E4 as (E4 & C4).
  rewrite one_shot_cheats_lives.
  - rewrite E4, C4, C3.
    destruct (KeysDown io GLFW_KEY_E), (cheat_extra_life g2); lia.
  - rewrite E4. destruct (KeysDown io GLFW_KEY_E); lia.
Qed.

Lemma integrate_ball_lives (ext : Extern) (dt : R) (g : ArkanoidImpl) :
  INT_MIN < lives g <= INT_MAX ->
  lives g - 1 <= lives (integrate_ball ext dt g) <= lives g.
Proof.
  intros Hl. unfold integrate_ball.
  assert (Em : lives (ball_moved ext dt g) = lives g)
    by (apply ball_moved_reads; reflexivity).
  set (m := ball_moved ext dt g) in *. clearbody m. rewrite <- Em in *.
  assert (Hd : int_sub (lives m) 1 = lives m - 1).
  { unfold int_sub. apply wrap_id.
    unfold int_range, INT_MIN, INT_MAX in *. lia. }
  unfold ball_bottom. destruct (fltb _ _); [|lia].
  cbv zeta.
  match goal with |- _ <= lives (if ?c then _ else _) <= _ => destruct c end;
    destruct (negb (cheat_invincible m)); cbn; rewrite ?Hd; lia.
Qed.

Lemma apply_bonus_lives (ext : Extern) (b : Bonus.t) (g : ArkanoidImpl) :
  INT_MIN <= lives g < INT_MAX ->
  lives g <= lives (apply_bonus ext b g) <= lives g + 1.
Proof.
  intros Hl. unfold apply_bonus.
  destruct (Bonus.type b); cbn; rewrite ?succ_lives by exact Hl; lia.
Qed.

Lemma bonuses_loop_lives (ext : Extern) (dt : R) (bs : list Bonus.t)
    (g : ArkanoidImpl) :
  INT_MIN <= lives g ->
  lives g + Z.of_nat (List.length bs) <= INT_MAX ->
  lives g <= lives (snd (bonuses_loop ext dt bs g))
  <= lives g + Z.of_nat (List.length bs).
Proof.
  revert g. induction bs as [|b rest IH]; intros g Hlo Hhi;
    [cbn; lia|].
  cbn [bonuses_loop]. cbn [List.length] in *.
  rewrite Nat2Z.inj_succ in *.
  assert (Hb : lives g <= lives (snd (bonus_step ext dt b g)) <= lives g + 1).
  { unfold bonus_step. destruct (negb (Bonus.alive b)); [cbn; lia|].
    cbv zeta.
    match goal with
    | |- context [if ?c then (?x, apply_bonus ext ?b' g) else _] => destruct c
    end; cbn [snd]; [apply apply_bonus_lives; lia | lia]. }
  destruct (bonus_step ext dt b g) as [b' g1]. cbn [snd] in Hb.
  specialize (IH g1 ltac:(lia) ltac:(lia)).
  destruct (bonuses_loop ext dt rest g1) as [rest' g2]. cbn [snd] in *. lia.
Qed.

(** A frame of a running game takes at most one life, and gives at most
    what is on offer: one life if the E key is down (a purchase), one if
    the extra-life cheat flag is set, and one for each bonus in flight.
    (The lives are not at the ends of the [int] range.) *)
Theorem frame_takes_at_most_one_life (ext : Extern) (io : ImGuiIO)
    (elapsed : R) (g : ArkanoidImpl) :
  state g = Playing ->
  INT_MIN < lives g ->
  lives g + 2 + Z.of_nat (List.length (bonuses g)) <= INT_MAX ->
  let g' := fst (update ext io elapsed g) in
  lives g - 1 <= lives g' <= lives g + lives_on_offer io g.
Proof.
  intros Hst Hlo Hhi g'. subst g'. unfold lives_on_offer, update.
  set (g1 := set_screen_scale (world_to_screen_scale io g) g).
  cbv zeta.
  pose proof (slowmo_step_changes elapsed g1) as Hs. cbv zeta in Hs.
  destruct (slowmo_step elapsed g1) as [dt g2]. cbn [fst snd] in *.
  assert (H2 : state g2 = Playing /\ lives g2 = lives g
               /\ bonuses g2 = bonuses g
               /\ cheat_extra_life g2 = cheat_extra_life g)
    by (rewrite Hs; cbn; auto).
  destruct H2 as (Hst2 & Hl2 & Hb2 & Hc2).
  rewrite Hst2. cbn [GameState_eqb negb].
  assert (H3 : lives (grant_money_from_score g2) = lives g
               /\ bonuses (grant_money_from_score g2) = bonuses g
               /\ cheat_extra_life (grant_money_from_score g2)
                  = cheat_extra_life g)
    by (rewrite (grant_money_from_score_changes g2); cbn; auto).
  set (g3 := grant_money_from_score g2) in *. clearbody g3.
  destruct H3 as (Hl3 & Hb3 & Hc3).
  rewrite <- Hl3, <- Hb3, <- Hc3 in *. clear Hs Hst2 Hl2 Hb2 Hc2 g1 g2.
  pose proof (handle_cheats_and_controls_lives ext io dt g3
                ltac:(lia) ltac:(lia)) as H4.
  assert (Hb4 : bonuses (handle_cheats_and_controls ext io dt g3)
                = bonuses g3).
  { pose proof (handle_cheats_and_controls_playfield ext io dt g3) as H.
    unfold playfield in H. injection H as _ _ H _. exact H. }
  set (g4 := handle_cheats_and_controls ext io dt g3) in *. clearbody g4.
  assert (Hoff : 0 <= (if KeysDown io GLFW_KEY_E then 1 else 0) <= 1
                 /\ 0 <= (if cheat_extra_life g3 then 1 else 0) <= 1)
    by (destruct (KeysDown io GLFW_KEY_E), (cheat_extra_life g3); lia).
  destruct (paused g4); cbn [fst]; [lia|].
  unfold launch_ball_if_needed.
  pose proof (integrate_ball_lives ext dt g4 ltac:(lia)) as H5.
  assert (Hb5 : bonuses (integrate_ball ext dt g4) = bonuses g4)
    by (apply integrate_ball_reads; reflexivity).
  set (g5 := integrate_ball ext dt g4) in *. clearbody g5.
  assert (H6 : lives g5 <= lives (integrate_bonuses ext dt g5)
               <= lives g5 + Z.of_nat (List.length (bonuses g5))).
  { unfold integrate_bonuses.
    pose proof (bonuses_loop_lives ext dt (bonuses g5) g5) as Hl.
    rewrite Hb5, Hb4 in Hl. specialize (Hl ltac:(lia) ltac:(lia)).
    rewrite Hb5, Hb4.
    destruct (bonuses_loop ext dt (bonuses g3) g5) as [bs g6].
    exact Hl. }
  rewrite Hb5, Hb4 in H6.
  set (g6 := integrate_bonuses ext dt g5) in *. clearbody g6.
  assert (H8 : lives (fst (handle_collisions ext []
                             (integrate_particles dt g6))) = lives g6)
    by (rewrite handle_collisions_reads by reflexivity; reflexivity).
  destruct (handle_collisions ext [] (integrate_particles dt g6))
    as [g8 hits].
  cbn [fst] in *.
  destruct (negb (existsb Brick.alive (bricks g8)));
    [change (lives (set_state Win g8)) with (lives g8)|]; lia.
Qed.

Lemma frame_takes_at_most_one_life_witness :
  lives demo_lost_ball - 1
  <= lives (fst (update demo_extern no_keys 0.01 demo_lost_ball)).
Proof.
  assert (H : lives demo_lost_ball + 2
              + Z.of_nat (List.length (bonuses demo_lost_ball)) <= INT_MAX)
    by (unfold INT_MAX; cbn; lia).
  assert (H0 : INT_MIN < lives demo_lost_ball)
    by (unfold INT_MIN; cbn; lia).
  exact (proj1 (frame_takes_at_most_one_life demo_extern no_keys 0.01
                  demo_lost_ball eq_refl H0 H)).
Defined.

(** ** A hit on the paddle *)

Lemma ball_above_rect_misses (r : Rect) (g : ArkanoidImpl) :
  (0 <= ball_radius g)%R -> (0 <= vy (size r))%R ->
  (vy (ball_pos g) = vy (pos r) - ball_radius g - 0.5)%R ->
  collide_ball_with_rect r g = None.
Proof.
  intros Hr Hh Hy. unfold collide_ball_with_rect. cbv zeta.
  assert (Hc : clampf (vy (ball_pos g)) (vy (pos r)) (vy (pos r) + vy (size r))
               = vy (pos r)).
  { unfold clampf, fmin, fmax. fcases; lra. }
  rewrite Hc.
  assert (Hlt : (ball_radius g * ball_radius g
                 < LengthSquared
                     (vsub (ball_pos g)
                        (mkVect (clampf (vx (ball_pos g)) (vx (pos r))
                                        (vx (pos r) + vx (size r)))
                                (vy (pos r)))))%R).
  { unfold LengthSquared, vsub. cbn [vx vy]. rewrite Hy.
    match goal with
    | |- (_ < ?dx * ?dx + _)%R => pose proof (Rle_0_sqr dx) as Hsq
    end.
    unfold Rsqr in Hsq. nra. }
  apply fltb_true_iff in Hlt. rewrite Hlt. reflexivity.
Qed.

(** A hit on the paddle lifts the ball clear of it: when the ball touches
    the paddle, [handle_collisions] leaves the ball's centre half a unit
    more than one radius above the paddle's top edge, at the same
    horizontal position, so that the ball no longer touches the paddle,
    whatever the bricks do in the same call; and at least one hit is
    recorded. *)
Theorem paddle_hit_lifts_ball (ext : Extern) (hits : list Hit)
    (g : ArkanoidImpl) (n hit_pos : Vect) :
  collide_ball_with_rect (carriage_world g) g = Some (n, hit_pos) ->
  (0 <= ball_radius g)%R -> (0 <= vy (size (carriage_world g)))%R ->
  let g' := fst (handle_collisions ext hits g) in
  ball_pos g'
  = mkVect (vx (ball_pos g))
           (vy (pos (carriage_world g)) - ball_radius g - 0.5)
  /\ carriage_world g' = carriage_world g
  /\ collide_ball_with_rect (carriage_world g') g' = None
  /\ (List.length hits < List.length (snd (handle_collisions ext hits g)))%nat.
Proof.
  intros Hc Hr Hh g'. subst g'. unfold handle_collisions. rewrite Hc.
  set (g1 := bounce_from_carriage _ _ _).
  set (hits1 := add_debug_hit hits hit_pos (mkVect 0 (-1)) g1).
  assert (H1 : ball_pos g1
               = mkVect (vx (ball_pos g))
                        (vy (pos (carriage_world g)) - ball_radius g - 0.5)
               /\ carriage_world g1 = carriage_world g
               /\ ball_radius g1 = ball_radius g)
    by (subst g1; unfold bounce_from_carriage; cbn; auto).
  assert (Hn : List.length hits1 = S (List.length hits))
    by (subst hits1; unfold add_debug_hit; rewrite length_app; cbn; lia).
  clearbody g1 hits1. destruct H1 as (Hp1 & Hc1 & Hr1).
  assert (Hl : (fun x => (ball_pos x, carriage_world x, ball_radius x))
                 (snd (fst (bricks_loop ext (bricks g1) g1 hits1)))
               = (ball_pos g1, carriage_world g1, ball_radius g1)).
  { apply (bricks_loop_keeps
             (fun x => (ball_pos x, carriage_world x, ball_radius x))).
    intros. apply (brick_hit_reads
                     (fun x => (ball_pos x, carriage_world x, ball_radius x)));
      reflexivity. }
  assert (Hg : (List.length hits1
                <= List.length (snd (bricks_loop ext (bricks g1) g1 hits1)))%nat).
  { generalize (bricks g1) as bs. intros bs. revert hits1 Hn g1 Hp1 Hc1 Hr1 Hl.
    intros hits1 _ g1 _ _ _ _. revert g1 hits1.
    induction bs as [|b rest IH]; intros g1 hits1; [cbn; lia|].
    cbn [bricks_loop].
    destruct (negb (Brick.alive b)).
    - specialize (IH g1 hits1).
      destruct (bricks_loop ext rest g1 hits1) as [[rest' g2] hits2].
      exact IH.
    - destruct (collide_ball_with_rect (Brick.rect_world b) g1)
        as [[n0 hp0]|].
      + assert (Hh1 : (S (List.length hits1)
                       = List.length (snd (brick_hit ext n0 hp0 b g1 hits1)))%nat).
        { unfold brick_hit. cbv zeta.
          destruct (Brick.hit_points b >? 1); cbn [snd];
            unfold add_debug_hit; rewrite length_app; cbn; lia. }
        destruct (brick_hit ext n0 hp0 b g1 hits1) as [[b' g2] hits2].
        cbn [snd] in Hh1.
        destruct (negb (pierce_mode g2)); [cbn [snd]; lia|].
        specialize (IH g2 hits2).
        destruct (bricks_loop ext rest g2 hits2) as [[rest' g3] hits3].
        cbn [snd] in *. lia.
      + specialize (IH g1 hits1).
        destruct (bricks_loop ext rest g1 hits1) as [[rest' g2] hits2].
        exact IH. }
  destruct (bricks_loop ext (bricks g1) g1 hits1) as [[bs g2] hits2].
  cbn [fst snd] in *. injection Hl as Hp2 Hc2 Hr2.
  change (ball_pos (set_bricks bs g2)) with (ball_pos g2).
  change (carriage_world (set_bricks bs g2)) with (carriage_world g2).
  rewrite Hp2, Hc2, Hp1, Hc1.
  split; [reflexivity|]. split; [reflexivity|]. split; [|lia].
  apply ball_above_rect_misses.
  - change (ball_radius (set_bricks bs g2)) with (ball_radius g2).
    rewrite Hr2, Hr1. exact Hr.
  - exact Hh.
  - change (ball_pos (set_bricks bs g2)) with (ball_pos g2).
    change (ball_radius (set_bricks bs g2)) with (ball_radius g2).
    rewrite Hp2, Hp1, Hr2, Hr1. reflexivity.
Qed.

Lemma paddle_hit_lifts_ball_witness :
  ball_pos (fst (handle_collisions demo_extern [] demo_ball_on_paddle))
  = mkVect (vx (ball_pos demo_ball_on_paddle))
           (vy (pos (carriage_world demo_ball_on_paddle))
            - ball_radius demo_ball_on_paddle - 0.5).
Proof.
  destruct (collide_ball_with_rect (carriage_world demo_ball_on_paddle)
              demo_ball_on_paddle) as [[n hit_pos]|] eqn:E.
  - assert (Hr : (0 <= ball_radius demo_ball_on_paddle)%R) by (cbn; lra).
    assert (Hh : (0 <= vy (size (carriage_world demo_ball_on_paddle)))%R)
      by (cbn; lra).
    exact (proj1 (paddle_hit_lifts_ball demo_extern [] demo_ball_on_paddle
                    n hit_pos E Hr Hh)).
  - exfalso. revert E. unfold collide_ball_with_rect. cbv zeta.
    match goal with
    | |- context [if fltb ?a ?b then None else _] =>
        replace (fltb a b) with false; [discriminate|]
    end.
    symmetry. apply fltb_false_iff.
    unfold LengthSquared, vsub, clampf, fmin, fmax. cbn. fdecide. cbn. lra.
Defined.

(** ** The purse through a frame *)

Lemma economy_inv_reads (g g' : ArkanoidImpl) :
  purse g' = purse g -> economy_inv g -> economy_inv g'.
Proof.
  unfold purse, economy_inv. intros E H. injection E as -> ->. exact H.
Qed.

Lemma grant_money_from_score_economy (g : ArkanoidImpl) :
  economy_inv g -> 0 < score_per_dollar g -> score g <= INT_MAX ->
  total_money g + Z.max 0 (score g) <= INT_MAX ->
  economy_inv (grant_money_from_score g)
  /\ total_money (grant_money_from_score g) <= INT_MAX.
Proof.
  intros Hinv Hspd Hs Ht. unfold grant_money_from_score.
  set (g1 := if money_from_score_accumulator g <? 0
             then set_money_from_score_accumulator 0 g else g).
  assert (H1 : 0 <= money_from_score_accumulator g1
               /\ score g1 = score g
               /\ score_per_dollar g1 = score_per_dollar g
               /\ purse g1 = purse g).
  { subst g1. destruct (_ <? 0) eqn:E; cbn; [repeat split; lia|].
    apply Z.ltb_ge in E. auto. }
  clearbody g1. destruct H1 as (Ha & Es & Ep & Eu).
  apply (economy_inv_reads g g1 Eu) in Hinv.
  unfold purse in Eu. injection Eu as Eb Et.
  rewrite <- Es in Hs, Ht. rewrite <- Ep in Hspd. rewrite <- Et in Ht.
  clear Es Ep Eb Et g. cbv zeta.
  assert (Hmax : total_money g1 <= INT_MAX) by lia.
  destruct (score g1 <=? money_from_score_accumulator g1) eqn:E1;
    [split; assumption|].
  apply Z.leb_gt in E1.
  assert (Hdelta : int_sub (score g1) (money_from_score_accumulator g1)
                   = score g1 - money_from_score_accumulator g1).
  { apply wrap_id. unfold int_range, INT_MIN, INT_MAX in *. lia. }
  rewrite Hdelta.
  set (delta := score g1 - money_from_score_accumulator g1) in *.
  assert (Hq : 0 <= Z.quot delta (score_per_dollar g1) <= delta).
  { rewrite Z.quot_div_nonneg by lia. split; [apply Z.div_pos; lia|].
    apply Z.div_le_upper_bound; [lia|]. nia. }
  assert (Hd : int_div delta (score_per_dollar g1)
               = Z.quot delta (score_per_dollar g1)).
  { apply wrap_id. unfold int_range, INT_MIN, INT_MAX in *. lia. }
  rewrite Hd. set (dollars := Z.quot delta (score_per_dollar g1)) in *.
  destruct (dollars >? 0); [|split; assumption].
  assert (Hadd : economy_inv (add_money dollars g1)
                 /\ total_money (add_money dollars g1) <= INT_MAX).
  { split; [apply economy_inv_add_money; [exact Hinv | lia]|].
    unfold add_money. destruct (dollars <=? 0); [exact Hmax|].
    cbn. unfold int_add. rewrite wrap_id; [lia|].
    unfold economy_inv, int_range, INT_MIN, INT_MAX in *. lia. }
  exact Hadd.
Qed.

(** A frame keeps the purse sound: when the balance is between 0 and the
    lifetime total, the conversion rate is positive and the lifetime total
    plus the score does not overflow [int], then after [update] the
    balance is still between 0 and the lifetime total, in every game
    state and whatever is bought, converted or reset in the frame. *)
Theorem frame_keeps_economy (ext : Extern) (io : ImGuiIO) (elapsed : R)
    (g : ArkanoidImpl) :
  economy_inv g -> 0 < score_per_dollar g -> score g <= INT_MAX ->
  total_money g + Z.max 0 (score g) <= INT_MAX ->
  economy_inv (fst (update ext io elapsed g)).
Proof.
  intros Hinv Hspd Hs Ht. unfold update.
  set (g1 := set_screen_scale (world_to_screen_scale io g) g).
  cbv zeta.
  pose proof (slowmo_step_changes elapsed g1) as Hc. cbv zeta in Hc.
  destruct (slowmo_step elapsed g1) as [dt g2]. cbn [fst snd] in *.
  assert (H2 : purse g2 = purse g /\ score g2 = score g
               /\ score_per_dollar g2 = score_per_dollar g)
    by (rewrite Hc; cbn; auto).
  destruct H2 as (Eu & Es & Ep).
  apply (economy_inv_reads g g2 Eu) in Hinv.
  unfold purse in Eu. injection Eu as Eb Et.
  rewrite <- Es in Hs, Ht. rewrite <- Ep in Hspd. rewrite <- Et in Ht.
  clear Hc Es Ep Eb Et g1 g.
  destruct (negb (GameState_eqb (state g2) Playing)); cbn [fst].
  - destruct (KeysDown io GLFW_KEY_R); [apply economy_inv_reset|]; exact Hinv.
  - destruct (grant_money_from_score_economy g2 Hinv Hspd Hs Ht)
      as (H3 & M3).
    set (g3 := grant_money_from_score g2) in *. clearbody g3.
    assert (H4 : economy_inv (handle_cheats_and_controls ext io dt g3)).
    { assert (Hr : int_range (balance g3))
        by (unfold economy_inv, int_range, INT_MIN, INT_MAX in *; lia).
      destruct (controls_spend ext io dt g3 Hr) as (T4 & B4 & Z4 & _).
      unfold economy_inv in *. lia. }
    set (g4 := handle_cheats_and_controls ext io dt g3) in *. clearbody g4.
    destruct (paused g4); cbn [fst]; [exact H4|].
    unfold launch_ball_if_needed.
    assert (E8 : purse (fst (handle_collisions ext []
                               (integrate_particles dt
                                  (integrate_bonuses ext dt
                                     (integrate_ball ext dt g4)))))
                 = purse g4).
    { rewrite handle_collisions_reads by reflexivity.
      change (purse (integrate_particles dt ?x)) with (purse x).
      rewrite integrate_bonuses_reads;
        [| intros b x; unfold apply_bonus; destruct (Bonus.type b); reflexivity
         | reflexivity].
      apply integrate_ball_reads; reflexivity. }
    destruct (handle_collisions ext []
                (integrate_particles dt
                   (integrate_bonuses ext dt (integrate_ball ext dt g4))))
      as [g8 hits].
    cbn [fst] in *.
    destruct (negb (existsb Brick.alive (bricks g8)));
      [apply (economy_inv_reads g8); [reflexivity|]|];
      exact (economy_inv_reads g4 g8 E8 H4).
Qed.

Lemma frame_keeps_economy_witness :
  economy_inv (fst (update demo_extern no_keys 0.016 demo_scored_game)).
Proof.
  apply (frame_keeps_economy demo_extern no_keys 0.016 demo_scored_game).
  - unfold economy_inv. cbn. lia.
  - cbn. lia.
  - unfold INT_MAX. cbn. lia.
  - unfold INT_MAX. cbn. lia.
Defined.

(** ** Buying from the panel *)

Lemma try_buy_spends_more (j : Z) (ui : CheatsPanelUI) (cost : Z)
    (effect : ArkanoidImpl -> ArkanoidImpl) (msg : string)
    (g0 g : ArkanoidImpl) :
  spent_at_most j g0 g ->
  (forall g, purse (effect g) = purse g) -> 0 <= cost ->
  spent_at_most (j + cost) g0 (try_buy ui cost effect msg g).
Proof.
  intros H He Hc. eapply spent_at_most_trans; [exact H|].
  assert (Hr : int_range (balance g)) by apply H.
  unfold try_buy. destruct (button_clicked ui msg).
  - pose proof (try_purchase_spends cost g Hr) as Hp.
    rewrite Z.max_r in Hp by exact Hc.
    destruct (try_purchase cost g) as [ok g1]. cbn [snd] in Hp.
    destruct ok; [|exact Hp].
    apply (spent_at_most_reads _ _ g1); [apply He | exact Hp].
  - unfold spent_at_most, int_range in *. intuition lia.
Qed.

Lemma try_buy_preserves (P : ArkanoidImpl -> Prop) (ui : CheatsPanelUI)
    (cost : Z) (effect : ArkanoidImpl -> ArkanoidImpl) (msg : string)
    (g : ArkanoidImpl) :
  (forall g, P g -> P (snd (try_purchase cost g))) ->
  (forall g, P g -> P (effect g)) ->
  P g -> P (try_buy ui cost effect msg g).
Proof.
  intros Hp He Hg. unfold try_buy.
  destruct (button_clicked ui msg); [|exact Hg].
  specialize (Hp g Hg). destruct (try_purchase cost g) as [ok g1].
  cbn [snd] in Hp. destruct ok; [apply He|]; exact Hp.
Qed.

Lemma try_buy_spends_clicked (j : Z) (ui : CheatsPanelUI) (cost : Z)
    (effect : ArkanoidImpl -> ArkanoidImpl) (msg : string)
    (g0 g : ArkanoidImpl) :
  spent_at_most j g0 g ->
  (forall g, purse (effect g) = purse g) -> 0 <= cost ->
  spent_at_most (j + (if button_clicked ui msg then cost else 0)) g0
                (try_buy ui cost effect msg g).
Proof.
  intros H He Hc.
  destruct (button_clicked ui msg) eqn:E.
  - apply try_buy_spends_more; assumption.
  - unfold try_buy. rewrite E. rewrite Z.add_0_r. exact H.
Qed.

Lemma try_buy_reads {A : Type} (f : ArkanoidImpl -> A) (ui : CheatsPanelUI)
    (cost : Z) (effect : ArkanoidImpl -> ArkanoidImpl) (msg : string)
    (g : ArkanoidImpl) :
  (forall g, f (snd (try_purchase cost g)) = f g) ->
  (forall g, f (effect g) = f g) ->
  f (try_buy ui cost effect msg g) = f g.
Proof.
  intros Hp He. unfold try_buy.
  destruct (button_clicked ui msg); [|reflexivity].
  specialize (Hp g). destruct (try_purchase cost g) as [ok g1].
  cbn [snd] in Hp. destruct ok; [rewrite He|]; exact Hp.
Qed.

(** Buying from the panel is as safe as buying with the keys: whatever
    buttons are clicked, [draw_cheats_panel] leaves the lifetime total as
    it is, takes at most 10 + 20 + 10 + 15 + 60 = 115 dollars from the
    balance and never takes it below zero, and keeps the multipliers in
    range; with the popup not shown it changes nothing.  The score
    multiplier is sold as coded: when the popup is shown, the multiplier
    button is clicked and the balance covers its price after the
    purchases clicked before it, the buff is active afterwards and its
    value is 3 when the next [rand()] is even and 2 when it is odd; when
    the button is not clicked the multipliers are as they were. *)
Theorem cheats_panel_never_overdraws (ext : Extern) (ui : CheatsPanelUI)
    (g : ArkanoidImpl) :
  int_range (balance g) -> multipliers_ok g ->
  let g' := draw_cheats_panel ext ui g in
  total_money g' = total_money g
  /\ balance g - 115 <= balance g' <= balance g
  /\ (0 <= balance g -> 0 <= balance g')
  /\ multipliers_ok g'
  /\ (popup_shown ui = false -> g' = g)
  /\ (popup_shown ui = true ->
      button_clicked ui "Buy Multiplier (T) - $15" = true ->
      (if button_clicked ui "Buy Freeze (Q) - $10" then 10 else 0)
      + (if button_clicked ui "Buy +1 Life (E) - $20" then 20 else 0)
      + (if button_clicked ui "Buy Magnet (X) - $10" then 10 else 0)
      + 15 <= balance g ->
      score_mult_active g' = true
      /\ score_mult_value g'
         = (if int_rem (c_rand ext (rand_calls g)) 2 =? 0 then 3 else 2))
  /\ (button_clicked ui "Buy Multiplier (T) - $15" = false ->
      multipliers g' = multipliers g).
Proof.
  intros Hr Hm g'. subst g'.
  assert (Hs : spent_at_most 115 g (draw_cheats_panel ext ui g)).
  { unfold draw_cheats_panel.
    destruct (popup_shown ui);
      [|unfold spent_at_most, int_range in *; intuition lia].
    cbv zeta. change 115 with (0 + 10 + 20 + 10 + 15 + 60).
    repeat (apply try_buy_spends_more; [|reflexivity|lia]).
    apply spent_at_most_refl, Hr. }
  destruct Hs as (Ht & Hb & H0 & _).
  assert (Hp : forall {A : Type} (f : ArkanoidImpl -> A),
             (forall v x, f (set_balance v x) = f x) ->
             (forall v x, f (set_shop_message v x) = f x) ->
             (forall v x, f (set_shop_message_timer v x) = f x) ->
             forall cost x, f (snd (try_purchase cost x)) = f x).
  { intros A f F1 F2 F3 cost x. rewrite (try_purchase_changes cost x).
    rewrite F3, F2, F1. reflexivity. }
  split; [exact Ht|]. split; [exact Hb|]. split; [exact H0|]. split;
    [|split; [|split]].
  - assert (Hpm : forall cost x,
               multipliers_ok x -> multipliers_ok (snd (try_purchase cost x))).
    { intros cost x. apply multipliers_ok_reads.
      apply (Hp _ multipliers); reflexivity. }
    unfold draw_cheats_panel. destruct (popup_shown ui); [|exact Hm].
    cbv zeta.
    repeat (apply try_buy_preserves; [apply Hpm | |]); try exact Hm;
      intros g0 H0'; try exact H0'.
    destruct H0' as (Hc & _). unfold multipliers_ok. cbn.
    split; [exact Hc|].
    destruct (int_rem _ 2 =? 0); split; (lia || discriminate).
  - intros Hno. unfold draw_cheats_panel. rewrite Hno. reflexivity.
  - intros Hshown Hclick Hfunds.
    unfold draw_cheats_panel. rewrite Hshown. cbv zeta.
    match goal with
    | |- context [try_buy ui 15 ?e "Buy Multiplier (T) - $15" ?x] =>
        set (g3 := x); set (sell := e)
    end.
    assert (H3 : spent_at_most
                   (0 + (if button_clicked ui "Buy Freeze (Q) - $10"
                         then 10 else 0)
                    + (if button_clicked ui "Buy +1 Life (E) - $20"
                       then 20 else 0)
                    + (if button_clicked ui "Buy Magnet (X) - $10"
                       then 10 else 0)) g g3).
    { subst g3.
      repeat (apply try_buy_spends_clicked; [|reflexivity|lia]).
      apply spent_at_most_refl, Hr. }
    assert (R3 : rand_calls g3 = rand_calls g).
    { subst g3.
      repeat (rewrite try_buy_reads;
              [| apply (Hp _ rand_calls); reflexivity | reflexivity]).
      reflexivity. }
    clearbody g3. destruct H3 as (_ & (B3 & _) & _ & _).
    assert (Hbuy : fst (try_purchase 15 g3) = true)
      by (apply try_purchase_ok_iff; lia).
    assert (Hrc : rand_calls (snd (try_purchase 15 g3)) = rand_calls g3)
      by (apply (Hp _ rand_calls); reflexivity).
    assert (H4 : score_mult_active (try_buy ui 15 sell
                                      "Buy Multiplier (T) - $15" g3) = true
                 /\ score_mult_value (try_buy ui 15 sell
                                        "Buy Multiplier (T) - $15" g3)
                    = (if int_rem (c_rand ext (rand_calls g)) 2 =? 0
                       then 3 else 2)).
    { unfold try_buy. rewrite Hclick.
      destruct (try_purchase 15 g3) as [ok g4]. cbn [fst snd] in *.
      subst ok sell. cbn. rewrite Hrc, R3. split; reflexivity. }
    set (g5 := try_buy ui 15 sell "Buy Multiplier (T) - $15" g3) in *.
    clearbody g5.
    rewrite !try_buy_reads;
      [ exact H4
      | apply (Hp _ score_mult_value); reflexivity | reflexivity
      | apply (Hp _ score_mult_active); reflexivity | reflexivity ].
  - intros Hclick. unfold draw_cheats_panel.
    destruct (popup_shown ui); [|reflexivity]. cbv zeta.
    rewrite try_buy_reads;
      [| apply (Hp _ multipliers); reflexivity | reflexivity].
    unfold try_buy at 1. rewrite Hclick.
    repeat (rewrite try_buy_reads;
            [| apply (Hp _ multipliers); reflexivity | reflexivity]).
    reflexivity.
Qed.

Lemma cheats_panel_never_overdraws_witness :
  score_mult_value (draw_cheats_panel demo_extern click_everything
                      (set_balance 200 demo_game))
  = 3
  /\ 0 <= balance (draw_cheats_panel demo_extern click_everything
                     (set_balance 200 demo_game)).
Proof.
  assert (Hr : int_range (balance (set_balance 200 demo_game)))
    by (unfold int_range, INT_MIN, INT_MAX; cbn; lia).
  assert (Hm : multipliers_ok (set_balance 200 demo_game))
    by (unfold multipliers_ok; cbn; repeat split; (lia || reflexivity)).
  destruct (cheats_panel_never_overdraws demo_extern click_everything
              (set_balance 200 demo_game) Hr Hm)
    as (_ & _ & H & _ & _ & Hsell & _).
  split.
  - exact (proj2 (Hsell eq_refl eq_refl ltac:(cbn; lia))).
  - apply H. cbn. lia.
Defined.
